(** * GitHub analytics pipeline: a shallow embedding of the metric
    calculators, the commit aggregator and the rate-limited fetch layer.

    Number model.  JavaScript numbers that hold counts, timestamps and
    hours are integers ([Z]).  Numbers produced by a division (ratios,
    averages, scores) are exact rationals ([Q], compared with [==]);
    the only transcendental operation of the sources, [Math.log10], is
    taken over the reals.  [NaN] and the infinities are outside the
    model: every division of the embedded functions is guarded by the
    sources against a zero divisor.

    The exact rationals leave out the rounding of double precision.
    The theorems stated on them are ranges, orderings, identities and
    instances that this rounding preserves.  Where a statement is about
    the very value that the rounding decides (the one-decimal mean
    merge time of [calculateAverageHealthScore]), the computation is
    modelled on IEEE 754 binary64 numbers, in the module [Binary64].

    Effect model.  The asynchronous functions of the fetch layer thread
    a world (clock and event trace) and return either a value or the
    error they throw; the remote end is a function from the request and
    its position in the run to the answer. *)

From Stdlib Require Import ZArith QArith Qround Qminmax Qabs.
From Stdlib Require Import List String Ascii Bool DecimalString.
From Stdlib Require Import Sorting.Sorted Sorting.Permutation.
From Stdlib Require Import Reals Psatz.
From Stdlib Require PrimFloat FloatOps SpecFloat.
Import ListNotations.

(* ================================================================= *)
(** ** JavaScript primitives used by the sources *)

Module JS.

Local Open Scope Q_scope.

(** [Math.round]: the nearest integer, ties towards +infinity. *)
Definition Math_round (x : Q) : Z := Qfloor (x + (1 # 2)).

(** [Math.max] and [Math.min] on two arguments. *)
Definition Math_max (x y : Q) : Q := if Qle_bool x y then y else x.
Definition Math_min (x y : Q) : Q := if Qle_bool x y then x else y.

(** The comparison operators [>], [<] and [>=] on numbers. *)
Definition gt (x y : Q) : bool := negb (Qle_bool x y).
Definition lt (x y : Q) : bool := negb (Qle_bool y x).
Definition ge (x y : Q) : bool := Qle_bool y x.

(** [xs.reduce((sum, x) => sum + f(x), 0)] on integers and on
    rationals. *)
Definition sumZ {A} (f : A -> Z) (xs : list A) : Z :=
  fold_left (fun sum x => (sum + f x)%Z) xs 0%Z.
Definition sumQ {A} (f : A -> Q) (xs : list A) : Q :=
  fold_left (fun sum x => sum + f x) xs 0.

(** [xs.length] as a number. *)
Definition len {A} (xs : list A) : Z := Z.of_nat (List.length xs).

End JS.

(* ================================================================= *)
(** ** analytics/busFactor.ts *)

Module BusFactor.

Import JS.
Local Open Scope Q_scope.

Record Contributor := mkContributor {
  login : string;
  contributions : Z;
  avatar_url : string
}.

Inductive Risk := LOW | MEDIUM | HIGH.

Record BusFactorResult := mkBusFactorResult {
  risk : Risk;
  topContributorRatio : Q;
  topContributor : string;
  totalContributors : Z;
  score : Q
}.

Definition calculateBusFactor (contributors : list Contributor)
  : BusFactorResult :=
  match contributors with
  | [] =>
      {| risk := LOW; topContributorRatio := 0; topContributor := "";
         totalContributors := 0; score := 100 |}
  | topC :: _ =>
      let totalContributions := sumZ contributions contributors in
      if (totalContributions =? 0)%Z then
        {| risk := LOW; topContributorRatio := 0; topContributor := "";
           totalContributors := len contributors; score := 100 |}
      else
        let ratio :=
          inject_Z (contributions topC) / inject_Z totalContributions in
        let risk :=
          if gt ratio 0.6 then HIGH
          else if gt ratio 0.4 then MEDIUM
          else LOW in
        let score := Math_max 0 (100 - ratio * 100) in
        {| risk := risk; topContributorRatio := ratio;
           topContributor := login topC;
           totalContributors := len contributors; score := score |}
  end.

(** What the specification asks of the ratio: the largest contribution
    count of the list (0 for the empty list of counts below it). *)
Definition largestContribution (contributors : list Contributor) : Z :=
  match contributors with
  | [] => 0%Z
  | c :: cs => fold_left (fun m d => Z.max m (contributions d)) cs
                         (contributions c)
  end.

Definition Risk_eqb (a b : Risk) : bool :=
  match a, b with
  | LOW, LOW | MEDIUM, MEDIUM | HIGH, HIGH => true
  | _, _ => false
  end.

Definition calculateGlobalBusFactor (repoBusFactors : list BusFactorResult)
  : BusFactorResult :=
  match repoBusFactors with
  | [] =>
      {| risk := LOW; topContributorRatio := 0; topContributor := "";
         totalContributors := 0; score := 100 |}
  | _ :: _ =>
      let highRiskRepos :=
        filter (fun bf => Risk_eqb (risk bf) HIGH) repoBusFactors in
      let mediumRiskRepos :=
        filter (fun bf => Risk_eqb (risk bf) MEDIUM) repoBusFactors in
      let avgTopContributorRatio :=
        sumQ topContributorRatio repoBusFactors
          / inject_Z (len repoBusFactors) in
      let avgScore :=
        sumQ score repoBusFactors / inject_Z (len repoBusFactors) in
      let risk :=
        if gt (inject_Z (len highRiskRepos))
              (inject_Z (len repoBusFactors) * 0.3) then HIGH
        else if (len highRiskRepos >? 0)%Z
                || gt (inject_Z (len mediumRiskRepos))
                      (inject_Z (len repoBusFactors) * 0.5) then MEDIUM
        else LOW in
      {| risk := risk;
         topContributorRatio := avgTopContributorRatio;
         topContributor := "";
         totalContributors := sumZ totalContributors repoBusFactors;
         score := avgScore |}
  end.

End BusFactor.

(* ================================================================= *)
(** ** analytics/healthScore.ts *)

Module HealthScore.

Import JS.
Local Open Scope Q_scope.

Inductive State := open | closed.

Definition State_eqb (a b : State) : bool :=
  match a, b with
  | open, open | closed, closed => true
  | _, _ => false
  end.

Record PullRequestRef := mkPullRequestRef {
  ref_merged_at : option string
}.

Record Issue := mkIssue {
  issue_id : Z;
  issue_number : Z;
  issue_state : State;
  issue_created_at : string;
  issue_closed_at : option string;
  pull_request : option PullRequestRef
}.

Record PullRequest := mkPullRequest {
  id : Z;
  number : Z;
  state : State;
  merged : bool;
  created_at : string;
  closed_at : option string;
  merged_at : option string
}.

Inductive Grade := EXCELLENT | GOOD | FAIR | POOR.

Record Breakdown := mkBreakdown {
  issueResolution : Q;
  prMergeRate : Q;
  prSpeed : Q
}.

Record Metrics := mkMetrics {
  totalIssues : Z;
  closedIssues : Z;
  totalPRs : Z;
  mergedPRs : Z;
  avgMergeTimeHours : Q
}.

Record HealthScoreResult := mkHealthScoreResult {
  score : Q;
  grade : Grade;
  breakdown : Breakdown;
  metrics : Metrics
}.

(** Truthiness of a string and of a nullable string. *)
Definition truthy (s : string) : bool :=
  match s with EmptyString => false | _ => true end.
Definition truthy_opt (s : option string) : bool :=
  match s with Some s => truthy s | None => false end.

(** [!issue.pull_request]: the entry carries no [pull_request] field. *)
Definition isRealIssue (issue : Issue) : bool :=
  negb (match pull_request issue with Some _ => true | None => false end).

(** The grade ladder, shared by both calculators. *)
Definition gradeOf (score : Q) : Grade :=
  if ge score 80 then EXCELLENT
  else if ge score 60 then GOOD
  else if ge score 40 then FAIR
  else POOR.

Section WithDates.

(** [new Date(s).getTime()]: milliseconds since the epoch of a
    timestamp string.  The claims hold for every such function. *)
Variable Date_getTime : string -> Z.

Definition mergeTime (pr : PullRequest) : Z :=
  let created := Date_getTime (created_at pr) in
  let merged :=
    Date_getTime (match merged_at pr with Some s => s | None => "" end) in
  (merged - created)%Z.

Definition calculateHealthScore
    (issues : list Issue) (pullRequests : list PullRequest)
  : HealthScoreResult :=
  let realIssues := filter isRealIssue issues in
  let prs := pullRequests in
  let totalIssues := len realIssues in
  let closedIssues :=
    len (filter (fun i => State_eqb (issue_state i) closed) realIssues) in
  let totalPRs := len prs in
  let mergedPRs := len (filter (fun pr => merged pr) prs) in
  let mergedPRsWithTime :=
    filter (fun pr => merged pr && truthy_opt (merged_at pr)
                      && truthy (created_at pr)) prs in
  let avgMergeTimeHours :=
    if (len mergedPRsWithTime >? 0)%Z then
      let totalMergeTime := sumZ mergeTime mergedPRsWithTime in
      inject_Z totalMergeTime / inject_Z (len mergedPRsWithTime)
        / inject_Z (1000 * 60 * 60)
    else 0 in
  let issueResolution :=
    if (totalIssues >? 0)%Z
    then (inject_Z closedIssues / inject_Z totalIssues) * 40 else 40 in
  let prMergeRate :=
    if (totalPRs >? 0)%Z
    then (inject_Z mergedPRs / inject_Z totalPRs) * 40 else 40 in
  let prSpeed :=
    if gt avgMergeTimeHours 0 && lt avgMergeTimeHours 48 then 20 else 0 in
  let score :=
    inject_Z (Math_round (issueResolution + prMergeRate + prSpeed)) in
  let grade := gradeOf score in
  {| score := score;
     grade := grade;
     breakdown :=
       {| issueResolution := inject_Z (Math_round issueResolution);
          prMergeRate := inject_Z (Math_round prMergeRate);
          prSpeed := prSpeed |};
     metrics :=
       {| totalIssues := totalIssues;
          closedIssues := closedIssues;
          totalPRs := totalPRs;
          mergedPRs := mergedPRs;
          avgMergeTimeHours :=
            inject_Z (Math_round (avgMergeTimeHours * 10)) / 10 |} |}.

End WithDates.

(** The callback of the [reduce] that builds [totalMetrics]. *)
Definition addMetrics (acc : Metrics) (hs : HealthScoreResult) : Metrics :=
  {| totalIssues := (totalIssues acc + totalIssues (metrics hs))%Z;
     closedIssues := (closedIssues acc + closedIssues (metrics hs))%Z;
     totalPRs := (totalPRs acc + totalPRs (metrics hs))%Z;
     mergedPRs := (mergedPRs acc + mergedPRs (metrics hs))%Z;
     avgMergeTimeHours :=
       avgMergeTimeHours acc + avgMergeTimeHours (metrics hs) |}.

Definition calculateAverageHealthScore
    (healthScores : list HealthScoreResult) : HealthScoreResult :=
  match healthScores with
  | [] =>
      {| score := 0; grade := POOR;
         breakdown :=
           {| issueResolution := 0; prMergeRate := 0; prSpeed := 0 |};
         metrics :=
           {| totalIssues := 0; closedIssues := 0; totalPRs := 0;
              mergedPRs := 0; avgMergeTimeHours := 0 |} |}
  | _ :: _ =>
      let n := inject_Z (len healthScores) in
      let avgScore := sumQ score healthScores / n in
      let avgBreakdown :=
        {| issueResolution :=
             sumQ (fun hs => issueResolution (breakdown hs)) healthScores / n;
           prMergeRate :=
             sumQ (fun hs => prMergeRate (breakdown hs)) healthScores / n;
           prSpeed :=
             sumQ (fun hs => prSpeed (breakdown hs)) healthScores / n |} in
      let totalMetrics :=
        fold_left addMetrics
          healthScores
          {| totalIssues := 0; closedIssues := 0; totalPRs := 0;
             mergedPRs := 0; avgMergeTimeHours := 0 |} in
      let grade := gradeOf avgScore in
      {| score := inject_Z (Math_round avgScore);
         grade := grade;
         breakdown :=
           {| issueResolution :=
                inject_Z (Math_round (issueResolution avgBreakdown));
              prMergeRate :=
                inject_Z (Math_round (prMergeRate avgBreakdown));
              prSpeed := inject_Z (Math_round (prSpeed avgBreakdown)) |};
         metrics :=
           {| totalIssues := totalIssues totalMetrics;
              closedIssues := closedIssues totalMetrics;
              totalPRs := totalPRs totalMetrics;
              mergedPRs := mergedPRs totalMetrics;
              avgMergeTimeHours :=
                inject_Z
                  (Math_round
                     (avgMergeTimeHours totalMetrics / n * 10)) / 10 |} |}
  end.

(** Per-repository results used as examples: a repository without
    issues and pull requests (score 80) and one with 39 of 40 issues
    closed and no pull requests (score 79). *)
Definition closedIssue : Issue :=
  mkIssue 1 1 closed "2024-01-01T00:00:00Z"
          (Some "2024-01-02T00:00:00Z"%string) None.
Definition openIssue : Issue :=
  mkIssue 2 2 open "2024-01-01T00:00:00Z" None None.
Definition freshRepo : HealthScoreResult :=
  calculateHealthScore (fun _ => 0%Z) [] [].
Definition busyRepo : HealthScoreResult :=
  calculateHealthScore (fun _ => 0%Z)
    (repeat closedIssue 39 ++ [openIssue]) [].

End HealthScore.

(* ================================================================= *)
(** ** JavaScript numbers in double precision *)

Module Binary64.

Import PrimFloat FloatOps SpecFloat.
#[local] Set Warnings "-inexact-float".
Local Open Scope float_scope.

(** An integer as a number: exact up to 2^53, the nearest double
    beyond. *)
Definition ofZ (z : Z) : float :=
  SF2Prim (binary_normalize prec emax z 0 false).

(** [Math.round]: the integral number nearest to [x], ties towards
    +infinity; [NaN], the infinities and the zeros are returned as they
    are, and so is every number of magnitude 2^52 or more, which is
    integral already.  A result of zero keeps the sign of [x]. *)
Definition Math_round (x : float) : float :=
  match Prim2SF x with
  | S754_finite s m e =>
      if (0 <=? e)%Z then x
      else
        let n := if s then Z.neg m else Z.pos m in
        (* x = n * 2^e with e < 0; floor (x + 1/2) *)
        let k := ((2 * n + 2 ^ (- e)) / 2 ^ (1 - e))%Z in
        if (k =? 0)%Z then (if s then -0 else 0) else ofZ k
  | _ => x
  end.

(** [xs.reduce((acc, x) => acc + x, 0)]. *)
Definition sum (xs : list float) : float :=
  fold_left (fun acc x => acc + x) xs 0.

(** healthScore.ts, [calculateAverageHealthScore]: the
    [metrics.avgMergeTimeHours] of the result, from the
    [metrics.avgMergeTimeHours] of the given results. *)
Definition averageOfMergeTimeHours (perRepo : list float) : float :=
  if (JS.len perRepo =? 0)%Z then 0
  else
    let totalMetrics_avgMergeTimeHours := sum perRepo in
    Math_round
      (totalMetrics_avgMergeTimeHours / ofZ (JS.len perRepo) * 10)
    / 10.

End Binary64.

(* ================================================================= *)
(** ** api/github.ts: the fetch client and the pagination walker *)

Module Api.

Local Open Scope string_scope.
Local Open Scope Z_scope.

Definition Url := string.

Record RepoRef := mkRepoRef {
  ref_full_name : string
}.

Record GitHubRepo := mkGitHubRepo {
  id : Z;
  name : string;
  full_name : string;
  description : string;
  stargazers_count : Z;
  forks_count : Z;
  language : option string;
  created_at : string;
  updated_at : string;
  pushed_at : string;
  default_branch : string;
  private : bool;
  html_url : string;
  parent : option RepoRef;
  source : option RepoRef
}.

Record CommitActivity := mkCommitActivity {
  week : Z;
  total : Z;
  days : list Z
}.

(** A [Response] as far as the client looks at it: the status, the two
    rate-limit headers ([None] when [headers.get] gives [null]) and the
    decoded JSON body. *)
Record Response (Body : Type) := mkResponse {
  status : Z;
  X_RateLimit_Remaining : option string;
  X_RateLimit_Reset : option string;
  json : Body
}.
Arguments mkResponse {Body}.
Arguments status {Body}.
Arguments X_RateLimit_Remaining {Body}.
Arguments X_RateLimit_Reset {Body}.
Arguments json {Body}.

(** [response.ok]: a status in 200..299. *)
Definition ok {Body} (r : Response Body) : bool :=
  (200 <=? status r) && (status r <=? 299).

(** What the calling context can observe of a call. *)
Inductive Event :=
| Fetch (url : Url)
| Sleep (ms : Z).

(** The world: the clock read by [Date.now()] and the events so far,
    oldest first.  A request moves the clock by the time the remote end
    takes for it; [setTimeout] moves the clock by its delay. *)
Record World := mkWorld {
  now : Z;
  trace : list Event
}.

Definition isFetch (e : Event) : bool :=
  match e with Fetch _ => true | Sleep _ => false end.

Definition requestCount (w : World) : nat :=
  List.length (filter isFetch (trace w)).

Definition requests (w : World) : list Url :=
  flat_map (fun e => match e with Fetch u => [u] | Sleep _ => [] end)
           (trace w).

Inductive Error :=
| ResourceNotFound
| FailedAfterRetries (url : Url) (retries : nat).

Inductive Outcome (A : Type) :=
| Return (a : A)
| Throw (e : Error).
Arguments Return {A}.
Arguments Throw {A}.

Definition GITHUB_API_BASE : string := "https://api.github.com".

(** A number in a template literal. *)
Definition showZ (z : Z) : string :=
  NilZero.string_of_int (Z.to_int z).

Section Client.

Context {Body : Type}.

(** The remote end: the answer to a request for [url] when [n]
    requests were made before it. *)
Variable network : Url -> nat -> Response Body.

(** The milliseconds that pass between that request and its answer. *)
Variable latency : Url -> nat -> Z.

(** [parseInt]: [None] stands for [NaN]. *)
Variable parseInt : string -> option Z.

Definition fetch (url : Url) (w : World) : Response Body * World :=
  (network url (requestCount w),
   {| now := now w + latency url (requestCount w);
      trace := trace w ++ [Fetch url] |}).

Definition setTimeout (ms : Z) (w : World) : World :=
  {| now := now w + ms; trace := trace w ++ [Sleep ms] |}.

Definition handleRateLimit (response : Response Body) (w : World)
  : World :=
  match X_RateLimit_Remaining response, X_RateLimit_Reset response with
  | Some remaining, Some resetTime =>
      if String.eqb remaining "0" && negb (String.eqb resetTime "") then
        match parseInt resetTime with
        | Some reset =>
            let waitTime := reset * 1000 - now w in
            if waitTime >? 0 then setTimeout waitTime w else w
        | None => w
        end
      else w
  | _, _ => w
  end.

(** The [for] loop of [fetchWithRetry]: [left] iterations remain and
    the loop variable is [i]; the loop starts with [left = retries]
    and [i = 0]. *)
Fixpoint fetchWithRetry_loop (url : Url) (retries : nat)
    (left : nat) (i : nat) (w : World)
  : Outcome (Response Body) * World :=
  match left with
  | O => (Throw (FailedAfterRetries url retries), w)
  | S left' =>
      let (response, w1) := fetch url w in
      if status response =? 403 then
        let w2 := handleRateLimit response w1 in
        fetchWithRetry_loop url retries left' (S i) w2
      else if ok response then (Return response, w1)
      else if status response =? 404 then (Throw ResourceNotFound, w1)
      else
        let w2 :=
          if Z.of_nat i <? Z.of_nat retries - 1
          then setTimeout (1000 * (Z.of_nat i + 1)) w1 else w1 in
        fetchWithRetry_loop url retries left' (S i) w2
  end.

Definition fetchWithRetry (url : Url) (retries : nat) (w : World)
  : Outcome (Response Body) * World :=
  fetchWithRetry_loop url retries retries 0 w.

(** The world in which the next iteration starts after iteration [i]
    got the answer [r], neither a success nor a 404; [w1] is the
    world after the request. *)
Definition afterFailure (retries i : nat) (r : Response Body)
    (w1 : World) : World :=
  if status r =? 403 then handleRateLimit r w1
  else if Z.of_nat i <? Z.of_nat retries - 1
       then setTimeout (1000 * (Z.of_nat i + 1)) w1 else w1.

End Client.

Definition perPage : Z := 100.

Definition userReposUrl (username : string) (page : Z) : Url :=
  (GITHUB_API_BASE ++ "/users/" ++ username ++ "/repos?page=" ++ showZ page
     ++ "&per_page=" ++ showZ perPage ++ "&sort=updated")%string.

(** The URLs of [k] consecutive pages from page [page] on. *)
Definition pageUrls (username : string) (page : Z) (k : nat) : list Url :=
  map (fun i => userReposUrl username (page + Z.of_nat i)) (seq 0 k).

Section Walker.

Variable network : Url -> nat -> Response (list GitHubRepo).
Variable latency : Url -> nat -> Z.
Variable parseInt : string -> option Z.

(** The [while (true)] loop of [fetchUserRepos].  The source loop has
    no bound, so the model takes fuel: [None] means that the fuel ran
    out before the loop left. *)
Fixpoint fetchUserRepos_loop (fuel : nat) (username : string)
    (repos : list GitHubRepo) (page : Z) (w : World)
  : option (Outcome (list GitHubRepo) * World) :=
  match fuel with
  | O => None
  | S fuel' =>
      match fetchWithRetry network latency parseInt
              (userReposUrl username page) 3 w with
      | (Throw e, w1) => Some (Throw e, w1)
      | (Return response, w1) =>
          let data := json response in
          if Z.of_nat (List.length data) =? 0 then Some (Return repos, w1)
          else
            let repos' := (repos ++ data)%list in
            let page' := page + 1 in
            if Z.of_nat (List.length data) <? perPage
            then Some (Return repos', w1)
            else fetchUserRepos_loop fuel' username repos' page' w1
      end
  end.

Definition fetchUserRepos (fuel : nat) (username : string) (w : World)
  : option (Outcome (list GitHubRepo) * World) :=
  fetchUserRepos_loop fuel username [] 1 w.

End Walker.

(** An answer after which the loop of [fetchWithRetry] goes round
    again: neither a success nor a 404. *)
Definition retried {Body} (r : Response Body) : Prop :=
  ok r = false /\ status r <> 404.

(** The delays of the [setTimeout] calls so far, oldest first. *)
Definition sleeps (w : World) : list Z :=
  flat_map (fun e => match e with Sleep ms => [ms] | Fetch _ => [] end)
           (trace w).

Section Fetchers.

(** The element type of the JSON array that the endpoint returns. *)
Context {A : Type}.
Variable network : Url -> nat -> Response (list A).
Variable latency : Url -> nat -> Z.
Variable parseInt : string -> option Z.

(** The body of [fetchContributors], [fetchLanguages] and
    [fetchCommits]: [try { return (await fetchWithRetry(url)).json() }
    catch { return [] }]. *)
Definition fetchOrEmpty (url : Url) (w : World) : list A * World :=
  match fetchWithRetry network latency parseInt url 3 w with
  | (Return response, w1) => (json response, w1)
  | (Throw _, w1) => ([], w1)
  end.

(** The body of [fetchCommitActivity]: a 202 answer is waited out for
    two seconds and the request repeated once. *)
Definition fetchOrEmpty_202 (url : Url) (w : World) : list A * World :=
  match fetchWithRetry network latency parseInt url 3 w with
  | (Throw _, w1) => ([], w1)
  | (Return response, w1) =>
      if status response =? 202 then
        let w2 := setTimeout 2000 w1 in
        match fetchWithRetry network latency parseInt url 3 w2 with
        | (Throw _, w3) => ([], w3)
        | (Return retryResponse, w3) =>
            if status retryResponse =? 202 then ([], w3)
            else (json retryResponse, w3)
        end
      else (json response, w1)
  end.

(** The [while (true)] loops of [fetchIssues] and [fetchPullRequests];
    they are the loop of [fetchUserRepos] with another URL.  [None]
    means that the fuel ran out before the loop left. *)
Fixpoint fetchPages_loop (urlOf : Z -> Url) (fuel : nat)
    (items : list A) (page : Z) (w : World)
  : option (Outcome (list A) * World) :=
  match fuel with
  | O => None
  | S fuel' =>
      match fetchWithRetry network latency parseInt (urlOf page) 3 w with
      | (Throw e, w1) => Some (Throw e, w1)
      | (Return response, w1) =>
          let data := json response in
          if Z.of_nat (List.length data) =? 0 then Some (Return items, w1)
          else
            let items' := (items ++ data)%list in
            let page' := page + 1 in
            if Z.of_nat (List.length data) <? perPage
            then Some (Return items', w1)
            else fetchPages_loop urlOf fuel' items' page' w1
      end
  end.

(** The [try]/[catch] around those loops: an error at any page makes
    the function return the empty list. *)
Definition fetchPagesOrEmpty (urlOf : Z -> Url) (fuel : nat) (w : World)
  : option (list A * World) :=
  match fetchPages_loop urlOf fuel [] 1 w with
  | None => None
  | Some (Return items, w1) => Some (items, w1)
  | Some (Throw _, w1) => Some ([], w1)
  end.

End Fetchers.

Definition contributorsUrl (owner repo : string) : Url :=
  (GITHUB_API_BASE ++ "/repos/" ++ owner ++ "/" ++ repo
     ++ "/contributors")%string.

Definition commitActivityUrl (owner repo : string) : Url :=
  (GITHUB_API_BASE ++ "/repos/" ++ owner ++ "/" ++ repo
     ++ "/stats/commit_activity")%string.

Definition issuesUrl (owner repo : string) (page : Z) : Url :=
  (GITHUB_API_BASE ++ "/repos/" ++ owner ++ "/" ++ repo
     ++ "/issues?state=all&page=" ++ showZ page
     ++ "&per_page=" ++ showZ perPage)%string.

Definition pullsUrl (owner repo : string) (page : Z) : Url :=
  (GITHUB_API_BASE ++ "/repos/" ++ owner ++ "/" ++ repo
     ++ "/pulls?state=all&page=" ++ showZ page
     ++ "&per_page=" ++ showZ perPage)%string.

Definition fetchContributors
    (network : Url -> nat -> Response (list BusFactor.Contributor))
    (latency : Url -> nat -> Z) (parseInt : string -> option Z)
    (owner repo : string) (w : World)
  : list BusFactor.Contributor * World :=
  fetchOrEmpty network latency parseInt (contributorsUrl owner repo) w.

Definition fetchCommitActivity
    (network : Url -> nat -> Response (list CommitActivity))
    (latency : Url -> nat -> Z) (parseInt : string -> option Z)
    (owner repo : string) (w : World)
  : list CommitActivity * World :=
  fetchOrEmpty_202 network latency parseInt (commitActivityUrl owner repo) w.

Definition fetchIssues
    (network : Url -> nat -> Response (list HealthScore.Issue))
    (latency : Url -> nat -> Z) (parseInt : string -> option Z)
    (fuel : nat) (owner repo : string) (w : World)
  : option (list HealthScore.Issue * World) :=
  fetchPagesOrEmpty network latency parseInt (issuesUrl owner repo) fuel w.

Definition fetchPullRequests
    (network : Url -> nat -> Response (list HealthScore.PullRequest))
    (latency : Url -> nat -> Z) (parseInt : string -> option Z)
    (fuel : nat) (owner repo : string) (w : World)
  : option (list HealthScore.PullRequest * World) :=
  fetchPagesOrEmpty network latency parseInt (pullsUrl owner repo) fuel w.

(** A paginated endpoint seen from world [w]: the request for page
    [i + 1], made as the [i]-th request, is answered with success and
    the [i]-th batch. *)
Definition servesPages {A} (network : Url -> nat -> Response (list A))
    (urlOf : Z -> Url) (w : World) (pages : list (list A)) : Prop :=
  forall (i : nat) (p : list A),
    nth_error pages i = Some p ->
    let r := network (urlOf (Z.of_nat i + 1)) (requestCount w + i)%nat in
    ok r = true /\ json r = p.

(** A mock endpoint for the walker: starting in world [w], the request
    for page [i + 1] of the repositories of [username], made as the
    [i]-th request, is answered with success and the [i]-th batch. *)
Definition serves (network : Url -> nat -> Response (list GitHubRepo))
    (username : string) (w : World) (pages : list (list GitHubRepo))
  : Prop :=
  forall (i : nat) (p : list GitHubRepo),
    nth_error pages i = Some p ->
    let r := network (userReposUrl username (Z.of_nat i + 1))
                     (requestCount w + i)%nat in
    ok r = true /\ json r = p.

(** A repository record for the examples. *)
Definition helloRepo : GitHubRepo :=
  {| id := 1; name := "hello"; full_name := "octocat/hello";
     description := "first repository"; stargazers_count := 0;
     forks_count := 0; language := None;
     created_at := "2024-01-01T00:00:00Z";
     updated_at := "2024-01-01T00:00:00Z";
     pushed_at := "2024-01-01T00:00:00Z";
     default_branch := "main"; private := false;
     html_url := "https://github.com/octocat/hello";
     parent := None; source := None |}.

(** A [parseInt] for the strings of decimal digits that the reset
    header carries; anything else is [NaN]. *)
Definition digitOf (c : ascii) : option Z :=
  let n := Z.of_nat (nat_of_ascii c) in
  if (48 <=? n) && (n <=? 57) then Some (n - 48) else None.

Fixpoint parseDigits (acc : Z) (s : string) : option Z :=
  match s with
  | EmptyString => Some acc
  | String c s' =>
      match digitOf c with
      | Some d => parseDigits (acc * 10 + d) s'
      | None => None
      end
  end.

Definition parseInt_decimal (s : string) : option Z :=
  match s with
  | EmptyString => None
  | _ => parseDigits 0 s
  end.

End Api.

(* ================================================================= *)
(** ** Commit statistics: the timeline aggregator and the activity score *)

Module CommitStats.

Local Open Scope Z_scope.

Record RepoCommits := mkRepoCommits {
  repoName : string;
  commits : Z
}.

Record CommitTimelineData := mkCommitTimelineData {
  week : Z;
  totalCommits : Z;
  repoCount : Z;
  repos : list RepoCommits
}.

Record RepoCommitData := mkRepoCommitData {
  data_repoName : string;
  activities : list Api.CommitActivity
}.

(** A JavaScript [Map] with number keys: the entries in insertion
    order; [set] on a present key replaces the value in place. *)
Section JsMap.

Context {V : Type}.

Definition JsMap := list (Z * V).

Fixpoint Map_has (k : Z) (m : JsMap) : bool :=
  match m with
  | [] => false
  | (k', _) :: m' => if k' =? k then true else Map_has k m'
  end.

Fixpoint Map_get (k : Z) (m : JsMap) : option V :=
  match m with
  | [] => None
  | (k', v) :: m' => if k' =? k then Some v else Map_get k m'
  end.

Fixpoint Map_set (k : Z) (v : V) (m : JsMap) : JsMap :=
  match m with
  | [] => [(k, v)]
  | (k', v') :: m' =>
      if k' =? k then (k, v) :: m' else (k', v') :: Map_set k v m'
  end.

Definition Map_values (m : JsMap) : list V := map snd m.

End JsMap.
Arguments JsMap V : clear implicits.

(** [Array.prototype.sort] with a comparator: a stable sort; an element
    goes behind the elements that compare equal to it and precede it. *)
Section JsSort.

Context {A : Type}.
Variable compare : A -> A -> Z.

Fixpoint sort_insert (x : A) (sorted : list A) : list A :=
  match sorted with
  | [] => [x]
  | y :: sorted' =>
      if compare x y <=? 0 then x :: y :: sorted'
      else y :: sort_insert x sorted'
  end.

Definition Array_sort (xs : list A) : list A :=
  fold_right sort_insert [] xs.

End JsSort.

(** The body of the inner [forEach]: one activity of one repository. *)
Definition addActivity (repoName : string)
    (weekMap : JsMap CommitTimelineData) (activity : Api.CommitActivity)
  : JsMap CommitTimelineData :=
  let week := Api.week activity * 1000 in
  let weekMap :=
    if negb (Map_has week weekMap) then
      Map_set week
        {| week := week; totalCommits := 0; repoCount := 0; repos := [] |}
        weekMap
    else weekMap in
  match Map_get week weekMap with
  | Some weekData =>
      let repos' :=
        repos weekData
          ++ [{| repoName := repoName; commits := Api.total activity |}] in
      Map_set week
        {| week := CommitStats.week weekData;
           totalCommits := totalCommits weekData + Api.total activity;
           repoCount := Z.of_nat (List.length repos');
           repos := repos' |}
        weekMap
  | None => weekMap
  end.

Definition aggregateCommitActivity (repoCommitData : list RepoCommitData)
  : list CommitTimelineData :=
  let weekMap :=
    fold_left
      (fun weekMap d =>
         fold_left (addActivity (data_repoName d)) (activities d) weekMap)
      repoCommitData [] in
  let timeline :=
    Array_sort (fun a b => week a - week b) (Map_values weekMap) in
  timeline.

(** The reading of the specification: the input flattened to its
    (repository, weekly entry) pairs in order, the week key of an entry,
    the pairs of one week, and the timeline entry they add up to. *)
Definition entries (repoCommitData : list RepoCommitData)
  : list (string * Api.CommitActivity) :=
  flat_map (fun d => map (fun a => (data_repoName d, a)) (activities d))
           repoCommitData.

Definition weekKey (e : string * Api.CommitActivity) : Z :=
  Api.week (snd e) * 1000.

Definition entriesOfWeek (w : Z) (es : list (string * Api.CommitActivity))
  : list (string * Api.CommitActivity) :=
  filter (fun e => weekKey e =? w) es.

Definition contribution (e : string * Api.CommitActivity) : RepoCommits :=
  {| repoName := fst e; commits := Api.total (snd e) |}.

Definition summary (w : Z) (es : list (string * Api.CommitActivity))
  : CommitTimelineData :=
  {| week := w;
     totalCommits := JS.sumZ (fun e => Api.total (snd e)) (entriesOfWeek w es);
     repoCount := Z.of_nat (List.length (map contribution (entriesOfWeek w es)));
     repos := map contribution (entriesOfWeek w es) |}.

(** The state of [weekMap] once the pairs [es] have gone through the
    inner callback: one entry per week of [es], each the summary of its
    week. *)
Definition weekMapOf (weekMap : JsMap CommitTimelineData)
    (es : list (string * Api.CommitActivity)) : Prop :=
  NoDup (map fst weekMap) /\
  (forall k v, In (k, v) weekMap ->
               v = summary k es /\ exists e, In e es /\ weekKey e = k) /\
  (forall e, In e es -> In (weekKey e) (map fst weekMap)).

(** [xs.slice(start)] with one integer argument. *)
Definition Array_slice {A} (start : Z) (xs : list A) : list A :=
  let n := Z.of_nat (List.length xs) in
  let from := if start <? 0 then Z.max (n + start) 0 else Z.min start n in
  skipn (Z.to_nat from) xs.

(** The last [n] entries of a series (all of them when there are
    fewer). *)
Definition lastN {A} (n : nat) (xs : list A) : list A :=
  skipn (List.length xs - n) xs.

Local Open Scope R_scope.

(** [Math.log10] and [Math.round] over the reals. *)
Definition Math_log10 (x : R) : R := ln x / ln 10.
Definition Math_round (x : R) : Z := Int_part (x + / 2).

Definition calculateActivityScore
    (activities : list Api.CommitActivity) (weeksToConsider : Z) : Z :=
  match activities with
  | [] => 0%Z
  | _ :: _ =>
      let recentActivities :=
        filter (fun a => (Api.total a >? 0)%Z)
               (Array_slice (- weeksToConsider) activities) in
      match recentActivities with
      | [] => 0%Z
      | _ :: _ =>
          let totalCommits := JS.sumZ Api.total recentActivities in
          let avgCommitsPerWeek :=
            IZR totalCommits / INR (List.length recentActivities) in
          let score :=
            Rmin 100 (Math_log10 (avgCommitsPerWeek + 1) * 20) in
          Math_round score
      end
  end.

(** The default of the second parameter. *)
Definition weeksToConsider_default : Z := 12.

(** [isInactive]; the time of the call, [Date.now()], is a parameter. *)
Definition isInactive (now : Z) (activities : list Api.CommitActivity)
  : bool :=
  match activities with
  | [] => true
  | _ :: _ =>
      let threeMonthsAgo := (now - 90 * 24 * 60 * 60 * 1000)%Z in
      let recentActivities :=
        filter (fun a => (Api.week a * 1000 >=? threeMonthsAgo)%Z
                         && (Api.total a >? 0)%Z) activities in
      (Z.of_nat (List.length recentActivities) =? 0)%Z
  end.

(** The same score on integers, for evaluation.  For a ratio [n / d]
    with [0 < d <= n], [round(min(100, log10(n / d) * 20))] is the
    largest [k <= 100] with [10 ^ (2k - 1) * d ^ 40 <= n ^ 40], since
    [k - 1/2 <= 20 * log10 x] says [10 ^ (2k - 1) <= x ^ 40]. *)
Definition reaches (n d : Z) (k : nat) : bool :=
  (10 ^ Z.of_nat (2 * k - 1) * d ^ 40 <=? n ^ 40)%Z.

Fixpoint scoreSearch (n d : Z) (k : nat) : Z :=
  match k with
  | O => 0%Z
  | S k' => if reaches n d k then Z.of_nat k else scoreSearch n d k'
  end.

Definition calculateActivityScore_int
    (activities : list Api.CommitActivity) (weeksToConsider : Z) : Z :=
  match activities with
  | [] => 0%Z
  | _ :: _ =>
      let recentActivities :=
        filter (fun a => (Api.total a >? 0)%Z)
               (Array_slice (- weeksToConsider) activities) in
      match recentActivities with
      | [] => 0%Z
      | _ :: _ =>
          let totalCommits := JS.sumZ Api.total recentActivities in
          let weeks := Z.of_nat (List.length recentActivities) in
          scoreSearch (totalCommits + weeks) weeks 100
      end
  end.

End CommitStats.

(* ================================================================= *)
(** ** components/stress-analyzer.tsx: the per-commit stress score *)

Module Stress.

Import JS.
Local Open Scope Q_scope.

Record CommitData := mkCommitData {
  sha : string;
  message : string;
  date : string;
  filesCount : Z;
  additions : Z;
  deletions : Z;
  hour : Z;
  stressScore : Q;
  repo : string;
  url : string
}.

Definition STRESS_KEYWORDS : list string :=
  ["fix"; "hotfix"; "urgent"; "asap"; "quick"; "temp"; "hack";
   "workaround"; "emergency"; "critical"; "broken"; "crash";
   "panic"; "desperate"; "rushed"; "last minute"]%string.

(** [String.prototype.toLowerCase] on the ASCII letters. *)
Definition lowerChar (c : ascii) : ascii :=
  let n := nat_of_ascii c in
  if (65 <=? n)%nat && (n <=? 90)%nat then ascii_of_nat (n + 32) else c.

Fixpoint toLowerCase (s : string) : string :=
  match s with
  | EmptyString => EmptyString
  | String c s' => String (lowerChar c) (toLowerCase s')
  end.

(** The strings of ASCII characters only.  On these, [toLowerCase]
    above is all that [String.prototype.toLowerCase] does; on others
    JavaScript also maps letters outside ASCII, one of them (the Kelvin
    sign) to an ASCII letter. *)
Fixpoint isAscii (s : string) : bool :=
  match s with
  | EmptyString => true
  | String c s' => (nat_of_ascii c <? 128)%nat && isAscii s'
  end.

(** [s.includes(keyword)]: [keyword] occurs in [s] at some position. *)
Fixpoint includes (s keyword : string) : bool :=
  String.prefix keyword s
  || match s with
     | EmptyString => false
     | String _ s' => includes s' keyword
     end.

(** The three indicators of the [map] callback. *)
Definition hasMessageStress (message : string) : bool :=
  existsb (fun keyword => includes message keyword) STRESS_KEYWORDS.

Definition isFileSpike (avgFiles : Q) (commit : CommitData) : bool :=
  gt (inject_Z (filesCount commit)) (avgFiles * 2).

Definition isNightTime (hour : Z) : bool :=
  (hour >=? 22)%Z || (hour <? 5)%Z.

Definition isNightAggressive (avgFiles : Q) (commit : CommitData) : bool :=
  isNightTime (hour commit) && gt (inject_Z (filesCount commit)) avgFiles.

(** The body of the [map] callback, for a given mean file count. *)
Definition scoreCommit (avgFiles : Q) (commit : CommitData) : CommitData :=
  let stressScore := 0 in
  let message := toLowerCase (message commit) in
  let stressScore :=
    if hasMessageStress message then stressScore + 0.4 else stressScore in
  let stressScore :=
    if isFileSpike avgFiles commit
    then stressScore + 0.35 else stressScore in
  let stressScore :=
    if isNightAggressive avgFiles commit
    then stressScore + 0.25 else stressScore in
  let stressScore := Math_min stressScore 1.0 in
  {| sha := sha commit; message := Stress.message commit;
     date := date commit; filesCount := filesCount commit;
     additions := additions commit; deletions := deletions commit;
     hour := hour commit; stressScore := stressScore;
     repo := repo commit; url := url commit |}.

Definition averageFiles (commits : list CommitData) : Q :=
  inject_Z (sumZ filesCount commits) / inject_Z (len commits).

Definition calculateStressScore (commits : list CommitData)
  : list CommitData :=
  match commits with
  | [] => commits
  | _ :: _ =>
      let avgFiles := averageFiles commits in
      map (scoreCommit avgFiles) commits
  end.

End Stress.

(* ================================================================= *)
(** ** components/stress-analyzer.tsx: the capped repository walker *)

Module StressFetch.

Import Api.
Local Open Scope string_scope.
Local Open Scope Z_scope.

(** The local [GitHubRepo] interface of the component. *)
Record GitHubRepo := mkGitHubRepo {
  full_name : string;
  name : string;
  private : bool
}.

Definition perPage : Z := 30.

Definition reposUrl (username : string) (page : Z) : Url :=
  ("https://api.github.com/users/" ++ username ++ "/repos?per_page="
     ++ showZ perPage ++ "&page=" ++ showZ page ++ "&sort=updated")%string.

Section Walker.

Variable network : Url -> nat -> Response (list GitHubRepo).
Variable latency : Url -> nat -> Z.

(** The loop [while (page <= 2)]: [left] is the number of pages that
    the condition still admits, [3 - page]. *)
Fixpoint fetchUserRepos_loop (left : nat) (username : string)
    (repos : list GitHubRepo) (page : Z) (w : World)
  : list GitHubRepo * World :=
  match left with
  | O => (repos, w)
  | S left' =>
      let (response, w1) := fetch network latency (reposUrl username page) w in
      if negb (ok response) then (repos, w1)
      else
        let data := json response in
        if Z.of_nat (List.length data) =? 0 then (repos, w1)
        else
          fetchUserRepos_loop left' username (repos ++ data)%list (page + 1)
            (setTimeout 500 w1)
  end.

Definition fetchUserRepos (username : string) (w : World)
  : list GitHubRepo * World :=
  fetchUserRepos_loop 2 username [] 1 w.

End Walker.

End StressFetch.

(* ================================================================= *)
(** ** analytics/insights.ts: the insight engine *)

Module Insights.

Import JS.
Local Open Scope string_scope.
Local Open Scope Q_scope.

Inductive InsightType := warning | success | info | error.

Record Insight := mkInsight {
  type : InsightType;
  message : string;
  emoji : string
}.

(** A whole number in a template literal; [None] prints as the
    "Infinity" of a division by zero. *)
Definition show (n : option Z) : string :=
  match n with
  | Some z => Api.showZ z
  | None => "Infinity"
  end.

(** [insights.push(x)]. *)
Definition push (insights : list Insight) (x : Insight) : list Insight :=
  (insights ++ [x])%list.

(** The function pushes onto one array, block after block; each block
    is given here as a function of the array so far. *)

(** Bus factor insights. *)
Definition busFactorInsights
    (busFactors : list BusFactor.BusFactorResult)
    (globalBusFactor : option BusFactor.BusFactorResult)
    (insights : list Insight) : list Insight :=
  match globalBusFactor with
  | Some globalBusFactor =>
      let highRiskRepos :=
        len (filter (fun bf => BusFactor.Risk_eqb (BusFactor.risk bf)
                                 BusFactor.HIGH) busFactors) in
      let insights :=
        if (highRiskRepos >? 0)%Z then
          push insights
            {| type := warning;
               emoji := "⚠️";
               message :=
                 Api.showZ highRiskRepos ++ " "
                 ++ (if (highRiskRepos =? 1)%Z then "repository has"
                     else "repositories have")
                 ++ " a bus factor risk (over 60% commits from single contributor)"
            |}
        else insights in
      if BusFactor.Risk_eqb (BusFactor.risk globalBusFactor) BusFactor.LOW
         && (len busFactors >? 0)%Z then
        push insights
          {| type := success;
             emoji := "✅";
             message := "Good contributor distribution across repositories"
          |}
      else insights
  | None => insights
  end.

(** Health score insights. *)
Definition healthScoreInsights
    (globalHealthScore : option HealthScore.HealthScoreResult)
    (insights : list Insight) : list Insight :=
  match globalHealthScore with
  | Some globalHealthScore =>
      let avgMergeTimeHours :=
        HealthScore.avgMergeTimeHours
          (HealthScore.metrics globalHealthScore) in
      let insights :=
        match HealthScore.grade globalHealthScore with
        | HealthScore.EXCELLENT =>
            push insights
              {| type := success;
                 emoji := "🚀";
                 message :=
                   "Pull requests are merged quickly (healthy workflow)" |}
        | HealthScore.POOR =>
            push insights
              {| type := error;
                 emoji := "🔴";
                 message :=
                   "Repository health needs attention - low issue resolution and PR merge rates"
              |}
        | _ => insights
        end in
      if gt avgMergeTimeHours 0 && lt avgMergeTimeHours 48 then
        push insights
          {| type := success;
             emoji := "⚡";
             message :=
               "Average PR merge time is "
               ++ Api.showZ (Math_round avgMergeTimeHours)
               ++ " hours (excellent)" |}
      else if gt avgMergeTimeHours 168 then
        push insights
          {| type := warning;
             emoji := "🐌";
             message :=
               "Average PR merge time is "
               ++ Api.showZ (Math_round (avgMergeTimeHours / 24))
               ++ " days (could be improved)" |}
      else insights
  | None => insights
  end.

(** [Math.round((inactiveRepos / totalRepos) * 100)] for a positive
    [inactiveRepos]: [None] is the [Infinity] of a zero total. *)
Definition inactivePercentage (inactiveRepos totalRepos : Z) : option Z :=
  if (totalRepos =? 0)%Z then None
  else Some (Math_round
               (inject_Z inactiveRepos / inject_Z totalRepos * 100)).

(** [inactivePercentage > 50]. *)
Definition mostlyInactive (inactiveRepos totalRepos : Z) : bool :=
  match inactivePercentage inactiveRepos totalRepos with
  | Some p => (p >? 50)%Z
  | None => true
  end.

(** Activity insights. *)
Definition activityInsights (inactiveRepos totalRepos : Z)
    (insights : list Insight) : list Insight :=
  if (inactiveRepos >? 0)%Z then
    if mostlyInactive inactiveRepos totalRepos then
      push insights
        {| type := warning;
           emoji := "💤";
           message :=
             show (inactivePercentage inactiveRepos totalRepos)
             ++ "% of repositories are inactive (no commits in last 3 months)"
        |}
    else
      push insights
        {| type := info;
           emoji := "📊";
           message :=
             Api.showZ inactiveRepos ++ " "
             ++ (if (inactiveRepos =? 1)%Z then "repository is"
                 else "repositories are")
             ++ " inactive" |}
  else insights.

(** [activeRepos > 0 && activeRepos / totalRepos > 0.7]; for a zero
    total the quotient of a positive [activeRepos] is [Infinity]. *)
Definition mostlyActive (inactiveRepos totalRepos : Z) : bool :=
  let activeRepos := (totalRepos - inactiveRepos)%Z in
  (activeRepos >? 0)%Z
  && (if (totalRepos =? 0)%Z then true
      else gt (inject_Z activeRepos / inject_Z totalRepos) 0.7).

(** Overall activity insight. *)
Definition overallActivityInsight (inactiveRepos totalRepos : Z)
    (insights : list Insight) : list Insight :=
  if mostlyActive inactiveRepos totalRepos then
    push insights
      {| type := success;
         emoji := "✨";
         message := "Most repositories show active development" |}
  else insights.

(** Default insight if no specific insights. *)
Definition defaultInsight (insights : list Insight) : list Insight :=
  if (len insights =? 0)%Z then
    push insights
      {| type := info;
         emoji := "📈";
         message := "Analytics data loaded successfully" |}
  else insights.

Definition generateInsights
    (busFactors : list BusFactor.BusFactorResult)
    (globalBusFactor : option BusFactor.BusFactorResult)
    (healthScores : list HealthScore.HealthScoreResult)
    (globalHealthScore : option HealthScore.HealthScoreResult)
    (inactiveRepos totalRepos : Z) : list Insight :=
  let insights : list Insight := [] in
  let insights := busFactorInsights busFactors globalBusFactor insights in
  let insights := healthScoreInsights globalHealthScore insights in
  let insights := activityInsights inactiveRepos totalRepos insights in
  let insights := overallActivityInsight inactiveRepos totalRepos insights in
  let insights := defaultInsight insights in
  insights.

End Insights.

(* ================================================================= *)
(** * Properties *)

(** ** Arithmetic of the JavaScript primitives *)

Section JsFacts.

Import JS.
Local Open Scope Q_scope.

Lemma sumZ_from {A} (f : A -> Z) (xs : list A) (a : Z) :
  fold_left (fun sum x => (sum + f x)%Z) xs a = (a + sumZ f xs)%Z.
Proof.
  unfold sumZ. revert a.
  induction xs as [|x xs IH]; intros a; simpl.
  - lia.
  - rewrite IH, (IH (f x)). lia.
Qed.

Lemma sumZ_cons {A} (f : A -> Z) (x : A) (xs : list A) :
  sumZ f (x :: xs) = (f x + sumZ f xs)%Z.
Proof. unfold sumZ at 1. simpl. apply sumZ_from. Qed.

Lemma sumZ_app {A} (f : A -> Z) (xs ys : list A) :
  sumZ f (xs ++ ys) = (sumZ f xs + sumZ f ys)%Z.
Proof.
  induction xs as [|x xs IH]; simpl.
  - reflexivity.
  - rewrite !sumZ_cons, IH. lia.
Qed.

Lemma sumZ_nonneg {A} (f : A -> Z) (xs : list A) :
  (forall x, In x xs -> (0 <= f x)%Z) -> (0 <= sumZ f xs)%Z.
Proof.
  induction xs as [|x xs IH]; intros H.
  - reflexivity.
  - rewrite sumZ_cons.
    assert (0 <= f x)%Z by (apply H; now left).
    assert (0 <= sumZ f xs)%Z by (apply IH; intros; apply H; now right).
    lia.
Qed.

Lemma gt_true x y : gt x y = true <-> y < x.
Proof.
  unfold gt. rewrite negb_true_iff.
  destruct (Qle_bool x y) eqn:E.
  - apply Qle_bool_iff in E. split; [discriminate | intros; exfalso; lra].
  - split; [intros _ | reflexivity].
    apply Qnot_le_lt. intros H. apply Qle_bool_iff in H. congruence.
Qed.

Lemma ge_true x y : ge x y = true <-> y <= x.
Proof. unfold ge. apply Qle_bool_iff. Qed.

Lemma ge_false x y : ge x y = false <-> x < y.
Proof.
  unfold ge. destruct (Qle_bool y x) eqn:E.
  - apply Qle_bool_iff in E. split; [discriminate | intros; exfalso; lra].
  - split; [intros _ | reflexivity].
    apply Qnot_le_lt. intros H. apply Qle_bool_iff in H. congruence.
Qed.

Lemma Math_max_spec x y :
  (x <= y /\ Math_max x y = y) \/ (y < x /\ Math_max x y = x).
Proof.
  unfold Math_max. destruct (Qle_bool x y) eqn:E.
  - left. split; [now apply Qle_bool_iff | reflexivity].
  - right. split; [|reflexivity].
    apply Qnot_le_lt. intros H. apply Qle_bool_iff in H. congruence.
Qed.

Lemma Math_min_spec x y :
  (x <= y /\ Math_min x y = x) \/ (y < x /\ Math_min x y = y).
Proof.
  unfold Math_min. destruct (Qle_bool x y) eqn:E.
  - left. split; [now apply Qle_bool_iff | reflexivity].
  - right. split; [|reflexivity].
    apply Qnot_le_lt. intros H. apply Qle_bool_iff in H. congruence.
Qed.

(** [Math.round] stays within a half of its argument. *)
Lemma Math_round_near x :
  x - (1 # 2) < inject_Z (Math_round x) /\ inject_Z (Math_round x) <= x + (1 # 2).
Proof.
  unfold Math_round.
  pose proof (Qfloor_le (x + (1 # 2))) as Hle.
  pose proof (Qlt_floor (x + (1 # 2))) as Hlt.
  rewrite inject_Z_plus in Hlt.
  change (inject_Z 1) with 1 in Hlt.
  split; lra.
Qed.

Lemma len_cons {A} (x : A) (xs : list A) : (0 < len (x :: xs))%Z.
Proof. unfold len. cbn [List.length]. lia. Qed.

End JsFacts.

(** ** Bus factor *)

Section BusFactorFacts.

Import JS BusFactor.
Local Open Scope Q_scope.

Lemma largestContribution_from (cs : list Contributor) (m : Z) :
  (forall d, In d cs -> (contributions d <= m)%Z) ->
  fold_left (fun m d => Z.max m (contributions d)) cs m = m.
Proof.
  revert m. induction cs as [|d cs IH]; intros m H; simpl.
  - reflexivity.
  - rewrite Z.max_l by (apply H; now left).
    apply IH. intros; apply H; now right.
Qed.

(** The ratio of a list with a non-zero total, as the code computes
    it. *)
Lemma ratio_unfold c cs :
  sumZ contributions (c :: cs) <> 0%Z ->
  topContributorRatio (calculateBusFactor (c :: cs)) =
    inject_Z (contributions c) / inject_Z (sumZ contributions (c :: cs)).
Proof.
  intros H. unfold calculateBusFactor.
  destruct (sumZ contributions (c :: cs) =? 0)%Z eqn:E.
  - apply Z.eqb_eq in E. contradiction.
  - reflexivity.
Qed.

Lemma score_unfold c cs :
  sumZ contributions (c :: cs) <> 0%Z ->
  score (calculateBusFactor (c :: cs)) =
    Math_max 0 (100 - topContributorRatio (calculateBusFactor (c :: cs)) * 100).
Proof.
  intros H. unfold calculateBusFactor.
  destruct (sumZ contributions (c :: cs) =? 0)%Z eqn:E.
  - apply Z.eqb_eq in E. contradiction.
  - reflexivity.
Qed.

Lemma ratio_bounds (a t : Z) :
  (0 <= a <= t)%Z -> (0 < t)%Z ->
  0 <= inject_Z a / inject_Z t <= 1.
Proof.
  intros Ha Ht.
  assert (0 < inject_Z t) by (change 0 with (inject_Z 0); rewrite <- Zlt_Qlt; lia).
  assert (0 <= inject_Z a) by (change 0 with (inject_Z 0); rewrite <- Zle_Qle; lia).
  assert (inject_Z a <= inject_Z t) by (rewrite <- Zle_Qle; lia).
  split.
  - apply Qle_shift_div_l; [assumption | lra].
  - apply Qle_shift_div_r; [assumption | lra].
Qed.

End BusFactorFacts.

Section BusFactorClaims.

Import JS BusFactor.
Local Open Scope Q_scope.

(** C2, as stated, fails: the calculator reads the first element and
    does not look for the largest count.  On [bob 30; alice 70] the
    total is positive, the ratio is 30/100 and not 70/100, and the
    permuted list [alice 70; bob 30] gives another ratio. *)
Lemma C2_first_element_not_largest :
  let cs := [mkContributor "bob" 30 ""; mkContributor "alice" 70 ""] in
  let cs' := [mkContributor "alice" 70 ""; mkContributor "bob" 30 ""] in
  (0 < sumZ contributions cs)%Z /\
  Permutation cs cs' /\
  ~ topContributorRatio (calculateBusFactor cs) ==
      inject_Z (largestContribution cs) / inject_Z (sumZ contributions cs) /\
  ~ topContributorRatio (calculateBusFactor cs) ==
      topContributorRatio (calculateBusFactor cs').
Proof.
  cbv zeta. split; [reflexivity|]. split; [apply perm_swap|].
  split; vm_compute; discriminate.
Qed.

(** C2, amended: for every contributor list with a positive total,
    [topContributorRatio] is the contribution count of the FIRST
    element divided by the sum of all counts; it is the largest count
    over the sum whenever no later element exceeds the first one, as in
    a list sorted descending. *)
Theorem C2_ratio_is_first_over_sum (c : Contributor) (cs : list Contributor) :
  (0 < sumZ contributions (c :: cs))%Z ->
  topContributorRatio (calculateBusFactor (c :: cs)) ==
    inject_Z (contributions c) / inject_Z (sumZ contributions (c :: cs))
  /\
  ((forall d, In d cs -> (contributions d <= contributions c)%Z) ->
   topContributorRatio (calculateBusFactor (c :: cs)) ==
     inject_Z (largestContribution (c :: cs))
       / inject_Z (sumZ contributions (c :: cs))).
Proof.
  intros Hpos.
  rewrite ratio_unfold by lia.
  split; [reflexivity|].
  intros Htop. simpl largestContribution.
  rewrite largestContribution_from by assumption.
  reflexivity.
Qed.

Lemma C2_ratio_is_first_over_sum_witness :
  let alice := mkContributor "alice" 70 "" in
  let bob := mkContributor "bob" 30 "" in
  topContributorRatio (calculateBusFactor [alice; bob]) == 70 / 100 /\
  topContributorRatio (calculateBusFactor [alice; bob]) ==
    inject_Z (largestContribution [alice; bob]) / 100.
Proof.
  cbv zeta.
  destruct (C2_ratio_is_first_over_sum
              (mkContributor "alice" 70 "") [mkContributor "bob" 30 ""])
    as [H1 H2].
  - vm_compute. reflexivity.
  - split.
    + exact H1.
    + apply H2. intros d [<-|[]]. vm_compute. discriminate.
Defined.

(** C4, as stated, fails: without a precondition on the counts the
    ratio leaves [0,1] and the score is clamped away from
    [100 - ratio*100].  On the counts [3; -1] the total is 2, the ratio
    is 3/2 and the score is 0, not -50. *)
Lemma C4_negative_count_breaks_bounds :
  let r := calculateBusFactor
             [mkContributor "a" 3 ""; mkContributor "b" (-1) ""] in
  ~ topContributorRatio r <= 1 /\
  ~ score r == 100 - topContributorRatio r * 100.
Proof.
  cbv zeta. split; vm_compute; intros H; [now apply H | discriminate H].
Qed.

(** C4, amended: for any contributor list whose contribution counts
    are non-negative, [0 <= topContributorRatio <= 1],
    [0 <= score <= 100] and [score = 100 - topContributorRatio*100]. *)
Theorem C4_ratio_and_score_ranges (contributors : list Contributor) :
  (forall c, In c contributors -> (0 <= contributions c)%Z) ->
  let r := calculateBusFactor contributors in
  0 <= topContributorRatio r <= 1 /\
  0 <= score r <= 100 /\
  score r == 100 - topContributorRatio r * 100.
Proof.
  intros Hnn. cbv zeta.
  destruct contributors as [|c cs].
  - simpl. repeat split; lra.
  - destruct (Z.eq_dec (sumZ contributions (c :: cs)) 0) as [E|E].
    + unfold calculateBusFactor. rewrite E. simpl. repeat split; lra.
    + rewrite (score_unfold c cs E), (ratio_unfold c cs E).
      assert (Hc : (0 <= contributions c)%Z) by (apply Hnn; now left).
      assert (Hs : (0 <= sumZ contributions cs)%Z).
      { apply sumZ_nonneg. intros; apply Hnn; now right. }
      rewrite sumZ_cons in *.
      pose proof (ratio_bounds (contributions c)
                    (contributions c + sumZ contributions cs)
                    ltac:(lia) ltac:(lia)) as [Hlo Hhi].
      set (ratio := inject_Z (contributions c) / _) in *.
      destruct (Math_max_spec 0 (100 - ratio * 100)) as [[Hle ->]|[Hlt ->]].
      * repeat split; lra.
      * exfalso. lra.
Qed.

Lemma C4_ratio_and_score_ranges_witness :
  let r := calculateBusFactor
             [mkContributor "alice" 70 ""; mkContributor "bob" 30 ""] in
  0 <= topContributorRatio r <= 1 /\
  0 <= score r <= 100 /\
  score r == 100 - topContributorRatio r * 100.
Proof.
  apply (C4_ratio_and_score_ranges
           [mkContributor "alice" 70 ""; mkContributor "bob" 30 ""]).
  intros c [<-|[<-|[]]]; vm_compute; discriminate.
Defined.

End BusFactorClaims.

(** ** Health score *)

Section HealthScoreFacts.

Import JS HealthScore.
Local Open Scope Q_scope.

Lemma totalMetrics_fields (hss : list HealthScoreResult) (acc : Metrics) :
  let m := fold_left addMetrics hss acc in
  totalIssues m
    = fold_left (fun s hs => (s + totalIssues (metrics hs))%Z) hss
                (totalIssues acc) /\
  closedIssues m
    = fold_left (fun s hs => (s + closedIssues (metrics hs))%Z) hss
                (closedIssues acc) /\
  totalPRs m
    = fold_left (fun s hs => (s + totalPRs (metrics hs))%Z) hss
                (totalPRs acc) /\
  mergedPRs m
    = fold_left (fun s hs => (s + mergedPRs (metrics hs))%Z) hss
                (mergedPRs acc) /\
  avgMergeTimeHours m
    = fold_left (fun s hs => s + avgMergeTimeHours (metrics hs)) hss
                (avgMergeTimeHours acc).
Proof.
  revert acc. induction hss as [|hs hss IH]; intros acc; simpl.
  - repeat split.
  - apply (IH (addMetrics acc hs)).
Qed.

(** The result for a non-empty list, with every [reduce] written as a
    sum. *)
Lemma average_unfold (h : HealthScoreResult) (hss : list HealthScoreResult) :
  let all := h :: hss in
  let n := inject_Z (len all) in
  let r := calculateAverageHealthScore all in
  score r = inject_Z (Math_round (sumQ score all / n)) /\
  grade r = gradeOf (sumQ score all / n) /\
  totalIssues (metrics r) = sumZ (fun hs => totalIssues (metrics hs)) all /\
  closedIssues (metrics r) = sumZ (fun hs => closedIssues (metrics hs)) all /\
  totalPRs (metrics r) = sumZ (fun hs => totalPRs (metrics hs)) all /\
  mergedPRs (metrics r) = sumZ (fun hs => mergedPRs (metrics hs)) all /\
  avgMergeTimeHours (metrics r) =
    inject_Z
      (Math_round
         (sumQ (fun hs => avgMergeTimeHours (metrics hs)) all / n * 10)) / 10.
Proof.
  cbv zeta.
  pose proof (totalMetrics_fields (h :: hss)
                {| totalIssues := 0; closedIssues := 0; totalPRs := 0;
                   mergedPRs := 0; avgMergeTimeHours := 0 |})
    as (H1 & H2 & H3 & H4 & H5).
  cbv zeta in *.
  unfold calculateAverageHealthScore.
  cbn [score grade metrics totalIssues closedIssues totalPRs mergedPRs
       avgMergeTimeHours].
  rewrite H1, H2, H3, H4, H5.
  repeat split.
Qed.

End HealthScoreFacts.

Section HealthScoreClaims.

Import JS HealthScore.
Local Open Scope Q_scope.

(** C5: for every input to [calculateHealthScore], if the issue list
    filtered of pull-request entries is empty then the issueResolution
    sub-score is 40, and if the pull-request list is empty then the
    prMergeRate sub-score is 40. *)
Theorem C5_absent_data_scores_40
    (Date_getTime : string -> Z)
    (issues : list Issue) (pullRequests : list PullRequest) :
  let r := calculateHealthScore Date_getTime issues pullRequests in
  (filter isRealIssue issues = [] -> issueResolution (breakdown r) = 40) /\
  (pullRequests = [] -> prMergeRate (breakdown r) = 40).
Proof.
  cbv zeta. unfold calculateHealthScore. split.
  - intros ->. reflexivity.
  - intros ->. reflexivity.
Qed.

Lemma C5_absent_data_scores_40_witness :
  let pr_entry :=
    mkIssue 1 1 open "2024-01-01T00:00:00Z" None
            (Some (mkPullRequestRef None)) in
  let r := calculateHealthScore (fun _ => 0%Z) [pr_entry] [] in
  issueResolution (breakdown r) = 40 /\ prMergeRate (breakdown r) = 40.
Proof.
  cbv zeta.
  destruct (C5_absent_data_scores_40 (fun _ => 0%Z)
              [mkIssue 1 1 open "2024-01-01T00:00:00Z" None
                       (Some (mkPullRequestRef None))] [])
    as [H1 H2].
  split; [apply H1 | apply H2]; reflexivity.
Defined.

(** C3, as stated, fails in its last part: the returned
    avgMergeTimeHours is rounded to one decimal.  For three results
    with per-repository averages 1, 0 and 0 the sum over the count is
    1/3, and the function returns 3/10. *)
Lemma C3_average_is_rounded :
  let h a := mkHealthScoreResult 0 POOR (mkBreakdown 0 0 0)
                                 (mkMetrics 0 0 0 0 a) in
  let all := [h 1; h 0; h 0] in
  ~ avgMergeTimeHours (metrics (calculateAverageHealthScore all)) ==
      sumQ (fun hs => avgMergeTimeHours (metrics hs)) all
        / inject_Z (len all).
Proof. vm_compute. discriminate. Qed.

(** C10: the grade of [calculateAverageHealthScore] comes from the
    unrounded mean of the scores while the returned score is that mean
    rounded; for some non-empty list of per-repository results (here
    scores 80, 80, 80, 79, 79, mean 79.6) the result has a score of at
    least 80 and the grade GOOD, not EXCELLENT. *)
Theorem C10_score_80_graded_GOOD :
  (forall (h : HealthScoreResult) (hss : list HealthScoreResult),
     let mean := sumQ score (h :: hss) / inject_Z (len (h :: hss)) in
     let r := calculateAverageHealthScore (h :: hss) in
     grade r = gradeOf mean /\ score r = inject_Z (Math_round mean))
  /\
  exists healthScores : list HealthScoreResult,
    healthScores <> [] /\
    map score healthScores = [80; 80; 80; 79; 79] /\
    sumQ score healthScores / inject_Z (len healthScores) == 79.6 /\
    let r := calculateAverageHealthScore healthScores in
    80 <= score r /\ grade r = GOOD /\ grade r <> EXCELLENT.
Proof.
  split.
  - intros h hss. cbv zeta.
    destruct (average_unfold h hss) as (H1 & H2 & _).
    split; assumption.
  - exists [freshRepo; freshRepo; freshRepo; busyRepo; busyRepo].
    split; [discriminate|].
    split; [vm_compute; reflexivity|].
    split; [vm_compute; reflexivity|].
    cbv zeta. split; [|split].
    + vm_compute. discriminate.
    + vm_compute. reflexivity.
    + vm_compute. discriminate.
Qed.

End HealthScoreClaims.

Section AverageMergeTimeClaims.

Import JS HealthScore.
Import PrimFloat.
#[local] Set Warnings "-inexact-float".

(** C3, amended: on the empty list [calculateAverageHealthScore]
    returns score 0, grade POOR and all-zero breakdown and metrics; for
    every non-empty list the count metrics are summed.  The returned
    avgMergeTimeHours is not the average of the averages itself: in the
    double-precision arithmetic of the code it is
    [Math.round((S / n) * 10) / 10], where [S] is the sum of the
    per-repository averages added up from the left and [n] their
    number.  So it has one decimal (averages 1, 0, 0 give 0.3, not
    1/3), and it inherits the rounding error of [S] (averages 0.1 and
    4.6 give 2.3, their sum being 4.699999999999999). *)
Theorem C3_average_health_score :
  calculateAverageHealthScore [] =
    mkHealthScoreResult 0 POOR (mkBreakdown 0 0 0) (mkMetrics 0 0 0 0 0)
  /\
  (forall (h : HealthScoreResult) (hss : list HealthScoreResult),
    let all := h :: hss in
    let r := calculateAverageHealthScore all in
    totalIssues (metrics r) = sumZ (fun hs => totalIssues (metrics hs)) all /\
    closedIssues (metrics r) = sumZ (fun hs => closedIssues (metrics hs)) all /\
    totalPRs (metrics r) = sumZ (fun hs => totalPRs (metrics hs)) all /\
    mergedPRs (metrics r) = sumZ (fun hs => mergedPRs (metrics hs)) all)
  /\
  Binary64.averageOfMergeTimeHours [] = 0%float
  /\
  (forall (a : float) (perRepo : list float),
    let all := a :: perRepo in
    Binary64.averageOfMergeTimeHours all
    = (Binary64.Math_round
         (fold_left add all 0 / Binary64.ofZ (len all) * 10) / 10)%float)
  /\
  Binary64.averageOfMergeTimeHours [1; 0; 0]%float = 0.3%float
  /\
  Binary64.averageOfMergeTimeHours [0.1; 4.6]%float = 2.3%float
  /\
  Binary64.sum [0.1; 4.6]%float = 4.699999999999999%float.
Proof.
  split; [reflexivity|].
  split.
  { intros h hss. cbv zeta.
    destruct (average_unfold h hss) as (_ & _ & H1 & H2 & H3 & H4 & _).
    cbv zeta in *.
    repeat (split; [assumption|]). assumption. }
  split; [reflexivity|].
  split.
  { intros a perRepo. cbv zeta. unfold Binary64.averageOfMergeTimeHours.
    assert (E : (len (a :: perRepo) =? 0)%Z = false).
    { apply Z.eqb_neq. pose proof (len_cons a perRepo). lia. }
    rewrite E. reflexivity. }
  repeat split; vm_compute; reflexivity.
Qed.

End AverageMergeTimeClaims.

(** ** Fetch client *)

Section FetchFacts.

Import Api.
Local Open Scope Z_scope.

Context {Body : Type}.
Variable network : Url -> nat -> Response Body.
Variable latency : Url -> nat -> Z.
Variable parseInt : string -> option Z.

Lemma requests_app (t1 t2 : list Event) (n : Z) :
  requests {| now := n; trace := t1 ++ t2 |}
  = (requests {| now := n; trace := t1 |}
       ++ requests {| now := n; trace := t2 |})%list.
Proof. unfold requests. simpl. apply flat_map_app. Qed.

Lemma requests_fetch url w :
  requests (snd (fetch network latency url w)) = (requests w ++ [url])%list.
Proof. unfold requests, fetch. simpl. now rewrite flat_map_app. Qed.

Lemma requests_setTimeout ms w : requests (setTimeout ms w) = requests w.
Proof.
  unfold requests, setTimeout. simpl.
  rewrite flat_map_app. simpl. now rewrite app_nil_r.
Qed.

Lemma requests_handleRateLimit (r : Response Body) w :
  requests (handleRateLimit parseInt r w) = requests w.
Proof.
  unfold handleRateLimit.
  destruct (X_RateLimit_Remaining r) as [rem|]; [|reflexivity].
  destruct (X_RateLimit_Reset r) as [rst|]; [|reflexivity].
  destruct (_ && _); [|reflexivity].
  destruct (parseInt rst) as [t|]; [|reflexivity].
  destruct (_ >? 0); [apply requests_setTimeout | reflexivity].
Qed.

Lemma requestCount_requests w : requestCount w = List.length (requests w).
Proof.
  unfold requestCount, requests.
  induction (trace w) as [|[u|ms] t IH]; simpl; congruence.
Qed.

Lemma requestCount_fetch url w :
  requestCount (snd (fetch network latency url w)) = S (requestCount w).
Proof.
  rewrite !requestCount_requests, requests_fetch, length_app. simpl. lia.
Qed.

Lemma requestCount_setTimeout ms w :
  requestCount (setTimeout ms w) = requestCount w.
Proof. now rewrite !requestCount_requests, requests_setTimeout. Qed.

Lemma requestCount_handleRateLimit (r : Response Body) w :
  requestCount (handleRateLimit parseInt r w) = requestCount w.
Proof. now rewrite !requestCount_requests, requests_handleRateLimit. Qed.

Lemma requests_afterFailure retries i (r : Response Body) w1 :
  requests (afterFailure parseInt retries i r w1) = requests w1.
Proof.
  unfold afterFailure.
  destruct (status r =? 403); [apply requests_handleRateLimit|].
  destruct (_ <? _); [apply requests_setTimeout | reflexivity].
Qed.

(** One iteration of the loop. *)
Lemma loop_step url retries left i w :
  let r := network url (requestCount w) in
  let w1 := snd (fetch network latency url w) in
  fetchWithRetry_loop network latency parseInt url retries (S left) i w =
    if (status r =? 403) || negb (ok r || (status r =? 404))
    then fetchWithRetry_loop network latency parseInt url retries left (S i)
           (afterFailure parseInt retries i r w1)
    else if ok r then (Return r, w1) else (Throw ResourceNotFound, w1).
Proof.
  cbv zeta. unfold afterFailure. simpl.
  destruct (status _ =? 403); [reflexivity|].
  destruct (ok _); [reflexivity|].
  destruct (status _ =? 404); reflexivity.
Qed.

(** Every request of a call goes to the given URL, and a call makes at
    most as many requests as iterations are left. *)
Lemma loop_requests url retries left :
  forall i w,
    exists k : nat,
      (k <= left)%nat /\
      requests (snd (fetchWithRetry_loop network latency parseInt url retries left i w))
      = (requests w ++ repeat url k)%list.
Proof.
  induction left as [|left IH]; intros i w.
  - exists 0%nat. simpl. now rewrite app_nil_r.
  - rewrite loop_step. cbv zeta.
    destruct (_ || _).
    + destruct (IH (S i)
                  (afterFailure parseInt retries i
                     (network url (requestCount w))
                     (snd (fetch network latency url w)))) as (k & Hk & E).
      exists (S k). split; [lia|].
      rewrite E, requests_afterFailure, requests_fetch, <- app_assoc.
      reflexivity.
    + exists 1%nat. split; [lia|].
      destruct (ok _); simpl snd; apply requests_fetch.
Qed.

(** When none of the next [left] answers is a success or a 404, the
    loop runs dry: the call throws after exactly [left] requests. *)
Lemma loop_exhausted url retries left :
  forall i w,
    (forall j, (j < left)%nat ->
       let r := network url (requestCount w + j)%nat in
       ok r = false /\ status r <> 404) ->
    let result := fetchWithRetry_loop network latency parseInt url retries left i w in
    fst result = Throw (FailedAfterRetries url retries) /\
    requestCount (snd result) = (requestCount w + left)%nat.
Proof.
  induction left as [|left IH]; intros i w H; cbv zeta.
  - simpl. split; [reflexivity | lia].
  - rewrite loop_step. cbv zeta.
    destruct (H 0%nat ltac:(lia)) as [Hok H404]. cbv zeta in *.
    rewrite Nat.add_0_r in Hok, H404.
    rewrite Hok. apply Z.eqb_neq in H404. rewrite H404.
    rewrite orb_true_r.
    set (w2 := afterFailure _ _ _ _ _).
    assert (Hc : requestCount w2 = S (requestCount w)).
    { unfold w2. rewrite requestCount_requests, requests_afterFailure,
        <- requestCount_requests. apply requestCount_fetch. }
    destruct (IH (S i) w2) as [E1 E2].
    + intros j Hj. rewrite Hc.
      replace (S (requestCount w) + j)%nat
        with (requestCount w + S j)%nat by lia.
      apply H. lia.
    + split; [exact E1|]. rewrite E2, Hc. lia.
Qed.

Lemma trace_handleRateLimit (r : Response Body) w :
  exists extra : list Event,
    trace (handleRateLimit parseInt r w) = (trace w ++ extra)%list.
Proof.
  unfold handleRateLimit.
  destruct (X_RateLimit_Remaining r) as [rem|];
    [|exists []; now rewrite app_nil_r].
  destruct (X_RateLimit_Reset r) as [rst|];
    [|exists []; now rewrite app_nil_r].
  destruct (_ && _); [|exists []; now rewrite app_nil_r].
  destruct (parseInt rst) as [t|]; [|exists []; now rewrite app_nil_r].
  destruct (_ >? 0); [|exists []; now rewrite app_nil_r].
  simpl. eauto.
Qed.

Lemma trace_afterFailure retries i (r : Response Body) w1 :
  exists extra : list Event,
    trace (afterFailure parseInt retries i r w1) = (trace w1 ++ extra)%list.
Proof.
  unfold afterFailure.
  destruct (status r =? 403); [apply trace_handleRateLimit|].
  destruct (_ <? _); simpl; [eauto|].
  exists []. now rewrite app_nil_r.
Qed.

(** The events of a call extend the trace. *)
Lemma loop_trace_extends url retries left :
  forall i w,
    exists rest : list Event,
      trace (snd (fetchWithRetry_loop network latency parseInt url retries left i w))
      = (trace w ++ rest)%list.
Proof.
  induction left as [|left IH]; intros i w.
  - exists []. simpl. now rewrite app_nil_r.
  - rewrite loop_step. cbv zeta.
    destruct (_ || _).
    + set (r := network url (requestCount w)).
      destruct (trace_afterFailure retries i r (snd (fetch network latency url w)))
        as [extra E1].
      destruct (IH (S i) (afterFailure parseInt retries i r
                            (snd (fetch network latency url w)))) as [rest E2].
      rewrite E2, E1. simpl. rewrite <- !app_assoc. eauto.
    + destruct (ok _); simpl; eauto.
Qed.

(** A call with an iteration left starts with a request. *)
Lemma loop_starts_with_fetch url retries left i w :
  exists rest : list Event,
    trace (snd (fetchWithRetry_loop network latency parseInt url retries
                  (S left) i w))
    = (trace w ++ Fetch url :: rest)%list.
Proof.
  rewrite loop_step. cbv zeta.
  destruct (_ || _).
  - set (r := network url (requestCount w)).
    destruct (trace_afterFailure retries i r (snd (fetch network latency url w)))
      as [extra E1].
    destruct (loop_trace_extends url retries left (S i)
                (afterFailure parseInt retries i r
                   (snd (fetch network latency url w)))) as [rest E2].
    rewrite E2, E1. simpl. rewrite <- !app_assoc. simpl. eauto.
  - destruct (ok _); simpl; eauto.
Qed.

(** With the quota at zero and the reset ahead of the clock, the
    rate-limit handler sleeps for exactly the time left. *)
Lemma handleRateLimit_waits (r : Response Body) resetTime reset w :
  X_RateLimit_Remaining r = Some "0"%string ->
  X_RateLimit_Reset r = Some resetTime ->
  resetTime <> ""%string ->
  parseInt resetTime = Some reset ->
  reset * 1000 - now w > 0 ->
  handleRateLimit parseInt r w = setTimeout (reset * 1000 - now w) w.
Proof.
  intros Hrem Hrst Hne Hparse Hwait.
  unfold handleRateLimit. rewrite Hrem, Hrst.
  apply String.eqb_neq in Hne. rewrite Hne. simpl. rewrite Hparse.
  replace (reset * 1000 - now w >? 0) with true by (symmetry; lia).
  reflexivity.
Qed.

(** A successful first answer is returned after one request. *)
Lemma fetchWithRetry_ok url retries w :
  ok (network url (requestCount w)) = true ->
  fetchWithRetry network latency parseInt url (S retries) w
  = (Return (network url (requestCount w)), snd (fetch network latency url w)).
Proof.
  intros Hok. unfold fetchWithRetry. rewrite loop_step. cbv zeta.
  assert (H403 : (status (network url (requestCount w)) =? 403) = false).
  { unfold ok in Hok. apply andb_true_iff in Hok. lia. }
  rewrite H403, Hok. reflexivity.
Qed.

End FetchFacts.

Section FetchClaims.

Import Api.
Local Open Scope string_scope.
Local Open Scope Z_scope.

(** C1, as stated, fails: a rate-limited answer uses up one of the
    three iterations.  With the answers 403 (quota 0), 500, 500 and
    then 200, the call gives up after three requests, of which only
    two were not rate-limited, and never sees the success. *)
Lemma C1_rate_limit_consumes_attempt :
  let limited := mkResponse 403 (Some "0") (Some "2") tt in
  let failing := mkResponse 500 None None tt in
  let fine := mkResponse 200 None None tt in
  let network := fun (_ : Url) (n : nat) =>
                   nth n [limited; failing; failing] fine in
  let result :=
    fetchWithRetry network (fun _ _ => 0) parseInt_decimal "u" 3
      (mkWorld 500 []) in
  fst result = Throw (FailedAfterRetries "u" 3) /\
  trace (snd result)
    = [Fetch "u"; Sleep 1500; Fetch "u"; Sleep 2000; Fetch "u"] /\
  List.length
    (filter (fun n => negb (status (network "u" n) =? 403))
            (seq 0 (requestCount (snd result)))) = 2%nat /\
  ok (network "u" (requestCount (snd result))) = true.
Proof. vm_compute. repeat split. Qed.

(** C1, amended: for every request URL and every sequence of
    responses, [fetchWithRetry] with the budget of 3 makes at most 3
    requests in all, each for the same URL; when an iteration other
    than the last receives an HTTP 403 with a zero remaining-quota
    header and a reset timestamp ahead of the clock, it sleeps for
    [reset * 1000 - now], with [now] read when the answer arrives, that
    is until the reset timestamp, and then repeats the same request; this rate-limit retry counts against the
    budget like any other failed attempt: after 3 answers that are
    neither a success nor a 404, rate-limited ones included, the call
    fails with ExhaustedRetries. *)
Theorem C1_rate_limit_retry_within_budget
    {Body : Type} (network : Url -> nat -> Response Body)
    (latency : Url -> nat -> Z)
    (parseInt : string -> option Z) (url : Url) :
  (forall w : World,
      exists k : nat,
        (k <= 3)%nat /\
        requests (snd (fetchWithRetry network latency parseInt url 3 w))
        = (requests w ++ repeat url k)%list) /\
  (forall (retries left i : nat) (w : World)
          (resetTime : string) (reset : Z),
      let answer := network url (requestCount w) in
      let arrival := now w + latency url (requestCount w) in
      status answer = 403 ->
      X_RateLimit_Remaining answer = Some "0" ->
      X_RateLimit_Reset answer = Some resetTime ->
      resetTime <> "" ->
      parseInt resetTime = Some reset ->
      reset * 1000 - arrival > 0 ->
      exists rest : list Event,
        trace (snd (fetchWithRetry_loop network latency parseInt url retries
                      (S (S left)) i w))
        = (trace w ++ Fetch url :: Sleep (reset * 1000 - arrival)
                   :: Fetch url :: rest)%list) /\
  (forall w : World,
      (forall j : nat, (j < 3)%nat ->
          let r := network url (requestCount w + j)%nat in
          ok r = false /\ status r <> 404) ->
      let result := fetchWithRetry network latency parseInt url 3 w in
      fst result = Throw (FailedAfterRetries url 3) /\
      requestCount (snd result) = (requestCount w + 3)%nat).
Proof.
  split; [|split].
  - intros w. apply loop_requests.
  - intros retries left i w resetTime reset answer arrival
           H403 Hrem Hrst Hne Hparse Hwait.
    unfold answer, arrival in *. clear answer arrival.
    rewrite loop_step. cbv zeta.
    rewrite H403. simpl orb. cbv iota.
    unfold afterFailure. rewrite H403. simpl Z.eqb. cbv iota.
    rewrite (handleRateLimit_waits parseInt _ resetTime reset)
      by assumption.
    destruct (loop_starts_with_fetch network latency parseInt url retries left (S i)
                (setTimeout (reset * 1000 - now (snd (fetch network latency url w)))
                   (snd (fetch network latency url w)))) as [rest E].
    rewrite E. simpl. rewrite <- !app_assoc. simpl. eauto.
  - intros w H. apply (loop_exhausted network latency parseInt url 3 3 0%nat w H).
Qed.

Lemma C1_rate_limit_retry_within_budget_witness :
  let limited := mkResponse 403 (Some "0") (Some "2") tt in
  let network := fun (_ : Url) (_ : nat) => limited in
  let w := mkWorld 500 [] in
  let result := fetchWithRetry network (fun _ _ => 0) parseInt_decimal "u" 3 w in
  (exists rest : list Event,
      trace (snd result)
      = Fetch "u" :: Sleep 1500 :: Fetch "u" :: rest) /\
  fst result = Throw (FailedAfterRetries "u" 3) /\
  requestCount (snd result) = 3%nat.
Proof.
  cbv zeta.
  destruct (C1_rate_limit_retry_within_budget
              (fun (_ : Url) (_ : nat) =>
                 mkResponse 403 (Some "0") (Some "2") tt)
              (fun _ _ => 0) parseInt_decimal "u")
    as (_ & Hwait & Hfail).
  split.
  - apply (Hwait 3%nat 1%nat 0%nat (mkWorld 500 []) "2" 2);
      try reflexivity. discriminate.
  - apply Hfail. intros j _. split; [reflexivity | discriminate].
Defined.

End FetchClaims.

(** ** Pagination walker *)

Section WalkerFacts.

Import Api.
Local Open Scope string_scope.
Local Open Scope Z_scope.

Variable network : Url -> nat -> Response (list GitHubRepo).
Variable latency : Url -> nat -> Z.
Variable parseInt : string -> option Z.
Variable username : string.

Lemma pageUrls_S page k :
  pageUrls username page (S k) = userReposUrl username page :: pageUrls username (page + 1) k.
Proof.
  unfold pageUrls. simpl. rewrite Z.add_0_r. f_equal.
  rewrite <- seq_shift, map_map. apply map_ext.
  intros i. f_equal. lia.
Qed.

(** The walker on full pages followed by one short (possibly empty)
    page: one request per page, the batches in order. *)
Lemma walker_pages (full : list (list GitHubRepo)) (last : list GitHubRepo) :
  forall (fuel : nat) (repos : list GitHubRepo) (page : Z) (w : World),
    (forall (i : nat) (p : list GitHubRepo),
        nth_error (full ++ [last]) i = Some p ->
        let r := network (userReposUrl username (page + Z.of_nat i))
                         (requestCount w + i)%nat in
        ok r = true /\ json r = p) ->
    (forall p, In p full -> Z.of_nat (List.length p) = perPage) ->
    Z.of_nat (List.length last) < perPage ->
    (List.length full < fuel)%nat ->
    exists w' : World,
      fetchUserRepos_loop network latency parseInt fuel username repos page w
      = Some (Return (repos ++ List.concat full ++ last)%list, w') /\
      requests w'
      = (requests w ++ pageUrls username page (S (List.length full)))%list.
Proof.
  induction full as [|p full IH]; intros fuel repos page w Hnet Hfull Hlast Hfuel.
  - destruct fuel as [|fuel]; [simpl in Hfuel; lia|].
    destruct (Hnet 0%nat last eq_refl) as [Hok Hjson]. cbv zeta in *.
    rewrite Z.add_0_r, Nat.add_0_r in Hok, Hjson.
    simpl fetchUserRepos_loop.
    rewrite (fetchWithRetry_ok network latency parseInt _ 2 w Hok), Hjson.
    replace (Z.of_nat (List.length last) <? perPage) with true
      by (symmetry; lia).
    eexists. split.
    + destruct (Z.of_nat (List.length last) =? 0) eqn:E.
      * apply Z.eqb_eq in E.
        destruct last; [|simpl in E; lia].
        simpl. rewrite app_nil_r. reflexivity.
      * reflexivity.
    + rewrite pageUrls_S. unfold pageUrls. simpl.
      apply (requests_fetch network latency).
  - destruct fuel as [|fuel]; [simpl in Hfuel; lia|].
    destruct (Hnet 0%nat p eq_refl) as [Hok Hjson]. cbv zeta in *.
    rewrite Z.add_0_r, Nat.add_0_r in Hok, Hjson.
    assert (Hp : Z.of_nat (List.length p) = perPage)
      by (apply Hfull; now left).
    simpl fetchUserRepos_loop.
    rewrite (fetchWithRetry_ok network latency parseInt _ 2 w Hok), Hjson, Hp.
    change (perPage =? 0) with false. change (perPage <? perPage) with false.
    cbv iota.
    set (w1 := snd (fetch network latency (userReposUrl username page) w)).
    assert (Hc : requestCount w1 = S (requestCount w)).
    { apply (requestCount_fetch network latency (userReposUrl username page) w). }
    destruct (IH fuel (repos ++ p)%list (page + 1) w1) as (w' & E & Hreq).
    + intros i q Hq. rewrite Hc.
      replace (page + 1 + Z.of_nat i) with (page + Z.of_nat (S i)) by lia.
      replace (S (requestCount w) + i)%nat
        with (requestCount w + S i)%nat by lia.
      apply Hnet. exact Hq.
    + intros q Hq. apply Hfull. now right.
    + exact Hlast.
    + simpl in Hfuel. lia.
    + exists w'. split.
      * rewrite E. simpl List.concat. now rewrite <- !app_assoc.
      * rewrite Hreq. unfold w1.
        rewrite (requests_fetch network latency), (pageUrls_S page),
          <- app_assoc.
        reflexivity.
Qed.

End WalkerFacts.

Section WalkerClaims.

Import Api.
Local Open Scope string_scope.
Local Open Scope Z_scope.

Lemma walker_from_page_1
    (network : Url -> nat -> Response (list GitHubRepo))
    (latency : Url -> nat -> Z)
    (parseInt : string -> option Z) (username : string) (w : World)
    (full : list (list GitHubRepo)) (last : list GitHubRepo) (fuel : nat) :
  serves network username w (full ++ [last]) ->
  (forall p, In p full -> Z.of_nat (List.length p) = perPage) ->
  Z.of_nat (List.length last) < perPage ->
  (List.length full < fuel)%nat ->
  exists w' : World,
    fetchUserRepos network latency parseInt fuel username w
    = Some (Return (List.concat full ++ last)%list, w') /\
    requests w'
    = (requests w ++ pageUrls username 1 (S (List.length full)))%list /\
    requestCount w' = (requestCount w + S (List.length full))%nat.
Proof.
  intros Hserves Hfull Hlast Hfuel.
  destruct (walker_pages network latency parseInt username full last fuel [] 1 w)
    as (w' & E & Hreq); try assumption.
  - intros i p Hp. rewrite Z.add_comm. apply Hserves. exact Hp.
  - exists w'. split; [exact E|]. split; [exact Hreq|].
    rewrite !requestCount_requests, Hreq, length_app.
    unfold pageUrls. now rewrite length_map, length_seq.
Qed.

(** C6: the pagination walker ([fetchUserRepos], page size 100) starts
    at page 1, stops after an empty page or after the first page shorter
    than the page size, and returns the concatenation of all pages in
    order; for pages of sizes 100, 100, 37 it returns exactly 237
    records after three requests and makes no fourth one; for pages of
    sizes 100, 100, 100, 0 it stops after the empty fourth page. *)
Theorem C6_pagination_walker
    (network : Url -> nat -> Response (list GitHubRepo))
    (latency : Url -> nat -> Z)
    (parseInt : string -> option Z) (username : string) (w : World) :
  (forall (full : list (list GitHubRepo)) (last : list GitHubRepo)
          (fuel : nat),
      serves network username w (full ++ [last]) ->
      (forall p, In p full -> Z.of_nat (List.length p) = 100) ->
      Z.of_nat (List.length last) < 100 ->
      (List.length full < fuel)%nat ->
      exists w' : World,
        fetchUserRepos network latency parseInt fuel username w
        = Some (Return (List.concat full ++ last)%list, w') /\
        requests w'
        = (requests w ++ pageUrls username 1 (S (List.length full)))%list)
  /\
  (forall (p1 p2 p3 : list GitHubRepo) (fuel : nat),
      List.length p1 = 100%nat -> List.length p2 = 100%nat ->
      List.length p3 = 37%nat ->
      serves network username w [p1; p2; p3] ->
      (3 <= fuel)%nat ->
      exists w' : World,
        fetchUserRepos network latency parseInt fuel username w
        = Some (Return (p1 ++ p2 ++ p3)%list, w') /\
        List.length (p1 ++ p2 ++ p3) = 237%nat /\
        requestCount w' = (requestCount w + 3)%nat)
  /\
  (forall (p1 p2 p3 : list GitHubRepo) (fuel : nat),
      List.length p1 = 100%nat -> List.length p2 = 100%nat ->
      List.length p3 = 100%nat ->
      serves network username w [p1; p2; p3; []] ->
      (4 <= fuel)%nat ->
      exists w' : World,
        fetchUserRepos network latency parseInt fuel username w
        = Some (Return (p1 ++ p2 ++ p3)%list, w') /\
        requestCount w' = (requestCount w + 4)%nat).
Proof.
  split; [|split].
  - intros full last fuel Hserves Hfull Hlast Hfuel.
    destruct (walker_from_page_1 network latency parseInt username w full last fuel)
      as (w' & E & Hreq & _); try assumption.
    exists w'. split; assumption.
  - intros p1 p2 p3 fuel H1 H2 H3 Hserves Hfuel.
    destruct (walker_from_page_1 network latency parseInt username w
                [p1; p2] p3 fuel) as (w' & E & _ & Hc).
    + exact Hserves.
    + intros p [<-|[<-|[]]]; unfold perPage; lia.
    + unfold perPage. lia.
    + simpl. lia.
    + assert (Hcat : (List.concat [p1; p2] ++ p3 = p1 ++ p2 ++ p3)%list)
        by (simpl; now rewrite app_nil_r, <- app_assoc).
      rewrite Hcat in E.
      exists w'. split; [exact E|]. split; [|exact Hc].
      rewrite !length_app. lia.
  - intros p1 p2 p3 fuel H1 H2 H3 Hserves Hfuel.
    destruct (walker_from_page_1 network latency parseInt username w
                [p1; p2; p3] [] fuel) as (w' & E & _ & Hc).
    + exact Hserves.
    + intros p [<-|[<-|[<-|[]]]]; unfold perPage; lia.
    + unfold perPage. simpl. lia.
    + simpl. lia.
    + assert (Hcat : (List.concat [p1; p2; p3] ++ [] = p1 ++ p2 ++ p3)%list)
        by (simpl; now rewrite !app_nil_r).
      rewrite Hcat in E.
      exists w'. split; [exact E | exact Hc].
Qed.

End WalkerClaims.

Section WalkerWitness.

Import Api.
Local Open Scope string_scope.
Local Open Scope nat_scope.

Lemma C6_pagination_walker_witness :
  let repo := helloRepo in
  let page n := repeat repo n in
  let mock pages :=
    fun (_ : Url) (n : nat) => mkResponse 200%Z None None (nth n pages []) in
  let w := mkWorld 0%Z [] in
  (exists w' : World,
      fetchUserRepos (mock [page 100; page 100; page 37])
        (fun _ _ => 25%Z) parseInt_decimal 3 "octocat" w
      = Some (Return (page 100 ++ page 100 ++ page 37)%list, w') /\
      List.length (page 100 ++ page 100 ++ page 37) = 237 /\
      requestCount w' = 3) /\
  (exists w' : World,
      fetchUserRepos (mock [page 100; page 100; page 100; []])
        (fun _ _ => 25%Z) parseInt_decimal 4 "octocat" w
      = Some (Return (page 100 ++ page 100 ++ page 100)%list, w') /\
      requestCount w' = 4).
Proof.
  cbv zeta. split.
  - apply (C6_pagination_walker
             (fun (_ : Url) (n : nat) =>
                mkResponse 200%Z None None
                  (nth n [repeat helloRepo 100;
                          repeat helloRepo 100;
                          repeat helloRepo 37]
                       []))
             (fun _ _ => 25%Z) parseInt_decimal "octocat" (mkWorld 0%Z []));
      try reflexivity.
    intros [|[|[|[|i]]]] p H; try discriminate H;
        injection H as <-; split; reflexivity.
  - apply (C6_pagination_walker
             (fun (_ : Url) (n : nat) =>
                mkResponse 200%Z None None
                  (nth n [repeat helloRepo 100;
                          repeat helloRepo 100;
                          repeat helloRepo 100;
                          []]
                       []))
             (fun _ _ => 25%Z) parseInt_decimal "octocat" (mkWorld 0%Z []));
      try reflexivity.
    intros [|[|[|[|[|i]]]]] p H; try discriminate H;
        injection H as <-; split; reflexivity.
Defined.

End WalkerWitness.

(** ** Timeline aggregator *)

Section MapFacts.

Import CommitStats.
Local Open Scope Z_scope.

Context {V : Type}.
Implicit Types (m : JsMap V) (k : Z) (v : V).

Lemma Map_has_In k m : Map_has k m = true <-> In k (map fst m).
Proof.
  induction m as [|[k0 v0] m IH]; simpl.
  - split; [discriminate | contradiction].
  - destruct (k0 =? k) eqn:E.
    + apply Z.eqb_eq in E. split; auto.
    + apply Z.eqb_neq in E. rewrite IH. split; [auto|].
      intros [H|H]; [contradiction | assumption].
Qed.

Lemma Map_get_In k v m : Map_get k m = Some v -> In (k, v) m.
Proof.
  induction m as [|[k0 v0] m IH]; simpl; [discriminate|].
  destruct (k0 =? k) eqn:E.
  - apply Z.eqb_eq in E. intros [= <-]. left. now subst.
  - auto.
Qed.

Lemma Map_get_has k m :
  Map_has k m = true -> exists v, Map_get k m = Some v.
Proof.
  induction m as [|[k0 v0] m IH]; simpl; [discriminate|].
  destruct (k0 =? k); eauto.
Qed.

Lemma Map_get_set_same k v m : Map_get k (Map_set k v m) = Some v.
Proof.
  induction m as [|[k0 v0] m IH]; simpl.
  - now rewrite Z.eqb_refl.
  - destruct (k0 =? k) eqn:E; simpl.
    + now rewrite Z.eqb_refl.
    + now rewrite E.
Qed.

Lemma Map_set_set k v v' m : Map_set k v' (Map_set k v m) = Map_set k v' m.
Proof.
  induction m as [|[k0 v0] m IH]; simpl.
  - now rewrite Z.eqb_refl.
  - destruct (k0 =? k) eqn:E; simpl.
    + now rewrite Z.eqb_refl.
    + now rewrite E, IH.
Qed.

Lemma Map_set_keys k v m :
  map fst (Map_set k v m)
  = if Map_has k m then map fst m else map fst m ++ [k].
Proof.
  induction m as [|[k0 v0] m IH]; simpl; [reflexivity|].
  destruct (k0 =? k) eqn:E; simpl.
  - apply Z.eqb_eq in E. now subst.
  - rewrite IH. now destruct (Map_has k m).
Qed.

Lemma Map_set_In k v m k' v' :
  NoDup (map fst m) ->
  In (k', v') (Map_set k v m) ->
  (k' = k /\ v' = v) \/ (k' <> k /\ In (k', v') m).
Proof.
  induction m as [|[k0 v0] m IH]; simpl; intros Hnd H.
  - destruct H as [[= <- <-]|[]]. now left.
  - inversion Hnd as [|? ? Hnotin Hnd']; subst.
    destruct (k0 =? k) eqn:E.
    + apply Z.eqb_eq in E. subst k0.
      destruct H as [[= <- <-]|H]; [now left|].
      right. split; [|now right].
      intros ->. apply Hnotin.
      change k with (fst (k, v')). now apply in_map.
    + apply Z.eqb_neq in E.
      destruct H as [[= <- <-]|H].
      * right. split; [assumption | now left].
      * destruct (IH Hnd' H) as [?|[? ?]]; [now left|].
        right. split; [assumption | now right].
Qed.

Lemma Map_set_keys_NoDup k v m :
  NoDup (map fst m) -> NoDup (map fst (Map_set k v m)).
Proof.
  intros Hnd. rewrite Map_set_keys.
  destruct (Map_has k m) eqn:E; [assumption|].
  apply NoDup_rev in Hnd.
  rewrite <- (rev_involutive (map fst m ++ [k])), rev_app_distr.
  apply NoDup_rev. simpl. constructor; [|assumption].
  rewrite <- in_rev. intros Hin. apply Map_has_In in Hin. congruence.
Qed.

End MapFacts.

Section AggregatorFacts.

Import JS CommitStats.
Local Open Scope Z_scope.

Implicit Types (es : list (string * Api.CommitActivity))
               (e : string * Api.CommitActivity).

Lemma entriesOfWeek_snoc_same w es e :
  weekKey e = w -> entriesOfWeek w (es ++ [e]) = entriesOfWeek w es ++ [e].
Proof.
  intros H. unfold entriesOfWeek. rewrite filter_app. simpl.
  now rewrite H, Z.eqb_refl.
Qed.

Lemma entriesOfWeek_snoc_other w es e :
  weekKey e <> w -> entriesOfWeek w (es ++ [e]) = entriesOfWeek w es.
Proof.
  intros H. unfold entriesOfWeek. rewrite filter_app. simpl.
  apply Z.eqb_neq in H. rewrite H. apply app_nil_r.
Qed.

Lemma entriesOfWeek_absent w es :
  (forall e, In e es -> weekKey e <> w) -> entriesOfWeek w es = [].
Proof.
  induction es as [|e es IH]; intros H; [reflexivity|].
  unfold entriesOfWeek in *. simpl.
  destruct (weekKey e =? w) eqn:E.
  - apply Z.eqb_eq in E. exfalso. apply (H e); [now left | assumption].
  - apply IH. intros e' He'. apply H. now right.
Qed.

Lemma entriesOfWeek_In w es e :
  In e (entriesOfWeek w es) <-> In e es /\ weekKey e = w.
Proof.
  unfold entriesOfWeek. rewrite filter_In. now rewrite Z.eqb_eq.
Qed.

Lemma summary_snoc_other w es e :
  weekKey e <> w -> summary w (es ++ [e]) = summary w es.
Proof.
  intros H. unfold summary. now rewrite entriesOfWeek_snoc_other.
Qed.

Lemma summary_snoc_same w es e :
  weekKey e = w ->
  summary w (es ++ [e])
  = {| week := w;
       totalCommits := totalCommits (summary w es) + Api.total (snd e);
       repoCount :=
         Z.of_nat (List.length (repos (summary w es) ++ [contribution e]));
       repos := repos (summary w es) ++ [contribution e] |}.
Proof.
  intros H. unfold summary. rewrite entriesOfWeek_snoc_same by assumption.
  simpl. rewrite map_app, sumZ_app. simpl. reflexivity.
Qed.

(** One pass of the inner callback writes the summary of its week. *)
Lemma addActivity_sets name (a : Api.CommitActivity) weekMap es :
  weekMapOf weekMap es ->
  addActivity name weekMap a
  = Map_set (weekKey (name, a)) (summary (weekKey (name, a)) (es ++ [(name, a)]))
            weekMap.
Proof.
  intros (Hnd & Hval & Hkeys).
  unfold addActivity.
  change (Api.week a * 1000) with (weekKey (name, a)).
  set (k := weekKey (name, a)).
  rewrite (summary_snoc_same k es (name, a) eq_refl).
  destruct (Map_has k weekMap) eqn:Hhas; simpl negb; cbv iota.
  - destruct (Map_get_has k weekMap Hhas) as [v0 Hget].
    rewrite Hget.
    destruct (Hval k v0 (Map_get_In k v0 weekMap Hget)) as [-> _].
    reflexivity.
  - rewrite Map_get_set_same, Map_set_set.
    assert (Hnone : entriesOfWeek k es = []).
    { apply entriesOfWeek_absent. intros e He Hk.
      apply Hkeys in He. rewrite Hk in He.
      apply Map_has_In in He. congruence. }
    unfold summary. rewrite Hnone. reflexivity.
Qed.

Lemma addActivity_weekMapOf name (a : Api.CommitActivity) weekMap es :
  weekMapOf weekMap es ->
  weekMapOf (addActivity name weekMap a) (es ++ [(name, a)]).
Proof.
  intros Hinv. rewrite (addActivity_sets name a weekMap es Hinv).
  destruct Hinv as (Hnd & Hval & Hkeys).
  set (e := (name, a)). set (k := weekKey e).
  split; [|split].
  - now apply Map_set_keys_NoDup.
  - intros k' v' Hin.
    destruct (Map_set_In k _ weekMap k' v' Hnd Hin) as [[-> ->]|[Hne Hin']].
    + split; [reflexivity|]. exists e. split; [|reflexivity].
      apply in_or_app. right. now left.
    + destruct (Hval k' v' Hin') as [-> (e' & He' & Hk')].
      split.
      * symmetry. apply summary_snoc_other. fold k. congruence.
      * exists e'. split; [|assumption]. apply in_or_app. now left.
  - intros e' He'. rewrite Map_set_keys.
    apply in_app_or in He'. destruct He' as [He'|[<-|[]]].
    + apply Hkeys in He'.
      destruct (Map_has k weekMap); [assumption|].
      apply in_or_app. now left.
    + fold k. destruct (Map_has k weekMap) eqn:Hhas.
      * now apply Map_has_In.
      * apply in_or_app. right. now left.
Qed.

Lemma inner_forEach_weekMapOf name (acts : list Api.CommitActivity) :
  forall weekMap es,
    weekMapOf weekMap es ->
    weekMapOf (fold_left (addActivity name) acts weekMap)
              (es ++ map (fun a => (name, a)) acts).
Proof.
  induction acts as [|a acts IH]; intros weekMap es Hinv; simpl.
  - now rewrite app_nil_r.
  - replace (es ++ (name, a) :: map (fun a0 => (name, a0)) acts)%list
      with ((es ++ [(name, a)]) ++ map (fun a0 => (name, a0)) acts)%list
      by (now rewrite <- app_assoc).
    apply IH. now apply addActivity_weekMapOf.
Qed.

Lemma outer_forEach_weekMapOf (repoCommitData : list RepoCommitData) :
  forall weekMap es,
    weekMapOf weekMap es ->
    weekMapOf
      (fold_left
         (fun weekMap d =>
            fold_left (addActivity (data_repoName d)) (activities d) weekMap)
         repoCommitData weekMap)
      (es ++ entries repoCommitData).
Proof.
  induction repoCommitData as [|d ds IH]; intros weekMap es Hinv; simpl.
  - now rewrite app_nil_r.
  - unfold entries in *. simpl. rewrite app_assoc.
    apply IH. now apply inner_forEach_weekMapOf.
Qed.

End AggregatorFacts.

Section SortFacts.

Import CommitStats.
Local Open Scope Z_scope.

Context {A : Type}.
Variable key : A -> Z.

Lemma sort_insert_perm (x : A) (l : list A) :
  Permutation (sort_insert (fun a b => key a - key b) x l) (x :: l).
Proof.
  induction l as [|y l IH]; simpl.
  - apply Permutation_refl.
  - destruct (key x - key y <=? 0).
    + apply Permutation_refl.
    + apply perm_trans with (y :: x :: l).
      * now apply perm_skip.
      * apply perm_swap.
Qed.

Lemma Array_sort_perm (l : list A) : Permutation (Array_sort (fun a b => key a - key b) l) l.
Proof.
  induction l as [|x l IH]; simpl.
  - apply perm_nil.
  - apply perm_trans with (x :: Array_sort (fun a b => key a - key b) l).
    + apply sort_insert_perm.
    + now apply perm_skip.
Qed.

Lemma sort_insert_sorted (x : A) (l : list A) :
  StronglySorted (fun a b => key a <= key b) l ->
  StronglySorted (fun a b => key a <= key b) (sort_insert (fun a b => key a - key b) x l).
Proof.
  induction l as [|y l IH]; intros Hs; simpl.
  - constructor; constructor.
  - inversion Hs as [|? ? Hs' Hall]; subst.
    destruct (key x - key y <=? 0) eqn:E.
    + constructor; [assumption|].
      constructor; [lia|].
      eapply Forall_impl; [|exact Hall]. simpl. intros; lia.
    + constructor; [now apply IH|].
      rewrite Forall_forall in *. intros z Hz.
      apply (Permutation_in _ (sort_insert_perm x l)) in Hz.
      destruct Hz as [<-|Hz]; [lia | now apply Hall].
Qed.

Lemma Array_sort_sorted (l : list A) :
  StronglySorted (fun a b => key a <= key b) (Array_sort (fun a b => key a - key b) l).
Proof.
  induction l as [|x l IH]; simpl.
  - constructor.
  - now apply sort_insert_sorted.
Qed.

(** Sorted with distinct keys is strictly ascending. *)
Lemma sorted_distinct_strict (l : list A) :
  StronglySorted (fun a b => key a <= key b) l ->
  NoDup (map key l) ->
  StronglySorted (fun a b => key a < key b) l.
Proof.
  induction l as [|x l IH]; intros Hs Hnd.
  - constructor.
  - inversion Hs as [|? ? Hs' Hall]; subst.
    simpl in Hnd. inversion Hnd as [|? ? Hnotin Hnd']; subst.
    constructor; [now apply IH|].
    rewrite Forall_forall in *. intros z Hz.
    assert (key x <> key z).
    { intros Heq. apply Hnotin. rewrite Heq. now apply in_map. }
    specialize (Hall z Hz). lia.
Qed.

End SortFacts.

Section AggregatorClaims.

Import JS CommitStats.
Local Open Scope Z_scope.

(** The weeks of the values of a week map are its keys. *)
Lemma weekMapOf_weeks weekMap es :
  weekMapOf weekMap es -> map week (Map_values weekMap) = map fst weekMap.
Proof.
  intros (_ & Hval & _). unfold Map_values. rewrite map_map.
  apply map_ext_in. intros [k v] Hin.
  destruct (Hval k v Hin) as [-> _]. reflexivity.
Qed.

(** C7: for every list of per-repository weekly series,
    [aggregateCommitActivity] groups the entries by week key (the week
    timestamp times 1000), sums the per-repository totals of a week
    into its totalCommits, records the repositories that contributed to
    the week (in input order, with their commits, repoCount being their
    number), and returns the timeline sorted ascending by week, one
    entry for each week of the input. *)
Theorem C7_aggregate_commit_activity (repoCommitData : list RepoCommitData) :
  let es := entries repoCommitData in
  let timeline := aggregateCommitActivity repoCommitData in
  StronglySorted (fun a b => week a < week b) timeline /\
  (forall w : Z,
      In w (map week timeline) <-> exists e, In e es /\ weekKey e = w) /\
  (forall d : CommitTimelineData,
      In d timeline ->
      totalCommits d
      = sumZ (fun e => Api.total (snd e)) (entriesOfWeek (week d) es) /\
      repos d = map contribution (entriesOfWeek (week d) es) /\
      repoCount d = Z.of_nat (List.length (repos d))).
Proof.
  unfold aggregateCommitActivity. cbv zeta.
  set (weekMap := fold_left _ repoCommitData _).
  assert (Hinv : weekMapOf weekMap (entries repoCommitData)).
  { apply (outer_forEach_weekMapOf repoCommitData [] []).
    split; [constructor|]. split; [intros ? ? []|intros ? []]. }
  pose proof (Array_sort_perm week (Map_values weekMap)) as Hperm.
  pose proof (weekMapOf_weeks _ _ Hinv) as Hweeks.
  destruct Hinv as (Hnd & Hval & Hkeys).
  assert (Hmem : forall d, In d (Array_sort (fun a b => week a - week b)
                                    (Map_values weekMap)) ->
                           exists k, In (k, d) weekMap /\
                                     d = summary k (entries repoCommitData)).
  { intros d Hd. apply (Permutation_in _ Hperm) in Hd.
    unfold Map_values in Hd. apply in_map_iff in Hd.
    destruct Hd as ([k v] & <- & Hin). simpl. exists k.
    destruct (Hval k v Hin) as [Hv _]. split; [assumption|exact Hv]. }
  split; [|split].
  - apply sorted_distinct_strict; [apply Array_sort_sorted|].
    apply (Permutation_NoDup (l := map week (Map_values weekMap))).
    + apply Permutation_map, Permutation_sym, Hperm.
    + now rewrite Hweeks.
  - intros w. split.
    + intros Hw. apply in_map_iff in Hw. destruct Hw as (d & <- & Hd).
      destruct (Hmem d Hd) as (k & Hin & ->).
      destruct (Hval _ _ Hin) as [_ He]. exact He.
    + intros (e & He & <-).
      apply (Permutation_in (l := map week (Map_values weekMap))).
      * apply Permutation_map, Permutation_sym, Hperm.
      * rewrite Hweeks. now apply Hkeys.
  - intros d Hd. destruct (Hmem d Hd) as (k & _ & ->).
    simpl. repeat split.
Qed.

Lemma C7_aggregate_commit_activity_witness :
  let wk w t := Api.mkCommitActivity w t [] in
  let input :=
    [mkRepoCommitData "alpha" [wk 3 1; wk 1 2; wk 2 5];
     mkRepoCommitData "beta" [wk 1 7; wk 3 4]] in
  let first :=
    {| week := 1000; totalCommits := 9; repoCount := 2;
       repos := [mkRepoCommits "alpha" 2; mkRepoCommits "beta" 7] |} in
  map week (aggregateCommitActivity input) = [1000; 2000; 3000] /\
  In first (aggregateCommitActivity input) /\
  totalCommits first
  = sumZ (fun e => Api.total (snd e)) (entriesOfWeek 1000 (entries input)) /\
  repos first = map contribution (entriesOfWeek 1000 (entries input)).
Proof.
  cbv zeta.
  destruct (C7_aggregate_commit_activity
              [mkRepoCommitData "alpha"
                 [Api.mkCommitActivity 3 1 []; Api.mkCommitActivity 1 2 [];
                  Api.mkCommitActivity 2 5 []];
               mkRepoCommitData "beta"
                 [Api.mkCommitActivity 1 7 []; Api.mkCommitActivity 3 4 []]])
    as (_ & _ & Hentry).
  assert (Hin : In {| week := 1000; totalCommits := 9; repoCount := 2;
                      repos := [mkRepoCommits "alpha" 2;
                                mkRepoCommits "beta" 7] |}
                   (aggregateCommitActivity
                      [mkRepoCommitData "alpha"
                         [Api.mkCommitActivity 3 1 [];
                          Api.mkCommitActivity 1 2 [];
                          Api.mkCommitActivity 2 5 []];
                       mkRepoCommitData "beta"
                         [Api.mkCommitActivity 1 7 [];
                          Api.mkCommitActivity 3 4 []]]))
    by (vm_compute; left; reflexivity).
  split; [vm_compute; reflexivity|]. split; [exact Hin|].
  destruct (Hentry _ Hin) as (Htotal & Hrepos & _).
  split; [exact Htotal | exact Hrepos].
Defined.

End AggregatorClaims.

(** ** Stress score *)

Section StressFacts.

Import JS Stress.
Local Open Scope string_scope.

Lemma toLowerCase_app (a b : string) :
  toLowerCase (a ++ b) = toLowerCase a ++ toLowerCase b.
Proof.
  induction a as [|c a IH]; simpl; [reflexivity | now rewrite IH].
Qed.

Lemma prefix_app (k rest : string) : String.prefix k (k ++ rest) = true.
Proof.
  induction k as [|c k IH]; simpl.
  - now destruct rest.
  - destruct (ascii_dec c c); [assumption | contradiction].
Qed.

Lemma includes_prefix (s k : string) :
  String.prefix k s = true -> includes s k = true.
Proof. intros H. destruct s; cbn [includes]; rewrite H; reflexivity. Qed.

(** A string includes each of its substrings. *)
Lemma includes_app (pre k post : string) :
  includes (pre ++ k ++ post) k = true.
Proof.
  induction pre as [|c pre IH].
  - change ("" ++ k ++ post) with (k ++ post).
    apply includes_prefix, prefix_app.
  - cbn [append includes]. rewrite IH. apply orb_true_r.
Qed.

Lemma hasMessageStress_keyword (message keyword : string) :
  In keyword STRESS_KEYWORDS ->
  includes message keyword = true ->
  hasMessageStress message = true.
Proof.
  intros Hin Hinc. unfold hasMessageStress.
  apply existsb_exists. exists keyword. now split.
Qed.

(** A message that contains "urgent hotfix" trips the keyword check. *)
Lemma urgent_hotfix_stress (pre post : string) :
  hasMessageStress (toLowerCase (pre ++ "urgent hotfix" ++ post)) = true.
Proof.
  apply (hasMessageStress_keyword _ "urgent").
  - simpl. tauto.
  - rewrite !toLowerCase_app.
    change (toLowerCase "urgent hotfix" ++ toLowerCase post)
      with ("urgent" ++ (" hotfix" ++ toLowerCase post)).
    apply includes_app.
Qed.

Lemma calculateStressScore_nth (commits : list CommitData) (i : nat)
    (c : CommitData) :
  nth_error commits i = Some c ->
  nth_error (calculateStressScore commits) i
  = Some (scoreCommit (averageFiles commits) c).
Proof.
  intros H. unfold calculateStressScore.
  destruct commits as [|c0 cs]; [destruct i; discriminate|].
  now apply map_nth_error.
Qed.

End StressFacts.

Section StressClaims.

Import JS Stress.
Local Open Scope string_scope.
Local Open Scope Q_scope.

(** C9: in every commit set whose mean changed-file count is 5, a
    commit at hour 2 that touches 15 files and whose message contains
    "urgent hotfix" trips all three indicators: the stress keyword
    (+0.4), the file count above twice the mean (+0.35) and the night
    window with the file count above the mean (+0.25); its stress score
    is 0.4 + 0.35 + 0.25 clamped at 1.0, which is exactly 1. *)
Theorem C9_urgent_hotfix_at_night
    (commits : list CommitData) (i : nat) (c : CommitData) :
  nth_error commits i = Some c ->
  averageFiles commits == 5 ->
  hour c = 2%Z ->
  filesCount c = 15%Z ->
  (exists pre post : string, message c = (pre ++ "urgent hotfix" ++ post)%string) ->
  exists c' : CommitData,
    nth_error (calculateStressScore commits) i = Some c' /\
    message c' = message c /\ hour c' = hour c /\
    filesCount c' = filesCount c /\
    hasMessageStress (toLowerCase (message c)) = true /\
    isFileSpike (averageFiles commits) c = true /\
    isNightAggressive (averageFiles commits) c = true /\
    stressScore c' = Math_min (0 + 0.4 + 0.35 + 0.25) 1.0 /\
    stressScore c' == 1.
Proof.
  intros Hnth Havg Hhour Hfiles (pre & post & Hmsg).
  exists (scoreCommit (averageFiles commits) c).
  assert (H1 : hasMessageStress (toLowerCase (message c)) = true)
    by (rewrite Hmsg; apply urgent_hotfix_stress).
  assert (H2 : isFileSpike (averageFiles commits) c = true).
  { unfold isFileSpike. apply gt_true. rewrite Hfiles, Havg. reflexivity. }
  assert (H3 : isNightAggressive (averageFiles commits) c = true).
  { unfold isNightAggressive. rewrite Hhour. simpl.
    apply gt_true. rewrite Hfiles, Havg. reflexivity. }
  split; [now apply calculateStressScore_nth|].
  repeat (split; [first [reflexivity | assumption]|]).
  unfold scoreCommit. simpl stressScore. rewrite H1, H2, H3.
  split; reflexivity.
Qed.

End StressClaims.

Section StressWitness.

Import JS Stress.
Local Open Scope string_scope.
Local Open Scope Q_scope.

Lemma C9_urgent_hotfix_at_night_witness :
  let commit m f h := mkCommitData "abc1234" m "" f 0 0 h 0 "demo" "" in
  let commits :=
    [commit "tidy readme" 0%Z 12%Z;
     commit "urgent hotfix for login" 15%Z 2%Z;
     commit "docs" 0%Z 23%Z] in
  exists c' : CommitData,
    nth_error (calculateStressScore commits) 1 = Some c' /\
    stressScore c' == 1.
Proof.
  cbv zeta.
  destruct (C9_urgent_hotfix_at_night
              [mkCommitData "abc1234" "tidy readme" "" 0 0 0 12 0 "demo" "";
               mkCommitData "abc1234" "urgent hotfix for login" "" 15 0 0 2 0
                            "demo" "";
               mkCommitData "abc1234" "docs" "" 0 0 0 23 0 "demo" ""]
              1%nat
              (mkCommitData "abc1234" "urgent hotfix for login" "" 15 0 0 2 0
                            "demo" ""))
    as (c' & Hnth & _ & _ & _ & _ & _ & _ & _ & Hscore).
  - reflexivity.
  - vm_compute. reflexivity.
  - reflexivity.
  - reflexivity.
  - exists "", " for login". reflexivity.
  - exists c'. split; assumption.
Defined.

End StressWitness.

(** ** Activity score *)

Section ActivityFacts.

Import JS CommitStats.
Local Open Scope R_scope.

Lemma Array_slice_last {A} (n : nat) (xs : list A) :
  (0 < n)%nat -> Array_slice (- Z.of_nat n) xs = lastN n xs.
Proof.
  intros Hn. unfold Array_slice, lastN.
  replace (- Z.of_nat n <? 0)%Z with true by (symmetry; lia).
  f_equal. lia.
Qed.

Lemma div_mul_cancel (a b : R) : 0 < b -> a / b * b = a.
Proof. intros Hb. field. lra. Qed.

Lemma ln_10_pos : 0 < ln 10.
Proof. rewrite <- ln_1. apply ln_increasing; lra. Qed.

Lemma ln_le_mono (x y : R) : 0 < x -> x <= y -> ln x <= ln y.
Proof.
  intros Hx [Hlt | ->]; [|lra].
  left. now apply ln_increasing.
Qed.

(** Bounds on [log10 x] from a comparison of integer powers. *)
Lemma log10_lower (x : R) (p q : nat) :
  0 < x -> (0 < q)%nat -> 10 ^ p <= x ^ q -> INR p / INR q <= Math_log10 x.
Proof.
  intros Hx Hq Hpow.
  assert (H10 : 0 < ln 10) by apply ln_10_pos.
  assert (HQ : 0 < INR q) by (apply lt_0_INR; lia).
  apply ln_le_mono in Hpow; [|apply pow_lt; lra].
  rewrite !ln_pow in Hpow by lra.
  unfold Math_log10.
  apply (Rmult_le_reg_r (INR q * ln 10)); [nra|].
  replace (INR p / INR q * (INR q * ln 10)) with (INR p * ln 10)
    by (field; lra).
  replace (ln x / ln 10 * (INR q * ln 10)) with (INR q * ln x)
    by (field; lra).
  exact Hpow.
Qed.

Lemma log10_upper (x : R) (p q : nat) :
  0 < x -> (0 < q)%nat -> x ^ q < 10 ^ p -> Math_log10 x < INR p / INR q.
Proof.
  intros Hx Hq Hpow.
  assert (H10 : 0 < ln 10) by apply ln_10_pos.
  assert (HQ : 0 < INR q) by (apply lt_0_INR; lia).
  apply ln_increasing in Hpow; [|apply pow_lt; lra].
  rewrite !ln_pow in Hpow by lra.
  unfold Math_log10.
  apply (Rmult_lt_reg_r (INR q * ln 10)); [nra|].
  replace (INR p / INR q * (INR q * ln 10)) with (INR p * ln 10)
    by (field; lra).
  replace (ln x / ln 10 * (INR q * ln 10)) with (INR q * ln x)
    by (field; lra).
  exact Hpow.
Qed.

(** [Math.round] is the integer [k] with [k - 1/2 <= x < k + 1/2]. *)
Lemma Math_round_unique (x : R) (k : Z) :
  IZR k - / 2 <= x < IZR k + / 2 -> CommitStats.Math_round x = k.
Proof.
  intros [Hlo Hhi]. unfold CommitStats.Math_round.
  symmetry. apply Int_part_spec. lra.
Qed.

Lemma Math_round_le (x : R) (k : Z) :
  x <= IZR k -> (CommitStats.Math_round x <= k)%Z.
Proof.
  intros Hx. unfold CommitStats.Math_round.
  destruct (base_Int_part (x + / 2)) as [Hle _].
  assert (H : IZR (Int_part (x + / 2)) < IZR (k + 1)).
  { rewrite plus_IZR. lra. }
  apply lt_IZR in H. lia.
Qed.

(** The score of an average of 40 commits a week. *)
Lemma score_of_40 :
  CommitStats.Math_round (Rmin 100 (Math_log10 (40 + 1) * 20)) = 32%Z.
Proof.
  assert (Hlo : INR 63 / INR 40 <= Math_log10 (40 + 1)).
  { apply log10_lower; [lra | lia |].
    replace (40 + 1) with (IZR 41) by lra.
    rewrite !pow_IZR. apply IZR_le. vm_compute. discriminate. }
  assert (Hhi : Math_log10 (40 + 1) < INR 65 / INR 40).
  { apply log10_upper; [lra | lia |].
    replace (40 + 1) with (IZR 41) by lra.
    rewrite !pow_IZR. apply IZR_lt. vm_compute. reflexivity. }
  rewrite !INR_IZR_INZ in Hlo, Hhi. simpl Z.of_nat in Hlo, Hhi.
  apply Math_round_unique.
  rewrite Rmin_right by lra. lra.
Qed.

End ActivityFacts.

Section ActivityRefinement.

Import JS CommitStats.
Local Open Scope R_scope.

Variables n d : Z.
Hypothesis d_pos : (0 < d)%Z.
Hypothesis n_ge_d : (d <= n)%Z.

Lemma ratio_ge_1 : 1 <= (IZR n / IZR d).
Proof.
  assert (0 < IZR d) by (apply IZR_lt; lia).
  assert (IZR d <= IZR n) by (apply IZR_le; lia).
  apply (Rmult_le_reg_r (IZR d)); [assumption|].
  rewrite div_mul_cancel by assumption.
  lra.
Qed.

Lemma ratio_pow_40 : (IZR n / IZR d) ^ 40 = IZR (n ^ 40) / IZR (d ^ 40).
Proof.
  unfold Rdiv.
  rewrite Rpow_mult_distr, pow_inv, !pow_IZR. reflexivity.
Qed.

Lemma d_pow_pos : 0 < IZR (d ^ 40).
Proof. apply IZR_lt. apply Z.pow_pos_nonneg; lia. Qed.

Lemma reaches_true (k : nat) :
  (1 <= k)%nat -> reaches n d k = true ->
  IZR (Z.of_nat k) - / 2 <= Math_log10 (IZR n / IZR d) * 20.
Proof.
  intros Hk Hr. unfold reaches in Hr. apply Z.leb_le in Hr.
  pose proof ratio_ge_1 as Hx. pose proof d_pow_pos as Hd.
  assert (Hlow : INR (2 * k - 1) / INR 40 <= Math_log10 (IZR n / IZR d)).
  { apply log10_lower; [lra | lia |].
    rewrite ratio_pow_40, pow_IZR.
    apply (Rmult_le_reg_r (IZR (d ^ 40))); [assumption|].
    rewrite div_mul_cancel by assumption.
    rewrite <- mult_IZR. now apply IZR_le. }
  rewrite !INR_IZR_INZ in Hlow.
  replace (Z.of_nat (2 * k - 1)) with (2 * Z.of_nat k - 1)%Z in Hlow by lia.
  rewrite minus_IZR, mult_IZR in Hlow. simpl Z.of_nat in Hlow. lra.
Qed.

Lemma reaches_false (k : nat) :
  (1 <= k)%nat -> reaches n d k = false ->
  Math_log10 (IZR n / IZR d) * 20 < IZR (Z.of_nat k) - / 2.
Proof.
  intros Hk Hr. unfold reaches in Hr. apply Z.leb_gt in Hr.
  pose proof ratio_ge_1 as Hx. pose proof d_pow_pos as Hd.
  assert (Hup : Math_log10 (IZR n / IZR d) < INR (2 * k - 1) / INR 40).
  { apply log10_upper; [lra | lia |].
    rewrite ratio_pow_40, pow_IZR.
    apply (Rmult_lt_reg_r (IZR (d ^ 40))); [assumption|].
    rewrite div_mul_cancel by assumption.
    rewrite <- mult_IZR. now apply IZR_lt. }
  rewrite !INR_IZR_INZ in Hup.
  replace (Z.of_nat (2 * k - 1)) with (2 * Z.of_nat k - 1)%Z in Hup by lia.
  rewrite minus_IZR, mult_IZR in Hup. simpl Z.of_nat in Hup. lra.
Qed.

Lemma log10_ratio_nonneg : 0 <= Math_log10 (IZR n / IZR d) * 20.
Proof.
  pose proof ratio_ge_1 as Hx. pose proof ln_10_pos as H10.
  assert (0 <= ln (IZR n / IZR d)) by (rewrite <- ln_1; apply ln_le_mono; lra).
  unfold Math_log10.
  assert (0 <= ln (IZR n / IZR d) / ln 10).
  { apply (Rmult_le_reg_r (ln 10)); [assumption|].
    rewrite div_mul_cancel by assumption. lra. }
  lra.
Qed.

(** What the downward search returns: a level that is reached, above
    which no level up to the bound is. *)
Lemma scoreSearch_spec (bound : nat) :
  exists r : nat,
    scoreSearch n d bound = Z.of_nat r /\
    (r <= bound)%nat /\
    (r = 0%nat \/ reaches n d r = true) /\
    (forall j : nat, (r < j <= bound)%nat -> reaches n d j = false).
Proof.
  induction bound as [|b (r & E & Hle & Hr & Habove)].
  - exists 0%nat. simpl. repeat split; [lia | now left | intros; lia].
  - cbn [scoreSearch]. destruct (reaches n d (S b)) eqn:Hb.
    + exists (S b). repeat split; [lia | now right | intros; lia].
    + exists r. repeat split; [assumption | lia | assumption |].
      intros j Hj. destruct (Nat.eq_dec j (S b)) as [->|Hne];
        [assumption | apply Habove; lia].
Qed.

Lemma scoreSearch_correct :
  CommitStats.Math_round (Rmin 100 (Math_log10 (IZR n / IZR d) * 20)) = scoreSearch n d 100.
Proof.
  destruct (scoreSearch_spec 100) as (r & -> & Hle & Hr & Habove).
  pose proof log10_ratio_nonneg as H0.
  assert (Hlow : IZR (Z.of_nat r) - / 2 <= Math_log10 (IZR n / IZR d) * 20).
  { destruct Hr as [-> | Hr]; [simpl; lra|].
    destruct r as [|r]; [simpl; lra|].
    apply reaches_true; [lia | assumption]. }
  assert (Hr100 : IZR (Z.of_nat r) <= 100) by (apply IZR_le; lia).
  apply Math_round_unique.
  destruct (Nat.eq_dec r 100) as [->|Hne].
  - change (IZR (Z.of_nat 100)) with 100 in *.
    apply Rmin_case_strong; intros; lra.
  - assert (Hup : Math_log10 (IZR n / IZR d) * 20 < IZR (Z.of_nat (S r)) - / 2)
      by (apply reaches_false; [lia | apply Habove; lia]).
    rewrite Nat2Z.inj_succ, succ_IZR in Hup.
    apply Rmin_case_strong; intros; lra.
Qed.

End ActivityRefinement.

Section ActivityClaims.

Import JS CommitStats.
Local Open Scope R_scope.

(** The score in terms of the non-zero weeks among the last 12
    entries. *)
Lemma activityScore_unfold (activities : list Api.CommitActivity) :
  calculateActivityScore activities 12 =
    match filter (fun a => (Api.total a >? 0)%Z) (lastN 12 activities) with
    | [] => 0%Z
    | recent =>
        CommitStats.Math_round
          (Rmin 100
             (Math_log10
                (IZR (sumZ Api.total recent) / INR (List.length recent) + 1)
              * 20))
    end.
Proof.
  pose proof (Array_slice_last 12 activities ltac:(lia)) as E.
  change (Z.of_nat 12) with 12%Z in E.
  unfold calculateActivityScore. rewrite E.
  destruct activities as [|a0 activities]; [reflexivity|].
  destruct (filter _ _); reflexivity.
Qed.

(** C8: [calculateActivityScore] returns 0 for an empty series and for
    a series whose last 12 entries are all zero-commit weeks; otherwise
    it returns [round(min(100, log10(avgPerWeek + 1) * 20))], where
    avgPerWeek is the total of the commits over the number of non-zero
    weeks among the last 12 entries; 400 commits over 10 non-zero weeks
    give avgPerWeek 40 and the score 32; the score never exceeds 100. *)
Theorem C8_activity_score (activities : list Api.CommitActivity) :
  let recent :=
    filter (fun a => (Api.total a >? 0)%Z) (lastN 12 activities) in
  let avgPerWeek := IZR (sumZ Api.total recent) / INR (List.length recent) in
  let score := calculateActivityScore activities 12 in
  (activities = [] -> score = 0%Z) /\
  ((forall a, In a (lastN 12 activities) -> Api.total a = 0%Z) ->
   score = 0%Z) /\
  (recent <> [] ->
   score = CommitStats.Math_round
             (Rmin 100 (Math_log10 (avgPerWeek + 1) * 20))) /\
  (sumZ Api.total recent = 400%Z -> List.length recent = 10%nat ->
   avgPerWeek = 40 /\ score = 32%Z) /\
  (score <= 100)%Z.
Proof.
  cbv zeta. rewrite activityScore_unfold.
  split; [|split; [|split; [|split]]].
  - intros ->. reflexivity.
  - intros Hzero.
    replace (filter _ (lastN 12 activities)) with (@nil Api.CommitActivity);
      [reflexivity|].
    symmetry. induction (lastN 12 activities) as [|a l IH]; [reflexivity|].
    simpl. rewrite (Hzero a) by now left. simpl.
    apply IH. intros b Hb. apply Hzero. now right.
  - intros Hne. destruct (filter _ _); [contradiction | reflexivity].
  - intros Hsum Hlen.
    destruct (filter _ _) as [|a l] eqn:E; [discriminate|].
    cbv iota beta zeta. rewrite Hsum, Hlen.
    assert (Havg : IZR 400 / INR 10 = 40).
    { rewrite INR_IZR_INZ. simpl Z.of_nat. lra. }
    split; [exact Havg|]. rewrite Havg. apply score_of_40.
  - destruct (filter _ _); [lia|].
    apply Math_round_le. apply Rmin_l.
Qed.

Lemma C8_activity_score_witness :
  let wk t := Api.mkCommitActivity 0 t [] in
  let series :=
    [wk 7; wk 40; wk 40; wk 0; wk 40; wk 40; wk 40; wk 40; wk 0; wk 40;
     wk 40; wk 40; wk 40]%Z in
  calculateActivityScore series 12 = 32%Z /\
  calculateActivityScore [wk 0; wk 0]%Z 12 = 0%Z /\
  calculateActivityScore [] 12 = 0%Z.
Proof.
  cbv zeta. split; [|split].
  - pose proof (C8_activity_score
                  (map (fun t => Api.mkCommitActivity 0 t [])
                       [7; 40; 40; 0; 40; 40; 40; 40; 0; 40; 40; 40; 40]%Z))
      as H.
    cbv zeta in H. destruct H as (_ & _ & _ & H & _).
    apply H; reflexivity.
  - pose proof (C8_activity_score
                  (map (fun t => Api.mkCommitActivity 0 t []) [0; 0]%Z))
      as H.
    cbv zeta in H. destruct H as (_ & H & _).
    apply H. intros a [<-|[<-|[]]]; reflexivity.
  - pose proof (C8_activity_score []) as H.
    cbv zeta in H. destruct H as (H & _).
    apply H. reflexivity.
Defined.

End ActivityClaims.

Section ActivityEvaluation.

Import JS CommitStats.
Local Open Scope R_scope.

Lemma sumZ_positive_weeks (l : list Api.CommitActivity) :
  (forall a, In a l -> (0 < Api.total a)%Z) ->
  (Z.of_nat (List.length l) <= sumZ Api.total l)%Z.
Proof.
  induction l as [|a l IH]; intros H.
  - simpl. reflexivity.
  - rewrite sumZ_cons. cbn [List.length].
    assert (0 < Api.total a)%Z by (apply H; now left).
    assert (Z.of_nat (List.length l) <= sumZ Api.total l)%Z
      by (apply IH; intros; apply H; now right).
    lia.
Qed.

(** The integer score is the score of the source, for every series and
    every look-back. *)
Lemma calculateActivityScore_int_correct
    (activities : list Api.CommitActivity) (weeksToConsider : Z) :
  calculateActivityScore activities weeksToConsider
  = calculateActivityScore_int activities weeksToConsider.
Proof.
  unfold calculateActivityScore, calculateActivityScore_int.
  destruct activities as [|a0 activities]; [reflexivity|].
  set (recent := filter _ _).
  assert (Hpos : forall a, In a recent -> (0 < Api.total a)%Z).
  { intros a Ha. apply filter_In in Ha. destruct Ha as [_ Ha]. lia. }
  destruct recent as [|a l] eqn:E; [reflexivity|].
  cbv zeta.
  pose proof (sumZ_positive_weeks (a :: l) Hpos) as Hsum.
  set (t := sumZ Api.total (a :: l)) in *.
  set (w := List.length (a :: l)) in *.
  assert (Hw : (0 < Z.of_nat w)%Z) by (unfold w; cbn [List.length]; lia).
  rewrite <- (scoreSearch_correct (t + Z.of_nat w) (Z.of_nat w)) by lia.
  do 4 f_equal.
  rewrite plus_IZR, INR_IZR_INZ.
  assert (0 < IZR (Z.of_nat w)) by (now apply IZR_lt).
  field. lra.
Qed.

(** The two scenarios of the activity score, evaluated. *)
Example activity_400_over_10 :
  let wk t := Api.mkCommitActivity 0 t [] in
  calculateActivityScore_int
    [wk 7; wk 40; wk 40; wk 0; wk 40; wk 40; wk 40; wk 40; wk 0; wk 40;
     wk 40; wk 40; wk 40]%Z 12 = 32%Z.
Proof. vm_compute. reflexivity. Qed.

End ActivityEvaluation.


(* ================================================================= *)
(** * Further properties of the modelled code *)

(** ** Sums of rationals *)

Section SumQFacts.

Import JS.
Local Open Scope Q_scope.

Lemma sumQ_from {A} (f : A -> Q) (xs : list A) (a : Q) :
  fold_left (fun sum x => sum + f x) xs a == a + sumQ f xs.
Proof.
  unfold sumQ. revert a.
  induction xs as [|x xs IH]; intros a; simpl.
  - lra.
  - rewrite IH, (IH (0 + f x)). lra.
Qed.

Lemma sumQ_cons {A} (f : A -> Q) (x : A) (xs : list A) :
  sumQ f (x :: xs) == f x + sumQ f xs.
Proof. unfold sumQ at 1. simpl. rewrite sumQ_from. lra. Qed.

Lemma sumQ_bounds {A} (f : A -> Q) (lo hi : Q) (xs : list A) :
  (forall x, In x xs -> lo <= f x <= hi) ->
  lo * inject_Z (len xs) <= sumQ f xs <= hi * inject_Z (len xs).
Proof.
  induction xs as [|x xs IH]; intros H.
  - unfold sumQ, len. cbn [fold_left List.length Z.of_nat].
    change (inject_Z 0) with 0. lra.
  - rewrite sumQ_cons.
    assert (Hx : lo <= f x <= hi) by (apply H; now left).
    assert (Hxs : lo * inject_Z (len xs) <= sumQ f xs <= hi * inject_Z (len xs))
      by (apply IH; intros; apply H; now right).
    unfold len in *. cbn [List.length]. rewrite Nat2Z.inj_succ.
    unfold Z.succ. rewrite inject_Z_plus.
    change (inject_Z 1) with 1. lra.
Qed.

(** The mean of values between [lo] and [hi] lies between them. *)
Lemma mean_bounds {A} (f : A -> Q) (lo hi : Q) (x : A) (xs : list A) :
  (forall y, In y (x :: xs) -> lo <= f y <= hi) ->
  lo <= sumQ f (x :: xs) / inject_Z (len (x :: xs)) <= hi.
Proof.
  intros H. pose proof (sumQ_bounds f lo hi (x :: xs) H) as [Hlo Hhi].
  assert (Hn : 0 < inject_Z (len (x :: xs))).
  { change 0 with (inject_Z 0). rewrite <- Zlt_Qlt. apply len_cons. }
  split.
  - apply Qle_shift_div_l; assumption.
  - apply Qle_shift_div_r; assumption.
Qed.

(** A sum of values of the form [a - b * g x]. *)
Lemma sumQ_affine {A} (f g : A -> Q) (a b : Q) (xs : list A) :
  (forall x, In x xs -> f x == a - g x * b) ->
  sumQ f xs == a * inject_Z (len xs) - sumQ g xs * b.
Proof.
  induction xs as [|x xs IH]; intros H.
  - unfold sumQ, len. cbn [fold_left List.length Z.of_nat].
    change (inject_Z 0) with 0. lra.
  - rewrite !sumQ_cons, (H x) by now left.
    rewrite IH by (intros; apply H; now right).
    unfold len. cbn [List.length]. rewrite Nat2Z.inj_succ.
    unfold Z.succ. rewrite inject_Z_plus.
    change (inject_Z 1) with 1. lra.
Qed.

End SumQFacts.

(** ** Bus factor: tiers, the global result and their composition *)

Section BusFactorMore.

Import JS BusFactor.
Local Open Scope Q_scope.

(** Ratio and score of one repository with non-negative counts. *)
Lemma busFactor_ranges (contributors : list Contributor) :
  (forall c, In c contributors -> (0 <= contributions c)%Z) ->
  0 <= topContributorRatio (calculateBusFactor contributors) <= 1 /\
  score (calculateBusFactor contributors)
  == 100 - topContributorRatio (calculateBusFactor contributors) * 100.
Proof.
  intros Hnn. destruct contributors as [|c cs].
  - simpl. split; lra.
  - destruct (Z.eq_dec (sumZ contributions (c :: cs)) 0) as [E|E].
    + unfold calculateBusFactor. rewrite E. simpl. split; lra.
    + rewrite (score_unfold c cs E), (ratio_unfold c cs E).
      assert (Hc : (0 <= contributions c)%Z) by (apply Hnn; now left).
      assert (Hs : (0 <= sumZ contributions cs)%Z).
      { apply sumZ_nonneg. intros; apply Hnn; now right. }
      rewrite sumZ_cons in *.
      pose proof (ratio_bounds (contributions c)
                    (contributions c + sumZ contributions cs)
                    ltac:(lia) ltac:(lia)) as [Hlo Hhi].
      set (ratio := inject_Z (contributions c) / _) in *.
      destruct (Math_max_spec 0 (100 - ratio * 100)) as [[Hle ->]|[Hlt ->]];
        split; lra.
Qed.

Lemma risk_unfold c cs :
  sumZ contributions (c :: cs) <> 0%Z ->
  risk (calculateBusFactor (c :: cs)) =
    let ratio := topContributorRatio (calculateBusFactor (c :: cs)) in
    if gt ratio 0.6 then HIGH else if gt ratio 0.4 then MEDIUM else LOW.
Proof.
  intros H. unfold calculateBusFactor.
  destruct (sumZ contributions (c :: cs) =? 0)%Z eqn:E.
  - apply Z.eqb_eq in E. contradiction.
  - reflexivity.
Qed.

Lemma gt_false x y : gt x y = false <-> x <= y.
Proof.
  unfold gt. rewrite negb_false_iff. apply Qle_bool_iff.
Qed.

(** The risk tier of a repository can be read off its score: HIGH below
    40, MEDIUM from 40 to below 60, LOW from 60 on. *)
Theorem busFactor_risk_matches_score (contributors : list Contributor) :
  (forall c, In c contributors -> (0 <= contributions c)%Z) ->
  let r := calculateBusFactor contributors in
  (risk r = HIGH <-> score r < 40) /\
  (risk r = MEDIUM <-> 40 <= score r /\ score r < 60) /\
  (risk r = LOW <-> 60 <= score r).
Proof.
  intros Hnn. cbv zeta.
  destruct (busFactor_ranges contributors Hnn) as [[Hlo Hhi] Hscore].
  destruct contributors as [|c cs].
  - simpl. repeat split; intros; try discriminate; try lra.
  - destruct (Z.eq_dec (sumZ contributions (c :: cs)) 0) as [E|E].
    + unfold calculateBusFactor in *. rewrite E in *. simpl in *.
      repeat split; intros; try discriminate; try lra.
    + rewrite (risk_unfold c cs E). cbv zeta.
      set (r := calculateBusFactor (c :: cs)) in *.
      destruct (gt (topContributorRatio r) 0.6) eqn:G6.
      * apply gt_true in G6.
        repeat split; intros; try discriminate; try lra.
      * apply gt_false in G6.
        destruct (gt (topContributorRatio r) 0.4) eqn:G4.
        -- apply gt_true in G4.
           repeat split; intros; try discriminate; try lra.
        -- apply gt_false in G4.
           repeat split; intros; try discriminate; try lra.
Qed.

Lemma busFactor_risk_matches_score_witness :
  let r := calculateBusFactor
             [mkContributor "alice" 70 ""; mkContributor "bob" 30 ""] in
  risk r = HIGH /\ score r < 40.
Proof.
  cbv zeta.
  destruct (busFactor_risk_matches_score
              [mkContributor "alice" 70 ""; mkContributor "bob" 30 ""])
    as (Hhigh & _).
  - intros c [<-|[<-|[]]]; vm_compute; discriminate.
  - split; [reflexivity|]. apply Hhigh. reflexivity.
Defined.

(** A repository all of whose contributions come from its first
    contributor has ratio 1, the risk HIGH and the score 0. *)
Theorem busFactor_sole_contributor (c : Contributor) (cs : list Contributor) :
  (0 < contributions c)%Z ->
  (forall d, In d cs -> contributions d = 0%Z) ->
  let r := calculateBusFactor (c :: cs) in
  topContributorRatio r == 1 /\ risk r = HIGH /\ score r == 0 /\
  topContributor r = login c /\ totalContributors r = len (c :: cs).
Proof.
  intros Hc Hzero. cbv zeta.
  assert (Hs : sumZ contributions cs = 0%Z).
  { clear Hc. induction cs as [|d cs IH]; [reflexivity|].
    rewrite sumZ_cons, (Hzero d) by now left.
    rewrite IH; [reflexivity|]. intros; apply Hzero; now right. }
  assert (E : sumZ contributions (c :: cs) <> 0%Z)
    by (rewrite sumZ_cons; lia).
  assert (Hratio : topContributorRatio (calculateBusFactor (c :: cs)) == 1).
  { rewrite (ratio_unfold c cs E), sumZ_cons, Hs, Z.add_0_r.
    apply Qmult_inv_r.
    intros H. unfold Qeq in H. simpl in H. lia. }
  split; [exact Hratio|].
  split.
  { rewrite (risk_unfold c cs E). cbv zeta.
    replace (gt (topContributorRatio (calculateBusFactor (c :: cs))) 0.6)
      with true; [reflexivity|].
    symmetry. apply gt_true. rewrite Hratio. reflexivity. }
  split.
  { rewrite (score_unfold c cs E).
    destruct (Math_max_spec 0
                (100 - topContributorRatio (calculateBusFactor (c :: cs)) * 100))
      as [[_ ->]|[Hlt ->]].
    - rewrite Hratio. reflexivity.
    - reflexivity. }
  unfold calculateBusFactor.
  destruct (sumZ contributions (c :: cs) =? 0)%Z eqn:E0.
  - apply Z.eqb_eq in E0. contradiction.
  - split; reflexivity.
Qed.

Lemma busFactor_sole_contributor_witness :
  let r := calculateBusFactor
             [mkContributor "alice" 12 ""; mkContributor "bot" 0 ""] in
  topContributorRatio r == 1 /\ risk r = HIGH /\ score r == 0.
Proof.
  cbv zeta.
  destruct (busFactor_sole_contributor (mkContributor "alice" 12 "")
              [mkContributor "bot" 0 ""]) as (H1 & H2 & H3 & _).
  - reflexivity.
  - intros d [<-|[]]. reflexivity.
  - split; [exact H1|]. split; [exact H2 | exact H3].
Defined.

Lemma totalContributors_length (contributors : list Contributor) :
  totalContributors (calculateBusFactor contributors) = len contributors.
Proof.
  destruct contributors as [|c cs]; [reflexivity|].
  unfold calculateBusFactor.
  destruct (sumZ contributions (c :: cs) =? 0)%Z; reflexivity.
Qed.

Lemma sumZ_ext {A} (f g : A -> Z) (xs : list A) :
  (forall x, f x = g x) -> sumZ f xs = sumZ g xs.
Proof.
  intros H. induction xs as [|x xs IH]; [reflexivity|].
  now rewrite !sumZ_cons, H, IH.
Qed.

Lemma sumZ_ext_in {A} (f g : A -> Z) (xs : list A) :
  (forall x, In x xs -> f x = g x) -> sumZ f xs = sumZ g xs.
Proof.
  induction xs as [|x xs IH]; intros H; [reflexivity|].
  rewrite !sumZ_cons, (H x) by now left.
  rewrite IH; [reflexivity|]. intros; apply H; now right.
Qed.

Lemma sumZ_map {A B} (f : B -> Z) (g : A -> B) (xs : list A) :
  sumZ f (map g xs) = sumZ (fun x => f (g x)) xs.
Proof.
  induction xs as [|x xs IH]; [reflexivity|].
  simpl map. now rewrite !sumZ_cons, IH.
Qed.

(** The global result over the per-repository results of repositories
    with non-negative counts: the mean ratio lies in [0,1], the mean
    score in [0,100], and the contributors are counted over all
    repositories. *)
Theorem globalBusFactor_of_repositories (repos : list (list Contributor)) :
  (forall cs c, In cs repos -> In c cs -> (0 <= contributions c)%Z) ->
  let g := calculateGlobalBusFactor (map calculateBusFactor repos) in
  0 <= topContributorRatio g <= 1 /\
  0 <= score g <= 100 /\
  totalContributors g = sumZ (fun cs => len cs) repos.
Proof.
  intros Hnn. cbv zeta.
  destruct repos as [|cs0 repos].
  - simpl. repeat split; lra.
  - set (l := map calculateBusFactor (cs0 :: repos)).
    assert (Hall : forall bf, In bf l ->
              0 <= topContributorRatio bf <= 1 /\
              score bf == 100 - topContributorRatio bf * 100).
    { intros bf Hbf. unfold l in Hbf. apply in_map_iff in Hbf.
      destruct Hbf as (cs & <- & Hcs).
      apply busFactor_ranges. intros c Hc. now apply (Hnn cs). }
    unfold l in *. simpl map in *.
    set (b := calculateBusFactor cs0) in *.
    set (bs := map calculateBusFactor repos) in *.
    unfold calculateGlobalBusFactor.
    cbn [topContributorRatio score totalContributors].
    pose proof (mean_bounds topContributorRatio 0 1 b bs
                  (fun y Hy => proj1 (Hall y Hy))) as Hmean.
    assert (Hn : 0 < inject_Z (len (b :: bs))).
    { change 0 with (inject_Z 0). rewrite <- Zlt_Qlt. apply len_cons. }
    assert (Hsum : sumQ score (b :: bs)
                   == 100 * inject_Z (len (b :: bs))
                      - sumQ topContributorRatio (b :: bs) * 100).
    { apply sumQ_affine. intros x Hx. apply (Hall x Hx). }
    assert (Hlin : sumQ score (b :: bs) / inject_Z (len (b :: bs))
                   == 100 - sumQ topContributorRatio (b :: bs)
                            / inject_Z (len (b :: bs)) * 100).
    { rewrite Hsum. field. lra. }
    split; [exact Hmean|].
    split; [rewrite Hlin; lra|].
    change (b :: bs) with (map calculateBusFactor (cs0 :: repos)).
    rewrite sumZ_map. apply sumZ_ext. intros cs.
    apply totalContributors_length.
Qed.

Lemma globalBusFactor_of_repositories_witness :
  let repos :=
    [[mkContributor "alice" 70 ""; mkContributor "bob" 30 ""];
     [mkContributor "carol" 5 ""; mkContributor "dan" 5 ""]; []] in
  let g := calculateGlobalBusFactor (map calculateBusFactor repos) in
  0 <= topContributorRatio g <= 1 /\ 0 <= score g <= 100 /\
  totalContributors g = 4%Z.
Proof.
  cbv zeta.
  destruct (globalBusFactor_of_repositories
              [[mkContributor "alice" 70 ""; mkContributor "bob" 30 ""];
               [mkContributor "carol" 5 ""; mkContributor "dan" 5 ""]; []])
    as (H1 & H2 & H3).
  - intros cs c [<-|[<-|[<-|[]]]] Hc; simpl in Hc;
      repeat (destruct Hc as [<-|Hc]; [vm_compute; discriminate|]);
      destruct Hc.
  - split; [exact H1|]. split; [exact H2 | exact H3].
Defined.

Lemma threshold_30 (h n : Z) :
  inject_Z n * 0.3 < inject_Z h <-> (3 * n < 10 * h)%Z.
Proof. unfold Qlt. cbn [Qnum Qden Qmult inject_Z]. lia. Qed.

Lemma threshold_50 (m n : Z) :
  inject_Z n * 0.5 < inject_Z m <-> (n < 2 * m)%Z.
Proof. unfold Qlt. cbn [Qnum Qden Qmult inject_Z]. lia. Qed.

(** The global risk in whole numbers: HIGH exactly when more than 30% of
    the repositories are HIGH; LOW exactly when none is HIGH and at most
    half are MEDIUM; the contributors are summed. *)
Theorem globalBusFactor_risk_rule (repoBusFactors : list BusFactorResult) :
  let high :=
    len (filter (fun bf => Risk_eqb (risk bf) HIGH) repoBusFactors) in
  let medium :=
    len (filter (fun bf => Risk_eqb (risk bf) MEDIUM) repoBusFactors) in
  let n := len repoBusFactors in
  let g := calculateGlobalBusFactor repoBusFactors in
  (risk g = HIGH <-> (3 * n < 10 * high)%Z) /\
  (risk g = LOW <-> high = 0%Z /\ (2 * medium <= n)%Z) /\
  totalContributors g = sumZ totalContributors repoBusFactors.
Proof.
  cbv zeta. destruct repoBusFactors as [|b bs].
  - simpl. unfold len. simpl.
    repeat split; intros; try discriminate; try lia.
  - set (l := b :: bs).
    assert (Hh : (0 <= len (filter (fun bf => Risk_eqb (risk bf) HIGH) l))%Z)
      by (unfold len; lia).
    unfold calculateGlobalBusFactor. fold l.
    cbn [risk totalContributors].
    set (h := len (filter (fun bf => Risk_eqb (risk bf) HIGH) l)) in *.
    set (m := len (filter (fun bf => Risk_eqb (risk bf) MEDIUM) l)).
    set (n := len l).
    destruct (gt (inject_Z h) (inject_Z n * 0.3)) eqn:G1.
    + apply gt_true, threshold_30 in G1.
      assert (0 <= n)%Z by (unfold n, len; lia).
      repeat split; intros; try discriminate; try lia.
    + apply gt_false in G1.
      assert (G1' : ~ (3 * n < 10 * h)%Z).
      { intros H. apply threshold_30 in H. lra. }
      destruct (h >? 0)%Z eqn:G2; cbn [orb].
      * repeat split; intros; try discriminate; try lia.
      * destruct (gt (inject_Z m) (inject_Z n * 0.5)) eqn:G3.
        -- apply gt_true, threshold_50 in G3.
           repeat split; intros; try discriminate; try lia.
        -- apply gt_false in G3.
           assert (G3' : ~ (n < 2 * m)%Z).
           { intros H. apply threshold_50 in H. lra. }
           repeat split; intros; try discriminate; try lia.
Qed.

(** The global result of a single repository is that repository's
    result, with the top contributor left blank. *)
Theorem globalBusFactor_single (bf : BusFactorResult) :
  let g := calculateGlobalBusFactor [bf] in
  risk g = risk bf /\
  topContributorRatio g == topContributorRatio bf /\
  score g == score bf /\
  totalContributors g = totalContributors bf /\
  topContributor g = ""%string.
Proof.
  cbv zeta. unfold calculateGlobalBusFactor.
  cbn [risk topContributorRatio score totalContributors topContributor].
  split.
  { cbn [filter]. destruct (risk bf); reflexivity. }
  unfold sumQ, sumZ, len. cbn [fold_left List.length Z.of_nat].
  change (inject_Z (Z.pos (Pos.of_succ_nat 0))) with 1.
  repeat split; try reflexivity; try (field); lia.
Qed.

End BusFactorMore.

(** ** Health score: ranges, insensitivity to order and to the
    pull-request entries of the issue feed, averages *)

Section HealthScoreMore.

Import JS HealthScore.
Local Open Scope Q_scope.

Lemma Math_round_between (lo hi : Z) (x : Q) :
  inject_Z lo <= x <= inject_Z hi -> (lo <= Math_round x <= hi)%Z.
Proof.
  intros [Hlo Hhi]. destruct (Math_round_near x) as [H1 H2].
  split.
  - assert (H : inject_Z lo < inject_Z (Math_round x + 1)).
    { rewrite inject_Z_plus. change (inject_Z 1) with 1. lra. }
    rewrite <- Zlt_Qlt in H. lia.
  - assert (H : inject_Z (Math_round x) < inject_Z (hi + 1)).
    { rewrite inject_Z_plus. change (inject_Z 1) with 1. lra. }
    rewrite <- Zlt_Qlt in H. lia.
Qed.

Lemma Math_round_comp (x y : Q) : x == y -> Math_round x = Math_round y.
Proof. intros H. unfold Math_round. now rewrite H. Qed.

Lemma Math_round_integer (k : Z) : Math_round (inject_Z k) = k.
Proof.
  destruct (Math_round_between k k (inject_Z k)); [lra | lia].
Qed.

Lemma len_filter_le {A} (p : A -> bool) (xs : list A) :
  (0 <= len (filter p xs) <= len xs)%Z.
Proof.
  unfold len. pose proof (filter_length_le p xs). lia.
Qed.

(** A rate of [c] out of [t], scaled to 40, with the fallback 40. *)
Lemma rate_bounds (c t : Z) :
  (0 <= c <= t)%Z ->
  0 <= (if (t >? 0)%Z then inject_Z c / inject_Z t * 40 else 40) <= 40.
Proof.
  intros H. destruct (t >? 0)%Z eqn:E; [|lra].
  apply Z.gtb_lt in E.
  pose proof (ratio_bounds c t H E). lra.
Qed.

(** Every result of [calculateHealthScore] is in range: the score is a
    whole number from 0 to 100, the two rate sub-scores are from 0 to
    40, prSpeed is 0 or 20, and the closed and merged counts do not
    exceed the totals. *)
Theorem healthScore_ranges
    (Date_getTime : string -> Z)
    (issues : list Issue) (pullRequests : list PullRequest) :
  let r := calculateHealthScore Date_getTime issues pullRequests in
  (exists k : Z, score r = inject_Z k /\ (0 <= k <= 100)%Z) /\
  0 <= issueResolution (breakdown r) <= 40 /\
  0 <= prMergeRate (breakdown r) <= 40 /\
  (prSpeed (breakdown r) = 0 \/ prSpeed (breakdown r) = 20) /\
  (0 <= closedIssues (metrics r) <= totalIssues (metrics r))%Z /\
  (0 <= mergedPRs (metrics r) <= totalPRs (metrics r))%Z.
Proof.
  cbv zeta. unfold calculateHealthScore.
  cbn [score breakdown metrics issueResolution prMergeRate prSpeed
       closedIssues totalIssues mergedPRs totalPRs].
  set (real := filter isRealIssue issues).
  pose proof (len_filter_le (fun i => State_eqb (issue_state i) closed) real)
    as Hc.
  pose proof (len_filter_le (fun pr => merged pr) pullRequests) as Hm.
  pose proof (rate_bounds _ _ Hc) as Hir.
  pose proof (rate_bounds _ _ Hm) as Hpm.
  set (ir := if (len real >? 0)%Z then _ else _) in *.
  set (pm := if (len pullRequests >? 0)%Z then _ else _) in *.
  set (ps := if (gt _ 0 && lt _ 48)%bool then 20 else 0).
  assert (Hps : (ps = 0 \/ ps = 20) /\ 0 <= ps <= 20).
  { unfold ps. destruct (_ && _)%bool; split; auto; lra. }
  destruct Hps as [Hps Hps'].
  split.
  { exists (Math_round (ir + pm + ps)). split; [reflexivity|].
    apply Math_round_between. change (inject_Z 0) with 0.
    change (inject_Z 100) with 100. lra. }
  split.
  { pose proof (Math_round_between 0 40 ir Hir) as H.
    rewrite !Zle_Qle in H. exact H. }
  split.
  { pose proof (Math_round_between 0 40 pm Hpm) as H.
    rewrite !Zle_Qle in H. exact H. }
  split; [exact Hps|]. split; assumption.
Qed.

(** The pull-request entries of the issue feed do not count: dropping
    them from the input leaves the result unchanged. *)
Theorem healthScore_ignores_pr_entries
    (Date_getTime : string -> Z)
    (issues : list Issue) (pullRequests : list PullRequest) :
  calculateHealthScore Date_getTime (filter isRealIssue issues) pullRequests
  = calculateHealthScore Date_getTime issues pullRequests.
Proof.
  unfold calculateHealthScore.
  assert (E : filter isRealIssue (filter isRealIssue issues)
              = filter isRealIssue issues).
  { induction issues as [|i l IH]; [reflexivity|].
    simpl. destruct (isRealIssue i) eqn:Hi; simpl; [|exact IH].
    now rewrite Hi, IH. }
  now rewrite E.
Qed.

Lemma Permutation_filter {A} (p : A -> bool) (l l' : list A) :
  Permutation l l' -> Permutation (filter p l) (filter p l').
Proof.
  induction 1 as [|x l l' _ IH|x y l|l l' l'' _ IH1 _ IH2]; simpl.
  - constructor.
  - destruct (p x); [now constructor | assumption].
  - destruct (p x), (p y); try apply Permutation_refl. apply perm_swap.
  - now apply perm_trans with (filter p l').
Qed.

Lemma Permutation_len {A} (l l' : list A) :
  Permutation l l' -> len l = len l'.
Proof. intros H. unfold len. now rewrite (Permutation_length H). Qed.

Lemma Permutation_sumZ {A} (f : A -> Z) (l l' : list A) :
  Permutation l l' -> sumZ f l = sumZ f l'.
Proof.
  induction 1 as [|x l l' _ IH|x y l|l l' l'' _ IH1 _ IH2].
  - reflexivity.
  - now rewrite !sumZ_cons, IH.
  - rewrite !sumZ_cons. lia.
  - congruence.
Qed.

(** The result does not depend on the order in which the issues and the
    pull requests arrive. *)
Theorem healthScore_order_independent
    (Date_getTime : string -> Z)
    (issues issues' : list Issue) (pullRequests pullRequests' : list PullRequest) :
  Permutation issues issues' ->
  Permutation pullRequests pullRequests' ->
  calculateHealthScore Date_getTime issues pullRequests
  = calculateHealthScore Date_getTime issues' pullRequests'.
Proof.
  intros Hi Hp. unfold calculateHealthScore.
  pose proof (Permutation_filter isRealIssue _ _ Hi) as Hreal.
  rewrite (Permutation_len _ _ Hreal).
  rewrite (Permutation_len _ _
             (Permutation_filter (fun i => State_eqb (issue_state i) closed)
                _ _ Hreal)).
  rewrite (Permutation_len _ _ Hp).
  rewrite (Permutation_len _ _
             (Permutation_filter (fun pr => merged pr) _ _ Hp)).
  set (timed := fun pr => (merged pr && truthy_opt (merged_at pr)
                           && truthy (created_at pr))%bool).
  rewrite (Permutation_len _ _ (Permutation_filter timed _ _ Hp)).
  rewrite (Permutation_sumZ (mergeTime Date_getTime) _ _
             (Permutation_filter timed _ _ Hp)).
  reflexivity.
Qed.

Lemma healthScore_order_independent_witness :
  let a := mkIssue 1 1 closed "2024-01-01T00:00:00Z" None None in
  let b := mkIssue 2 2 open "2024-01-03T00:00:00Z" None None in
  calculateHealthScore (fun _ => 0%Z) [a; b] []
  = calculateHealthScore (fun _ => 0%Z) [b; a] [].
Proof.
  cbv zeta.
  apply (healthScore_order_independent (fun _ => 0%Z)
           [mkIssue 1 1 closed "2024-01-01T00:00:00Z" None None;
            mkIssue 2 2 open "2024-01-03T00:00:00Z" None None]
           [mkIssue 2 2 open "2024-01-03T00:00:00Z" None None;
            mkIssue 1 1 closed "2024-01-01T00:00:00Z" None None]
           [] []).
  - apply perm_swap.
  - apply perm_nil.
Defined.

Lemma ge_comp (x y k : Q) : x == y -> ge x k = ge y k.
Proof.
  intros H. destruct (ge y k) eqn:E.
  - apply ge_true in E. apply ge_true. lra.
  - apply ge_false in E. apply ge_false. lra.
Qed.

Lemma gradeOf_comp (x y : Q) : x == y -> gradeOf x = gradeOf y.
Proof.
  intros H. unfold gradeOf.
  now rewrite (ge_comp x y 80 H), (ge_comp x y 60 H), (ge_comp x y 40 H).
Qed.

Lemma mean_single {A} (f : A -> Q) (h : A) :
  sumQ f [h] / inject_Z (len [h]) == f h.
Proof.
  unfold sumQ, len. cbn [fold_left List.length Z.of_nat].
  change (inject_Z (Z.pos (Pos.of_succ_nat 0))) with 1. field.
Qed.

(** Averaging the result of a single repository gives that result
    back: score, grade, breakdown and metrics are unchanged. *)
Theorem averageHealthScore_single
    (Date_getTime : string -> Z)
    (issues : list Issue) (pullRequests : list PullRequest) :
  let h := calculateHealthScore Date_getTime issues pullRequests in
  let r := calculateAverageHealthScore [h] in
  score r == score h /\ grade r = grade h /\
  issueResolution (breakdown r) == issueResolution (breakdown h) /\
  prMergeRate (breakdown r) == prMergeRate (breakdown h) /\
  prSpeed (breakdown r) == prSpeed (breakdown h) /\
  totalIssues (metrics r) = totalIssues (metrics h) /\
  closedIssues (metrics r) = closedIssues (metrics h) /\
  totalPRs (metrics r) = totalPRs (metrics h) /\
  mergedPRs (metrics r) = mergedPRs (metrics h) /\
  avgMergeTimeHours (metrics r) == avgMergeTimeHours (metrics h).
Proof.
  cbv zeta.
  set (h := calculateHealthScore Date_getTime issues pullRequests).
  unfold calculateAverageHealthScore.
  cbn [score grade breakdown metrics issueResolution prMergeRate prSpeed
       totalIssues closedIssues totalPRs mergedPRs avgMergeTimeHours
       fold_left addMetrics].
  assert (Hint : forall k : Z, forall f : HealthScoreResult -> Q,
             f h = inject_Z k ->
             inject_Z (Math_round (sumQ f [h] / inject_Z (len [h]))) == f h).
  { intros k f Hk.
    rewrite (Math_round_comp _ _ (mean_single f h)), Hk, Math_round_integer.
    reflexivity. }
  split; [apply (Hint _ score eq_refl)|].
  split; [apply (gradeOf_comp _ _ (mean_single score h))|].
  split; [apply (Hint _ (fun hs => issueResolution (breakdown hs)) eq_refl)|].
  split; [apply (Hint _ (fun hs => prMergeRate (breakdown hs)) eq_refl)|].
  split.
  { assert (Hps : exists k, prSpeed (breakdown h) = inject_Z k).
    { unfold h, calculateHealthScore. cbn [breakdown prSpeed].
      destruct (_ && _)%bool; [now exists 20%Z | now exists 0%Z]. }
    destruct Hps as [k Hk].
    apply (Hint k (fun hs => prSpeed (breakdown hs)) Hk). }
  repeat (split; [reflexivity|]).
  assert (Hm : exists k, avgMergeTimeHours (metrics h) = inject_Z k / 10).
  { unfold h, calculateHealthScore. cbn [metrics avgMergeTimeHours].
    eexists. reflexivity. }
  destruct Hm as [k Hk]. rewrite Hk.
  assert (E : (0 + inject_Z k / 10) / inject_Z (len [h]) * 10 == inject_Z k).
  { unfold len. cbn [List.length Z.of_nat].
    change (inject_Z (Z.pos (Pos.of_succ_nat 0))) with 1. field. }
  rewrite (Math_round_comp _ _ E), Math_round_integer. reflexivity.
Qed.

Lemma Math_round_ge (k : Z) (x : Q) :
  inject_Z k <= x -> inject_Z k <= inject_Z (Math_round x).
Proof.
  intros H. destruct (Math_round_near x) as [H1 _].
  assert (H' : inject_Z k < inject_Z (Math_round x + 1)).
  { rewrite inject_Z_plus. change (inject_Z 1) with 1. lra. }
  rewrite <- Zlt_Qlt in H'. rewrite <- Zle_Qle. lia.
Qed.

Lemma Math_round_le_int (k : Z) (x : Q) :
  x <= inject_Z k -> inject_Z (Math_round x) <= inject_Z k.
Proof.
  intros H. destruct (Math_round_near x) as [_ H2].
  assert (H' : inject_Z (Math_round x) < inject_Z (k + 1)).
  { rewrite inject_Z_plus. change (inject_Z 1) with 1. lra. }
  rewrite <- Zlt_Qlt in H'. rewrite <- Zle_Qle. lia.
Qed.

(** Grade and score of an average never disagree by more than the
    rounding: EXCELLENT comes with a score of at least 80, GOOD with a
    score from 60 to 80, FAIR with a score from 40 to 60 and POOR with
    a score of at most 40. *)
Theorem averageHealthScore_grade_bounds
    (h : HealthScoreResult) (hss : list HealthScoreResult) :
  let r := calculateAverageHealthScore (h :: hss) in
  (grade r = EXCELLENT -> 80 <= score r) /\
  (grade r = GOOD -> 60 <= score r <= 80) /\
  (grade r = FAIR -> 40 <= score r <= 60) /\
  (grade r = POOR -> score r <= 40).
Proof.
  cbv zeta. destruct (average_unfold h hss) as (Hs & Hg & _).
  cbv zeta in Hs, Hg. rewrite Hs, Hg.
  set (mean := sumQ score (h :: hss) / inject_Z (len (h :: hss))).
  unfold gradeOf.
  destruct (ge mean 80) eqn:G80.
  { apply ge_true in G80. pose proof (Math_round_ge 80 mean G80).
    repeat split; intros; try discriminate; assumption. }
  apply ge_false in G80.
  pose proof (Math_round_le_int 80 mean ltac:(change (inject_Z 80) with 80; lra)).
  destruct (ge mean 60) eqn:G60.
  { apply ge_true in G60. pose proof (Math_round_ge 60 mean G60).
    repeat split; intros; try discriminate; assumption. }
  apply ge_false in G60.
  pose proof (Math_round_le_int 60 mean ltac:(change (inject_Z 60) with 60; lra)).
  destruct (ge mean 40) eqn:G40.
  { apply ge_true in G40. pose proof (Math_round_ge 40 mean G40).
    repeat split; intros; try discriminate; assumption. }
  apply ge_false in G40.
  pose proof (Math_round_le_int 40 mean ltac:(change (inject_Z 40) with 40; lra)).
  repeat split; intros; try discriminate; assumption.
Qed.

Lemma averageHealthScore_grade_bounds_witness :
  let r := calculateAverageHealthScore
             [freshRepo; freshRepo; freshRepo; busyRepo; busyRepo] in
  grade r = GOOD /\ 60 <= score r <= 80.
Proof.
  cbv zeta.
  destruct (averageHealthScore_grade_bounds freshRepo
              [freshRepo; freshRepo; busyRepo; busyRepo])
    as (_ & Hgood & _).
  split; [vm_compute; reflexivity|].
  apply Hgood. vm_compute. reflexivity.
Defined.

Lemma healthScore_score_bounds
    (Date_getTime : string -> Z)
    (issues : list Issue) (pullRequests : list PullRequest) :
  0 <= score (calculateHealthScore Date_getTime issues pullRequests) <= 100.
Proof.
  unfold calculateHealthScore. cbn [score].
  set (real := filter isRealIssue issues).
  pose proof (rate_bounds _ _
    (len_filter_le (fun i => State_eqb (issue_state i) closed) real)) as Hir.
  pose proof (rate_bounds _ _
    (len_filter_le (fun pr => merged pr) pullRequests)) as Hpm.
  set (ir := if (len real >? 0)%Z then _ else _) in *.
  set (pm := if (len pullRequests >? 0)%Z then _ else _) in *.
  set (ps := if (gt _ 0 && lt _ 48)%bool then 20 else 0).
  assert (Hps : 0 <= ps <= 20) by (unfold ps; destruct (_ && _)%bool; lra).
  split.
  - apply (Math_round_ge 0). change (inject_Z 0) with 0. lra.
  - apply (Math_round_le_int 100). change (inject_Z 100) with 100. lra.
Qed.

(** The global health score over the per-repository results of any
    repositories is a whole number from 0 to 100. *)
Theorem averageHealthScore_of_repositories
    (Date_getTime : string -> Z)
    (repos : list (list Issue * list PullRequest)) :
  let results :=
    map (fun r => calculateHealthScore Date_getTime (fst r) (snd r)) repos in
  exists k : Z,
    score (calculateAverageHealthScore results) = inject_Z k /\
    (0 <= k <= 100)%Z.
Proof.
  cbv zeta. destruct repos as [|r0 repos].
  - exists 0%Z. split; [reflexivity | lia].
  - simpl map.
    set (h := calculateHealthScore Date_getTime (fst r0) (snd r0)).
    set (hss := map _ repos).
    destruct (average_unfold h hss) as (Hs & _). cbv zeta in Hs.
    exists (Math_round (sumQ score (h :: hss) / inject_Z (len (h :: hss)))).
    split; [exact Hs|].
    apply Math_round_between.
    apply mean_bounds. intros y [<-|Hy].
    + apply healthScore_score_bounds.
    + unfold hss in Hy. apply in_map_iff in Hy.
      destruct Hy as (r & <- & _). apply healthScore_score_bounds.
Qed.

End HealthScoreMore.


(** ** Fetch client: decisive answers, back-off, waiting *)

Section FetchMore.

Import Api.
Local Open Scope string_scope.
Local Open Scope Z_scope.

Context {Body : Type}.
Variable network : Url -> nat -> Response Body.
Variable latency : Url -> nat -> Z.
Variable parseInt : string -> option Z.

Lemma requestCount_afterFailure retries i (r : Response Body) w1 :
  requestCount (afterFailure parseInt retries i r w1) = requestCount w1.
Proof. now rewrite !requestCount_requests, requests_afterFailure. Qed.

(** Answers that are retried are passed over one by one. *)
Lemma loop_skips_retried url retries (k : nat) :
  forall left i w,
    (forall j, (j < k)%nat -> retried (network url (requestCount w + j)%nat)) ->
    exists w' : World,
      fetchWithRetry_loop network latency parseInt url retries (k + left) i w
      = fetchWithRetry_loop network latency parseInt url retries left
          (i + k) w' /\
      requestCount w' = (requestCount w + k)%nat.
Proof.
  induction k as [|k IH]; intros left i w H.
  - exists w. rewrite !Nat.add_0_r. split; reflexivity.
  - cbn [Nat.add]. rewrite loop_step. cbv zeta.
    destruct (H 0%nat ltac:(lia)) as [Hok H404].
    rewrite Nat.add_0_r in Hok, H404.
    rewrite Hok. apply Z.eqb_neq in H404. rewrite H404, orb_true_r.
    set (w2 := afterFailure _ _ _ _ _).
    assert (Hc : requestCount w2 = S (requestCount w)).
    { unfold w2. rewrite requestCount_afterFailure.
      apply requestCount_fetch. }
    destruct (IH left (S i) w2) as (w' & E & Hc').
    + intros j Hj. rewrite Hc.
      replace (S (requestCount w) + j)%nat
        with (requestCount w + S j)%nat by lia.
      apply H. lia.
    + exists w'. split.
      * rewrite E. f_equal. lia.
      * rewrite Hc', Hc. lia.
Qed.

(** The first answer that is a success or a 404 decides the call: while
    iterations are left, earlier answers that were neither are retried;
    a success is returned, a 404 is thrown as "Resource not found", in
    both cases without a further request. *)
Theorem fetchWithRetry_first_decisive_answer
    (url : Url) (retries k : nat) (w : World) :
  (k < retries)%nat ->
  (forall j, (j < k)%nat -> retried (network url (requestCount w + j)%nat)) ->
  let answer := network url (requestCount w + k)%nat in
  let result := fetchWithRetry network latency parseInt url retries w in
  (ok answer = true ->
   fst result = Return answer /\
   requestCount (snd result) = (requestCount w + k + 1)%nat) /\
  (status answer = 404 ->
   fst result = Throw ResourceNotFound /\
   requestCount (snd result) = (requestCount w + k + 1)%nat).
Proof.
  intros Hk Hretried. cbv zeta. unfold fetchWithRetry.
  destruct (loop_skips_retried url retries k (retries - k) 0%nat w Hretried)
    as (w' & E & Hc).
  replace (k + (retries - k))%nat with retries in E by lia.
  rewrite E.
  destruct (retries - k)%nat as [|left] eqn:El; [lia|].
  rewrite loop_step. cbv zeta. rewrite Hc.
  pose proof (requestCount_fetch network latency url w') as Hf.
  split.
  - intros Hok.
    assert (H403 : (status (network url (requestCount w + k)%nat) =? 403)
                   = false).
    { unfold ok in Hok. apply andb_true_iff in Hok. lia. }
    rewrite H403, Hok. simpl. split; [reflexivity|].
    rewrite requestCount_requests. unfold requests. simpl.
    rewrite flat_map_app, length_app. simpl.
    rewrite requestCount_requests in Hc. unfold requests in Hc. lia.
  - intros H404.
    assert (Hok : ok (network url (requestCount w + k)%nat) = false)
      by (unfold ok; rewrite H404; reflexivity).
    rewrite H404, Hok. simpl. split; [reflexivity|].
    rewrite requestCount_requests. unfold requests. simpl.
    rewrite flat_map_app, length_app. simpl.
    rewrite requestCount_requests in Hc. unfold requests in Hc. lia.
Qed.

Lemma sleeps_fetch url w :
  sleeps (snd (fetch network latency url w)) = sleeps w.
Proof.
  unfold sleeps, fetch. simpl. rewrite flat_map_app. simpl.
  apply app_nil_r.
Qed.

Lemma sleeps_setTimeout ms w : sleeps (setTimeout ms w) = (sleeps w ++ [ms])%list.
Proof. unfold sleeps, setTimeout. simpl. now rewrite flat_map_app. Qed.

(** What the rate-limit handler does to the world: nothing, or one
    sleep of positive length that ends at the reset time. *)
Lemma handleRateLimit_cases (r : Response Body) (w : World) :
  handleRateLimit parseInt r w = w \/
  exists reset : Z,
    now w < reset * 1000 /\
    handleRateLimit parseInt r w = setTimeout (reset * 1000 - now w) w.
Proof.
  unfold handleRateLimit.
  destruct (X_RateLimit_Remaining r) as [rem|]; [|now left].
  destruct (X_RateLimit_Reset r) as [rst|]; [|now left].
  destruct (_ && _); [|now left].
  destruct (parseInt rst) as [t|]; [|now left].
  destruct (t * 1000 - now w >? 0) eqn:E; [|now left].
  right. exists t. split; [lia | reflexivity].
Qed.

(** When the handler has slept, the clock reads exactly the reset time
    of the header; otherwise it leaves clock and trace alone.  It
    sleeps only for an answer with the remaining quota "0". *)
Theorem handleRateLimit_wakes_at_reset (r : Response Body) (w : World) :
  let w' := handleRateLimit parseInt r w in
  (w' = w \/
   exists (resetTime : string) (reset : Z),
     X_RateLimit_Remaining r = Some "0" /\
     X_RateLimit_Reset r = Some resetTime /\
     parseInt resetTime = Some reset /\
     now w < reset * 1000 /\
     now w' = reset * 1000 /\
     trace w' = (trace w ++ [Sleep (reset * 1000 - now w)])%list) /\
  now w <= now w'.
Proof.
  cbv zeta. unfold handleRateLimit.
  destruct (X_RateLimit_Remaining r) as [rem|]; [|split; [now left | lia]].
  destruct (X_RateLimit_Reset r) as [rst|]; [|split; [now left | lia]].
  destruct (String.eqb rem "0") eqn:Erem; simpl andb;
    [|split; [now left | lia]].
  destruct (negb (String.eqb rst "")); [|split; [now left | lia]].
  destruct (parseInt rst) as [t|] eqn:Et; [|split; [now left | lia]].
  destruct (t * 1000 - now w >? 0) eqn:E; [|split; [now left | lia]].
  apply String.eqb_eq in Erem. subst rem.
  split.
  - right. exists rst, t. repeat split; try reflexivity; try assumption.
    + lia.
    + simpl. lia.
  - simpl. lia.
Qed.

Lemma sleeps_afterFailure retries i (r : Response Body) w1 :
  exists extra : list Z,
    sleeps (afterFailure parseInt retries i r w1) = (sleeps w1 ++ extra)%list /\
    Forall (fun ms => 0 < ms) extra.
Proof.
  unfold afterFailure. destruct (status r =? 403).
  - destruct (handleRateLimit_cases r w1) as [->|(t & Ht & ->)].
    + exists []. split; [now rewrite app_nil_r | constructor].
    + exists [t * 1000 - now w1]. split; [apply sleeps_setTimeout|].
      constructor; [lia | constructor].
  - destruct (Z.of_nat i <? Z.of_nat retries - 1).
    + exists [1000 * (Z.of_nat i + 1)]. split; [apply sleeps_setTimeout|].
      constructor; [lia | constructor].
    + exists []. split; [now rewrite app_nil_r | constructor].
Qed.

(** The client never sleeps for a zero or negative time: every delay
    that a call adds to the trace is positive. *)
Theorem fetchWithRetry_sleeps_positive (url : Url) (retries : nat) (w : World) :
  exists extra : list Z,
    sleeps (snd (fetchWithRetry network latency parseInt url retries w))
    = (sleeps w ++ extra)%list /\
    Forall (fun ms => 0 < ms) extra.
Proof.
  unfold fetchWithRetry. generalize 0%nat as i. generalize retries at 2 as left.
  intros left. revert w.
  induction left as [|left IH]; intros w i.
  - exists []. simpl. split; [now rewrite app_nil_r | constructor].
  - rewrite loop_step. cbv zeta.
    destruct (_ || _).
    + destruct (sleeps_afterFailure retries i (network url (requestCount w))
                  (snd (fetch network latency url w))) as (e1 & E1 & P1).
      destruct (IH (afterFailure parseInt retries i
                      (network url (requestCount w))
                      (snd (fetch network latency url w))) (S i))
        as (e2 & E2 & P2).
      exists (e1 ++ e2)%list. split.
      * rewrite E2, E1, sleeps_fetch. now rewrite app_assoc.
      * apply Forall_app. now split.
    + exists []. split; [|constructor].
      rewrite app_nil_r. destruct (ok _); simpl snd; apply sleeps_fetch.
Qed.

(** The back-off between attempts that fail without a rate limit grows
    by a second each time. *)
Lemma loop_backoff url retries (left : nat) :
  forall i w,
    (i + left = retries)%nat ->
    (forall j, (j < left)%nat ->
       let r := network url (requestCount w + j)%nat in
       retried r /\ status r <> 403) ->
    sleeps (snd (fetchWithRetry_loop network latency parseInt url retries
                   left i w))
    = (sleeps w
         ++ map (fun a => 1000 * (Z.of_nat a + 1)) (seq i (left - 1)))%list.
Proof.
  induction left as [|left IH]; intros i w Hi H.
  - simpl. now rewrite app_nil_r.
  - rewrite loop_step. cbv zeta.
    destruct (H 0%nat ltac:(lia)) as [[Hok H404] H403].
    cbv zeta in *. rewrite Nat.add_0_r in Hok, H404, H403.
    apply Z.eqb_neq in H404, H403.
    rewrite Hok, H404, H403. cbn [orb negb].
    unfold afterFailure. rewrite H403.
    set (w1 := snd (fetch network latency url w)).
    assert (Hc : requestCount w1 = S (requestCount w))
      by apply requestCount_fetch.
    assert (Hnext : forall w2, requestCount w2 = requestCount w1 ->
              forall j, (j < left)%nat ->
                let r := network url (requestCount w2 + j)%nat in
                retried r /\ status r <> 403).
    { intros w2 Hw2 j Hj. rewrite Hw2, Hc.
      replace (S (requestCount w) + j)%nat
        with (requestCount w + S j)%nat by lia.
      apply H. lia. }
    destruct left as [|left'].
    + replace (Z.of_nat i <? Z.of_nat retries - 1) with false
        by (symmetry; lia).
      simpl. rewrite app_nil_r. apply sleeps_fetch.
    + replace (Z.of_nat i <? Z.of_nat retries - 1) with true
        by (symmetry; lia).
      rewrite (IH (S i) (setTimeout (1000 * (Z.of_nat i + 1)) w1));
        [|lia|apply Hnext; apply requestCount_setTimeout].
      rewrite sleeps_setTimeout. unfold w1. rewrite sleeps_fetch.
      rewrite <- app_assoc. f_equal.
      replace (S (S left') - 1)%nat with (S left') by lia.
      replace (S left' - 1)%nat with left' by lia.
      reflexivity.
Qed.

(** When every answer fails without being a 403 or a 404, the call
    waits 1, 2, ... seconds between its attempts, does not wait after
    the last one, and then gives up. *)
Theorem fetchWithRetry_backoff_schedule (url : Url) (retries : nat) (w : World) :
  (forall j, (j < retries)%nat ->
     let r := network url (requestCount w + j)%nat in
     retried r /\ status r <> 403) ->
  let result := fetchWithRetry network latency parseInt url retries w in
  fst result = Throw (FailedAfterRetries url retries) /\
  requestCount (snd result) = (requestCount w + retries)%nat /\
  sleeps (snd result)
  = (sleeps w
       ++ map (fun a => 1000 * (Z.of_nat a + 1)) (seq 0 (retries - 1)))%list.
Proof.
  intros H. cbv zeta. unfold fetchWithRetry.
  destruct (loop_exhausted network latency parseInt url retries retries 0%nat w)
    as [E1 E2].
  { intros j Hj. apply (H j Hj). }
  split; [exact E1|]. split; [exact E2|].
  apply loop_backoff; [lia | exact H].
Qed.

End FetchMore.

Section FetchMoreWitness.

Import Api.
Local Open Scope string_scope.
Local Open Scope Z_scope.

Lemma fetchWithRetry_first_decisive_answer_witness :
  let busy := mkResponse 503 None None tt in
  let fine := mkResponse 200 None None tt in
  let missing := mkResponse 404 None None tt in
  let w := mkWorld 0 [] in
  fst (fetchWithRetry (fun _ n => nth n [busy; fine] missing)
         (fun _ _ => 40) parseInt_decimal "u" 3 w) = Return fine /\
  fst (fetchWithRetry (fun _ n => nth n [busy; busy] missing)
         (fun _ _ => 40) parseInt_decimal "u" 3 w)
  = Throw ResourceNotFound.
Proof.
  cbv zeta. split.
  - destruct (fetchWithRetry_first_decisive_answer
                (fun _ n => nth n [mkResponse 503 None None tt;
                                   mkResponse 200 None None tt]
                                  (mkResponse 404 None None tt))
                (fun _ _ => 40) parseInt_decimal "u" 3 1 (mkWorld 0 []))
      as [Hok _].
    + apply Nat.lt_succ_r, Nat.le_succ_diag_r.
    + intros [|j] Hj; [split; [reflexivity | discriminate]|].
      apply Nat.succ_lt_mono in Hj. inversion Hj.
    + apply Hok. reflexivity.
  - destruct (fetchWithRetry_first_decisive_answer
                (fun _ n => nth n [mkResponse 503 None None tt;
                                   mkResponse 503 None None tt]
                                  (mkResponse 404 None None tt))
                (fun _ _ => 40) parseInt_decimal "u" 3 2 (mkWorld 0 []))
      as [_ H404].
    + apply Nat.lt_succ_diag_r.
    + intros [|[|j]] Hj; try (split; [reflexivity | discriminate]).
      do 2 apply Nat.succ_lt_mono in Hj. inversion Hj.
    + apply H404. reflexivity.
Defined.

Lemma fetchWithRetry_backoff_schedule_witness :
  let busy := mkResponse 500 None None tt in
  let result :=
    fetchWithRetry (fun _ _ => busy) (fun _ _ => 40) parseInt_decimal "u" 3
      (mkWorld 0 []) in
  fst result = Throw (FailedAfterRetries "u" 3) /\
  sleeps (snd result) = [1000; 2000].
Proof.
  cbv zeta.
  destruct (fetchWithRetry_backoff_schedule
              (fun _ _ => mkResponse 500 None None tt)
              (fun _ _ => 40) parseInt_decimal "u" 3 (mkWorld 0 []))
    as (H1 & _ & H3).
  - intros j _. split; [split; [reflexivity | discriminate] | discriminate].
  - split; [exact H1 | exact H3].
Defined.

End FetchMoreWitness.

(** ** The other fetchers: pagination with [catch], 202 answers *)

Section FetchersMore.

Import Api.
Local Open Scope string_scope.
Local Open Scope Z_scope.

Context {A : Type}.
Variable network : Url -> nat -> Response (list A).
Variable latency : Url -> nat -> Z.
Variable parseInt : string -> option Z.
Variable urlOf : Z -> Url.

(** Full pages are collected one request each. *)
Lemma pages_full (full : list (list A)) :
  forall (fuel : nat) (items : list A) (page : Z) (w : World),
    (forall (i : nat) (p : list A),
        nth_error full i = Some p ->
        let r := network (urlOf (page + Z.of_nat i)) (requestCount w + i)%nat in
        ok r = true /\ json r = p) ->
    (forall p, In p full -> Z.of_nat (List.length p) = perPage) ->
    exists w' : World,
      requestCount w' = (requestCount w + List.length full)%nat /\
      fetchPages_loop network latency parseInt urlOf
        (List.length full + fuel) items page w
      = fetchPages_loop network latency parseInt urlOf fuel
          (items ++ List.concat full) (page + Z.of_nat (List.length full)) w'.
Proof.
  induction full as [|p full IH]; intros fuel items page w Hnet Hfull.
  - exists w. simpl. rewrite Nat.add_0_r, Z.add_0_r, app_nil_r.
    split; reflexivity.
  - destruct (Hnet 0%nat p eq_refl) as [Hok Hjson]. cbv zeta in *.
    rewrite Z.add_0_r, Nat.add_0_r in Hok, Hjson.
    assert (Hp : Z.of_nat (List.length p) = perPage)
      by (apply Hfull; now left).
    cbn [List.length Nat.add fetchPages_loop].
    rewrite (fetchWithRetry_ok network latency parseInt _ 2 w Hok), Hjson, Hp.
    change (perPage =? 0) with false. change (perPage <? perPage) with false.
    cbv iota.
    set (w1 := snd (fetch network latency (urlOf page) w)).
    assert (Hc : requestCount w1 = S (requestCount w))
      by apply requestCount_fetch.
    destruct (IH fuel (items ++ p)%list (page + 1) w1) as (w' & Hc' & E).
    + intros i q Hq. rewrite Hc.
      replace (page + 1 + Z.of_nat i) with (page + Z.of_nat (S i)) by lia.
      replace (S (requestCount w) + i)%nat
        with (requestCount w + S i)%nat by lia.
      apply Hnet. exact Hq.
    + intros q Hq. apply Hfull. now right.
    + exists w'. split; [rewrite Hc', Hc; lia|].
      rewrite E. simpl List.concat. rewrite <- app_assoc.
      f_equal. lia.
Qed.

(** After the full pages, a short or empty page ends the walk with
    everything collected. *)
Lemma pages_collected (full : list (list A)) (last : list A)
    (fuel : nat) (w : World) :
  servesPages network urlOf w (full ++ [last]) ->
  (forall p, In p full -> Z.of_nat (List.length p) = perPage) ->
  Z.of_nat (List.length last) < perPage ->
  (List.length full < fuel)%nat ->
  exists w' : World,
    fetchPages_loop network latency parseInt urlOf fuel [] 1 w
    = Some (Return (List.concat full ++ last)%list, w') /\
    requestCount w' = (requestCount w + S (List.length full))%nat.
Proof.
  intros Hserves Hfull Hlast Hfuel.
  destruct (pages_full full (fuel - List.length full) [] 1 w)
    as (w1 & Hc & E).
  { intros i p Hp. rewrite Z.add_comm. apply Hserves.
    rewrite nth_error_app1; [exact Hp|].
    apply nth_error_Some. congruence. }
  { exact Hfull. }
  replace (List.length full + (fuel - List.length full))%nat with fuel in E
    by lia.
  rewrite E. simpl app.
  destruct (fuel - List.length full)%nat as [|fuel'] eqn:Ef; [lia|].
  destruct (Hserves (List.length full) last) as [Hok Hjson].
  { rewrite nth_error_app2, Nat.sub_diag by lia. reflexivity. }
  cbv zeta in *. rewrite <- Hc in Hok, Hjson.
  rewrite Z.add_comm in Hok, Hjson.
  cbn [fetchPages_loop].
  rewrite (fetchWithRetry_ok network latency parseInt _ 2 w1 Hok), Hjson.
  replace (Z.of_nat (List.length last) <? perPage) with true
    by (symmetry; lia).
  pose proof (requestCount_fetch network latency
                (urlOf (1 + Z.of_nat (List.length full))) w1) as Hf.
  eexists. split.
  - destruct (Z.of_nat (List.length last) =? 0) eqn:E0.
    + apply Z.eqb_eq in E0. destruct last; [|simpl in E0; lia].
      rewrite app_nil_r. reflexivity.
    + reflexivity.
  - rewrite Hf, Hc. lia.
Qed.

(** After the full pages, a page whose three attempts all fail makes
    the loop throw. *)
Lemma pages_then_failure (full : list (list A)) (fuel : nat) (w : World) :
  servesPages network urlOf w full ->
  (forall p, In p full -> Z.of_nat (List.length p) = perPage) ->
  (forall j, (j < 3)%nat ->
     retried (network (urlOf (Z.of_nat (List.length full) + 1))
                      (requestCount w + List.length full + j)%nat)) ->
  (List.length full < fuel)%nat ->
  exists w' : World,
    fetchPages_loop network latency parseInt urlOf fuel [] 1 w
    = Some (Throw (FailedAfterRetries
                     (urlOf (Z.of_nat (List.length full) + 1)) 3), w') /\
    requestCount w' = (requestCount w + List.length full + 3)%nat.
Proof.
  intros Hserves Hfull Hfail Hfuel.
  destruct (pages_full full (fuel - List.length full) [] 1 w)
    as (w1 & Hc & E).
  { intros i p Hp. rewrite Z.add_comm. apply Hserves. exact Hp. }
  { exact Hfull. }
  replace (List.length full + (fuel - List.length full))%nat with fuel in E
    by lia.
  rewrite E.
  destruct (fuel - List.length full)%nat as [|fuel'] eqn:Ef; [lia|].
  cbn [fetchPages_loop].
  rewrite (Z.add_comm 1).
  destruct (loop_exhausted network latency parseInt
              (urlOf (Z.of_nat (List.length full) + 1)) 3 3 0%nat w1)
    as [E1 E2].
  { intros j Hj. rewrite Hc. apply (Hfail j Hj). }
  unfold fetchWithRetry.
  destruct (fetchWithRetry_loop _ _ _ _ _ _ _ _) as [out w2].
  simpl in E1, E2. subst out.
  exists w2. split; [reflexivity|]. rewrite E2, Hc. reflexivity.
Qed.

End FetchersMore.

Section FetcherClaims.

Import Api.
Local Open Scope string_scope.
Local Open Scope Z_scope.

(** The loop of [fetchUserRepos] is the page loop at its own URL. *)
Lemma fetchUserRepos_loop_is_page_loop
    (network : Url -> nat -> Response (list GitHubRepo))
    (latency : Url -> nat -> Z) (parseInt : string -> option Z)
    (username : string) (fuel : nat) :
  forall (repos : list GitHubRepo) (page : Z) (w : World),
    fetchUserRepos_loop network latency parseInt fuel username repos page w
    = fetchPages_loop network latency parseInt (userReposUrl username)
        fuel repos page w.
Proof.
  induction fuel as [|fuel IH]; intros repos page w; [reflexivity|].
  cbn [fetchUserRepos_loop fetchPages_loop].
  destruct (fetchWithRetry _ _ _ _ _ _) as [[response|e] w1]; [|reflexivity].
  destruct (_ =? 0); [reflexivity|].
  destruct (_ <? perPage); [reflexivity | apply IH].
Qed.

(** [fetchIssues] gives up everything on a late failure: when some full
    pages have arrived and the three attempts for the next page all
    fail, the result is the empty list, not the pages already
    collected. *)
Theorem fetchIssues_failure_loses_pages
    (network : Url -> nat -> Response (list HealthScore.Issue))
    (latency : Url -> nat -> Z) (parseInt : string -> option Z)
    (owner repo : string) (w : World)
    (full : list (list HealthScore.Issue)) (fuel : nat) :
  servesPages network (issuesUrl owner repo) w full ->
  (forall p, In p full -> List.length p = 100%nat) ->
  (forall j, (j < 3)%nat ->
     retried (network (issuesUrl owner repo (Z.of_nat (List.length full) + 1))
                      (requestCount w + List.length full + j)%nat)) ->
  (List.length full < fuel)%nat ->
  exists w' : World,
    fetchIssues network latency parseInt fuel owner repo w = Some ([], w') /\
    requestCount w' = (requestCount w + List.length full + 3)%nat.
Proof.
  intros Hserves Hfull Hfail Hfuel.
  destruct (pages_then_failure network latency parseInt (issuesUrl owner repo)
              full fuel w) as (w' & E & Hc); try assumption.
  - intros p Hp. rewrite (Hfull p Hp). reflexivity.
  - exists w'. unfold fetchIssues, fetchPagesOrEmpty. rewrite E.
    split; [reflexivity | exact Hc].
Qed.

(** [fetchPullRequests] returns the pages in order, one request each,
    and stops at the first short or empty page. *)
Theorem fetchPullRequests_collects_pages
    (network : Url -> nat -> Response (list HealthScore.PullRequest))
    (latency : Url -> nat -> Z) (parseInt : string -> option Z)
    (owner repo : string) (w : World)
    (full : list (list HealthScore.PullRequest))
    (last : list HealthScore.PullRequest) (fuel : nat) :
  servesPages network (pullsUrl owner repo) w (full ++ [last]) ->
  (forall p, In p full -> List.length p = 100%nat) ->
  (List.length last < 100)%nat ->
  (List.length full < fuel)%nat ->
  exists w' : World,
    fetchPullRequests network latency parseInt fuel owner repo w
    = Some ((List.concat full ++ last)%list, w') /\
    requestCount w' = (requestCount w + S (List.length full))%nat.
Proof.
  intros Hserves Hfull Hlast Hfuel.
  destruct (pages_collected network latency parseInt (pullsUrl owner repo)
              full last fuel w) as (w' & E & Hc); try assumption.
  - intros p Hp. rewrite (Hfull p Hp). reflexivity.
  - unfold perPage. lia.
  - exists w'. unfold fetchPullRequests, fetchPagesOrEmpty. rewrite E.
    split; [reflexivity | exact Hc].
Qed.

(** A 202 answer ("still computing") makes [fetchCommitActivity] wait
    two seconds and ask once more; a second 202 gives the empty series,
    any other success gives its body.  Two requests are made in all. *)
Theorem fetchCommitActivity_accepted
    (network : Url -> nat -> Response (list CommitActivity))
    (latency : Url -> nat -> Z) (parseInt : string -> option Z)
    (owner repo : string) (w : World) :
  let url := commitActivityUrl owner repo in
  let first := network url (requestCount w) in
  let second := network url (S (requestCount w)) in
  let result := fetchCommitActivity network latency parseInt owner repo w in
  status first = 202 ->
  ok second = true ->
  fst result = (if status second =? 202 then [] else json second) /\
  trace (snd result) = (trace w ++ [Fetch url; Sleep 2000; Fetch url])%list.
Proof.
  cbv zeta. intros H202 Hok2.
  unfold fetchCommitActivity, fetchOrEmpty_202.
  set (url := commitActivityUrl owner repo) in *.
  assert (Hok1 : ok (network url (requestCount w)) = true)
    by (unfold ok; rewrite H202; reflexivity).
  rewrite (fetchWithRetry_ok network latency parseInt url 2 w Hok1).
  rewrite H202. cbn [Z.eqb Pos.eqb]. cbv iota.
  set (w2 := setTimeout 2000 (snd (fetch network latency url w))).
  assert (Hc : requestCount w2 = S (requestCount w)).
  { unfold w2. rewrite requestCount_setTimeout.
    apply requestCount_fetch. }
  rewrite <- Hc in Hok2 |- *.
  rewrite (fetchWithRetry_ok network latency parseInt url 2 w2 Hok2).
  destruct (status (network url (requestCount w2)) =? 202);
    (split; [reflexivity|]); simpl; rewrite <- !app_assoc; reflexivity.
Qed.

(** A repository whose contributors cannot be fetched (a 404, or three
    failed attempts) counts as LOW risk with the score 100. *)
Theorem unreachable_contributors_low_risk
    (network : Url -> nat -> Response (list BusFactor.Contributor))
    (latency : Url -> nat -> Z) (parseInt : string -> option Z)
    (owner repo : string) (w : World) :
  let url := contributorsUrl owner repo in
  status (network url (requestCount w)) = 404 \/
  (forall j, (j < 3)%nat -> retried (network url (requestCount w + j)%nat)) ->
  let contributors :=
    fst (fetchContributors network latency parseInt owner repo w) in
  contributors = [] /\
  BusFactor.risk (BusFactor.calculateBusFactor contributors) = BusFactor.LOW /\
  BusFactor.score (BusFactor.calculateBusFactor contributors) = 100%Q.
Proof.
  cbv zeta. intros H.
  assert (E : fst (fetchContributors network latency parseInt owner repo w)
              = []).
  { unfold fetchContributors, fetchOrEmpty.
    destruct H as [H404 | Hfail].
    - unfold fetchWithRetry. rewrite loop_step. cbv zeta.
      assert (Hok : ok (network (contributorsUrl owner repo) (requestCount w))
                    = false) by (unfold ok; rewrite H404; reflexivity).
      rewrite H404, Hok. reflexivity.
    - destruct (loop_exhausted network latency parseInt
                  (contributorsUrl owner repo) 3 3 0%nat w) as [E1 _].
      { intros j Hj. apply (Hfail j Hj). }
      unfold fetchWithRetry.
      destruct (fetchWithRetry_loop _ _ _ _ _ _ _ _) as [out w2].
      simpl in E1. subst out. reflexivity. }
  rewrite E. repeat split.
Qed.

End FetcherClaims.

Section FetcherWitness.

Import Api.
Local Open Scope string_scope.
Local Open Scope nat_scope.

Lemma fetchIssues_failure_loses_pages_witness :
  let page := repeat HealthScore.closedIssue 100 in
  let network := fun (_ : Url) (n : nat) =>
    match n with
    | O => mkResponse 200%Z None None page
    | S _ => mkResponse 500%Z None None []
    end in
  exists w' : World,
    fetchIssues network (fun _ _ => 30%Z) parseInt_decimal 5
      "octocat" "hello" (mkWorld 0%Z []) = Some ([], w') /\
    requestCount w' = 4.
Proof.
  cbv zeta.
  apply (fetchIssues_failure_loses_pages
           (fun (_ : Url) (n : nat) =>
              match n with
              | O => mkResponse 200%Z None None
                       (repeat HealthScore.closedIssue 100)
              | S _ => mkResponse 500%Z None None []
              end)
           (fun _ _ => 30%Z) parseInt_decimal "octocat" "hello"
           (mkWorld 0%Z []) [repeat HealthScore.closedIssue 100] 5).
  - intros [|[|i]] p H; try discriminate H.
    injection H as <-. split; reflexivity.
  - intros p [<-|[]]. reflexivity.
  - intros j _. split; [reflexivity | discriminate].
  - apply Nat.lt_succ_r. repeat constructor.
Defined.

Lemma fetchPullRequests_collects_pages_witness :
  let pr := HealthScore.mkPullRequest 1 1 HealthScore.closed true
              "2024-01-01T00:00:00Z" None (Some "2024-01-02T00:00:00Z") in
  let network := fun (_ : Url) (n : nat) =>
    mkResponse 200%Z None None (nth n [repeat pr 100; [pr; pr]] []) in
  exists w' : World,
    fetchPullRequests network (fun _ _ => 30%Z) parseInt_decimal 5
      "octocat" "hello" (mkWorld 0%Z [])
    = Some ((repeat pr 100 ++ [pr; pr])%list, w') /\
    requestCount w' = 2.
Proof.
  cbv zeta.
  apply (fetchPullRequests_collects_pages
           (fun (_ : Url) (n : nat) =>
              mkResponse 200%Z None None
                (nth n [repeat (HealthScore.mkPullRequest 1 1
                                  HealthScore.closed true
                                  "2024-01-01T00:00:00Z" None
                                  (Some "2024-01-02T00:00:00Z")) 100;
                        [HealthScore.mkPullRequest 1 1
                           HealthScore.closed true
                           "2024-01-01T00:00:00Z" None
                           (Some "2024-01-02T00:00:00Z");
                         HealthScore.mkPullRequest 1 1
                           HealthScore.closed true
                           "2024-01-01T00:00:00Z" None
                           (Some "2024-01-02T00:00:00Z")]] []))
           (fun _ _ => 30%Z) parseInt_decimal "octocat" "hello"
           (mkWorld 0%Z [])
           [repeat (HealthScore.mkPullRequest 1 1 HealthScore.closed true
                      "2024-01-01T00:00:00Z" None
                      (Some "2024-01-02T00:00:00Z")) 100]
           [HealthScore.mkPullRequest 1 1 HealthScore.closed true
              "2024-01-01T00:00:00Z" None (Some "2024-01-02T00:00:00Z");
            HealthScore.mkPullRequest 1 1 HealthScore.closed true
              "2024-01-01T00:00:00Z" None (Some "2024-01-02T00:00:00Z")]
           5).
  - intros [|[|[|i]]] p H; try discriminate H;
      injection H as <-; split; reflexivity.
  - intros p [<-|[]]. reflexivity.
  - apply Nat.lt_succ_r. do 97 apply le_S. apply le_n.
  - apply Nat.lt_succ_r. repeat constructor.
Defined.

Lemma fetchCommitActivity_accepted_witness :
  let series := [mkCommitActivity 1700000000 4 []] in
  let network := fun (_ : Url) (n : nat) =>
    match n with
    | O => mkResponse 202%Z None None []
    | S _ => mkResponse 200%Z None None series
    end in
  fst (fetchCommitActivity network (fun _ _ => 30%Z) parseInt_decimal
         "octocat" "hello" (mkWorld 0%Z [])) = series.
Proof.
  cbv zeta.
  apply (fetchCommitActivity_accepted
           (fun (_ : Url) (n : nat) =>
              match n with
              | O => mkResponse 202%Z None None []
              | S _ => mkResponse 200%Z None None
                         [mkCommitActivity 1700000000 4 []]
              end)
           (fun _ _ => 30%Z) parseInt_decimal "octocat" "hello"
           (mkWorld 0%Z [])); reflexivity.
Defined.

Lemma unreachable_contributors_low_risk_witness :
  let network := fun (_ : Url) (_ : nat) =>
    mkResponse 404%Z None None (@nil BusFactor.Contributor) in
  BusFactor.risk
    (BusFactor.calculateBusFactor
       (fst (fetchContributors network (fun _ _ => 30%Z) parseInt_decimal
               "octocat" "gone" (mkWorld 0%Z []))))
  = BusFactor.LOW.
Proof.
  cbv zeta.
  apply (unreachable_contributors_low_risk
           (fun (_ : Url) (_ : nat) =>
              mkResponse 404%Z None None (@nil BusFactor.Contributor))
           (fun _ _ => 30%Z) parseInt_decimal "octocat" "gone"
           (mkWorld 0%Z [])).
  left. reflexivity.
Defined.

End FetcherWitness.

(** ** Commit statistics: conservation, the look-back window, inactivity *)

Section AggregatorMore.

Import JS CommitStats.
Local Open Scope Z_scope.

Lemma sumZ_zero {A} (xs : list A) : sumZ (fun _ => 0) xs = 0.
Proof.
  induction xs as [|x xs IH]; [reflexivity|]. now rewrite sumZ_cons, IH.
Qed.

Lemma sumZ_ones {A} (xs : list A) :
  sumZ (fun _ => 1) xs = Z.of_nat (List.length xs).
Proof.
  induction xs as [|x xs IH]; [reflexivity|].
  rewrite sumZ_cons, IH. cbn [List.length]. lia.
Qed.

Lemma sumZ_plus {A} (f g : A -> Z) (xs : list A) :
  sumZ (fun x => f x + g x) xs = sumZ f xs + sumZ g xs.
Proof.
  induction xs as [|x xs IH]; [reflexivity|].
  rewrite !sumZ_cons, IH. lia.
Qed.

Lemma sumZ_indicator (k0 c : Z) (ks : list Z) :
  NoDup ks -> In k0 ks ->
  sumZ (fun k => if k0 =? k then c else 0) ks = c.
Proof.
  induction ks as [|k ks IH]; intros Hnd Hin; [contradiction|].
  inversion Hnd as [|? ? Hnotin Hnd']; subst.
  rewrite sumZ_cons. destruct (k0 =? k) eqn:E.
  - apply Z.eqb_eq in E. subst k.
    assert (Hz : sumZ (fun k => if k0 =? k then c else 0) ks = 0).
    { transitivity (sumZ (fun _ : Z => 0) ks); [|apply sumZ_zero].
      apply sumZ_ext_in. intros k Hk.
      destruct (k0 =? k) eqn:E; [|reflexivity].
      apply Z.eqb_eq in E. subst. contradiction. }
    rewrite Hz. lia.
  - apply Z.eqb_neq in E. destruct Hin as [->|Hin]; [contradiction|].
    rewrite (IH Hnd' Hin). lia.
Qed.

(** Summing week by week over distinct weeks that cover the entries is
    summing over the entries. *)
Lemma sum_by_week (f : string * Api.CommitActivity -> Z)
    (ks : list Z) (es : list (string * Api.CommitActivity)) :
  NoDup ks ->
  (forall e, In e es -> In (weekKey e) ks) ->
  sumZ (fun k => sumZ f (entriesOfWeek k es)) ks = sumZ f es.
Proof.
  intros Hnd. induction es as [|e es IH]; intros Hcover.
  - unfold entriesOfWeek. simpl. apply sumZ_zero.
  - rewrite sumZ_cons, <- IH by (intros; apply Hcover; now right).
    rewrite <- (sumZ_indicator (weekKey e) (f e) ks Hnd)
      by (apply Hcover; now left).
    rewrite <- sumZ_plus. apply sumZ_ext_in. intros k _.
    unfold entriesOfWeek. simpl.
    destruct (weekKey e =? k); [now rewrite sumZ_cons | lia].
Qed.

(** No commit is lost or counted twice: the totals of the timeline add
    up to the totals of all weekly entries of all repositories, and the
    repository counts add up to the number of entries. *)
Theorem aggregateCommitActivity_conserves
    (repoCommitData : list RepoCommitData) :
  let timeline := aggregateCommitActivity repoCommitData in
  sumZ totalCommits timeline
  = sumZ (fun e => Api.total (snd e)) (entries repoCommitData) /\
  sumZ repoCount timeline
  = Z.of_nat (List.length (entries repoCommitData)).
Proof.
  unfold aggregateCommitActivity. cbv zeta.
  set (weekMap := fold_left _ repoCommitData _).
  set (es := entries repoCommitData).
  assert (Hinv : weekMapOf weekMap es).
  { apply (outer_forEach_weekMapOf repoCommitData [] []).
    split; [constructor|]. split; [intros ? ? []|intros ? []]. }
  destruct Hinv as (Hnd & Hval & Hkeys).
  assert (Hvalues : forall g : CommitTimelineData -> Z,
            sumZ g (Array_sort (fun a b => week a - week b)
                      (Map_values weekMap))
            = sumZ (fun k => g (summary k es)) (map fst weekMap)).
  { intros g.
    rewrite (Permutation_sumZ g _ _ (Array_sort_perm week _)).
    unfold Map_values. rewrite !sumZ_map. apply sumZ_ext_in.
    intros [k v] Hin. destruct (Hval k v Hin) as [-> _]. reflexivity. }
  split.
  - rewrite Hvalues. cbn [summary totalCommits].
    now apply sum_by_week.
  - rewrite Hvalues. cbn [summary repoCount].
    rewrite <- sumZ_ones, <- (sum_by_week (fun _ => 1) (map fst weekMap) es)
      by assumption.
    apply sumZ_ext_in. intros k _.
    now rewrite length_map, sumZ_ones.
Qed.

End AggregatorMore.

Section ActivityMore.

Import JS CommitStats.
Local Open Scope R_scope.

Lemma Math_round_mono (x y : R) :
  x <= y -> (CommitStats.Math_round x <= CommitStats.Math_round y)%Z.
Proof.
  intros H. unfold CommitStats.Math_round.
  destruct (base_Int_part (x + / 2)) as [Hx _].
  destruct (base_Int_part (y + / 2)) as [_ Hy].
  assert (Hlt : IZR (Int_part (x + / 2)) < IZR (Int_part (y + / 2) + 1)).
  { rewrite plus_IZR. lra. }
  apply lt_IZR in Hlt. lia.
Qed.

Lemma Math_round_lower (x : R) (k : Z) :
  IZR k - / 2 <= x -> (k <= CommitStats.Math_round x)%Z.
Proof.
  intros H. unfold CommitStats.Math_round.
  destruct (base_Int_part (x + / 2)) as [_ Hx].
  assert (Hlt : IZR k < IZR (Int_part (x + / 2) + 1)).
  { rewrite plus_IZR. lra. }
  apply lt_IZR in Hlt. lia.
Qed.

Lemma Math_log10_mono (x y : R) :
  0 < x -> x <= y -> Math_log10 x <= Math_log10 y.
Proof.
  intros Hx Hxy. unfold Math_log10.
  pose proof ln_10_pos as H10. pose proof (ln_le_mono x y Hx Hxy) as Hln.
  apply (Rmult_le_reg_r (ln 10)); [assumption|].
  rewrite !div_mul_cancel by assumption. exact Hln.
Qed.

(** The mean of weeks that all have commits is at least 1. *)
Lemma average_ge_1 (recent : list Api.CommitActivity) :
  recent <> [] ->
  (forall a, In a recent -> (0 < Api.total a)%Z) ->
  1 <= IZR (sumZ Api.total recent) / INR (List.length recent).
Proof.
  intros Hne Hpos.
  pose proof (sumZ_positive_weeks recent Hpos) as Hsum.
  assert (Hlen : 0 < INR (List.length recent)).
  { apply lt_0_INR. destruct recent; [contradiction | simpl; lia]. }
  apply (Rmult_le_reg_r (INR (List.length recent))); [assumption|].
  rewrite div_mul_cancel by assumption.
  rewrite INR_IZR_INZ, Rmult_1_l. now apply IZR_le.
Qed.

Lemma recent_positive (activities : list Api.CommitActivity) (n : nat) :
  forall a,
    In a (filter (fun a => (Api.total a >? 0)%Z) (lastN n activities)) ->
    (0 < Api.total a)%Z.
Proof. intros a Ha. apply filter_In in Ha. destruct Ha as [_ Ha]. lia. Qed.

(** The score tells whether there was any commit in the window: it is 0
    exactly when none of the last 12 entries has commits, and at least
    6 (and at most 100) otherwise. *)
Theorem activityScore_zero_or_at_least_6
    (activities : list Api.CommitActivity) :
  let recent :=
    filter (fun a => (Api.total a >? 0)%Z) (lastN 12 activities) in
  let score := calculateActivityScore activities 12 in
  (recent = [] -> score = 0%Z) /\
  (recent <> [] -> (6 <= score <= 100)%Z).
Proof.
  cbv zeta. rewrite activityScore_unfold.
  pose proof (recent_positive activities 12) as Hpos.
  destruct (filter _ _) as [|a l] eqn:E.
  - split; [reflexivity | intros H; now contradiction H].
  - split; [discriminate|]. intros _. cbv iota zeta beta.
    pose proof (average_ge_1 (a :: l) ltac:(discriminate) Hpos) as Havg.
    set (avg := IZR (sumZ Api.total (a :: l)) / INR (List.length (a :: l)))
      in *.
    split.
    + apply Math_round_lower.
      assert (Hlog : INR 11 / INR 40 <= Math_log10 (avg + 1)).
      { apply log10_lower; [lra | lia |].
        apply Rle_trans with (2 ^ 40).
        - replace 2 with (IZR 2) by reflexivity.
          rewrite !pow_IZR. apply IZR_le. vm_compute. discriminate.
        - apply pow_incr. lra. }
      rewrite !INR_IZR_INZ in Hlog. simpl Z.of_nat in Hlog.
      apply Rmin_case_strong; intros; lra.
    + apply Math_round_le. apply Rmin_l.
Qed.

Lemma activityScore_zero_or_at_least_6_witness :
  let wk t := Api.mkCommitActivity 0 t [] in
  (6 <= calculateActivityScore [wk 0; wk 1; wk 0]%Z 12 <= 100)%Z /\
  calculateActivityScore [wk 0; wk 0]%Z 12 = 0%Z.
Proof.
  cbv zeta.
  pose proof (activityScore_zero_or_at_least_6
                (map (fun t => Api.mkCommitActivity 0 t []) [0; 1; 0]%Z)) as H1.
  pose proof (activityScore_zero_or_at_least_6
                (map (fun t => Api.mkCommitActivity 0 t []) [0; 0]%Z)) as H2.
  cbv zeta in H1, H2. split.
  - apply H1. discriminate.
  - apply H2. reflexivity.
Defined.

(** More commits per active week never lower the score. *)
Theorem activityScore_monotone
    (activities activities' : list Api.CommitActivity) :
  let recent :=
    filter (fun a => (Api.total a >? 0)%Z) (lastN 12 activities) in
  let recent' :=
    filter (fun a => (Api.total a >? 0)%Z) (lastN 12 activities') in
  recent <> [] -> recent' <> [] ->
  IZR (sumZ Api.total recent) / INR (List.length recent)
  <= IZR (sumZ Api.total recent') / INR (List.length recent') ->
  (calculateActivityScore activities 12
   <= calculateActivityScore activities' 12)%Z.
Proof.
  cbv zeta. rewrite !activityScore_unfold.
  pose proof (recent_positive activities 12) as Hpos.
  destruct (filter _ (lastN 12 activities)) as [|a l];
    [intros H; now contradiction H|].
  destruct (filter _ (lastN 12 activities')) as [|a' l'];
    [intros _ H; now contradiction H|].
  intros _ _ Hle. cbv iota zeta beta.
  pose proof (average_ge_1 (a :: l) ltac:(discriminate) Hpos) as Havg.
  apply Math_round_mono.
  apply Rle_min_compat_l.
  apply Rmult_le_compat_r; [lra|].
  apply Math_log10_mono; lra.
Qed.

Lemma activityScore_monotone_witness :
  let wk t := Api.mkCommitActivity 0 t [] in
  (calculateActivityScore [wk 3; wk 0; wk 5]%Z 12
   <= calculateActivityScore [wk 40; wk 12]%Z 12)%Z.
Proof.
  cbv zeta.
  apply (activityScore_monotone
           (map (fun t => Api.mkCommitActivity 0 t []) [3; 0; 5]%Z)
           (map (fun t => Api.mkCommitActivity 0 t []) [40; 12]%Z)).
  - discriminate.
  - discriminate.
  - cbn. lra.
Defined.

Lemma lastN_app {A} (n : nat) (old recent : list A) :
  (n <= List.length recent)%nat ->
  lastN n (old ++ recent) = lastN n recent.
Proof.
  intros H. unfold lastN. rewrite length_app, skipn_app.
  rewrite skipn_all2 by lia. simpl. f_equal. lia.
Qed.

(** Only the look-back window counts: entries older than the last 12
    do not change the score. *)
Theorem activityScore_ignores_older_weeks
    (old recent : list Api.CommitActivity) :
  (12 <= List.length recent)%nat ->
  calculateActivityScore (old ++ recent) 12
  = calculateActivityScore recent 12.
Proof.
  intros H. rewrite !activityScore_unfold, lastN_app by assumption.
  reflexivity.
Qed.

Lemma activityScore_ignores_older_weeks_witness :
  let wk t := Api.mkCommitActivity 0 t [] in
  let recent := map wk [1; 2; 3; 4; 5; 6; 7; 8; 9; 10; 11; 12]%Z in
  calculateActivityScore ([wk 900; wk 800]%Z ++ recent) 12
  = calculateActivityScore recent 12.
Proof.
  cbv zeta.
  apply (activityScore_ignores_older_weeks
           (map (fun t => Api.mkCommitActivity 0 t []) [900; 800]%Z)
           (map (fun t => Api.mkCommitActivity 0 t [])
                [1; 2; 3; 4; 5; 6; 7; 8; 9; 10; 11; 12]%Z)).
  apply le_n.
Defined.

(** A look-back of 0 does not mean "no weeks": [slice(-0)] is the whole
    array, so the score is that of the whole series. *)
Theorem activityScore_lookback_zero (activities : list Api.CommitActivity) :
  calculateActivityScore activities 0
  = calculateActivityScore activities (Z.of_nat (List.length activities)).
Proof.
  unfold calculateActivityScore.
  assert (E0 : Array_slice (- 0) activities = activities).
  { unfold Array_slice. change (- 0 <? 0)%Z with false. cbv iota zeta.
    replace (Z.to_nat _) with 0%nat by lia. reflexivity. }
  assert (E1 : Array_slice (- Z.of_nat (List.length activities)) activities
               = activities).
  { unfold Array_slice.
    destruct (- Z.of_nat (List.length activities) <? 0)%Z eqn:E.
    - replace (Z.to_nat _) with 0%nat by lia. reflexivity.
    - replace (Z.to_nat _) with 0%nat by lia. reflexivity. }
  rewrite E0, E1. reflexivity.
Qed.

(** Inactivity only sets in as time passes: a series that is inactive
    at some time is inactive at every later time, and a series with a
    week of commits inside the last 90 days is not inactive. *)
Theorem isInactive_over_time
    (now now' : Z) (activities : list Api.CommitActivity) :
  (now <= now')%Z ->
  (isInactive now activities = true -> isInactive now' activities = true) /\
  (forall a, In a activities -> (0 < Api.total a)%Z ->
             (now - 7776000000 <= Api.week a * 1000)%Z ->
             isInactive now activities = false).
Proof.
  intros Hle. unfold isInactive.
  destruct activities as [|a0 l]; [split; [reflexivity | intros ? []]|].
  set (xs := a0 :: l).
  change (90 * 24 * 60 * 60 * 1000)%Z with 7776000000%Z.
  split.
  - intros H. apply Z.eqb_eq in H. apply Z.eqb_eq.
    assert (Hnil : filter (fun a => (Api.week a * 1000 >=? now - 7776000000)%Z
                                    && (Api.total a >? 0)%Z) xs = [])
      by (destruct (filter _ xs); [reflexivity | simpl in H; lia]).
    replace (filter _ xs) with (@nil Api.CommitActivity); [reflexivity|].
    symmetry. clear H. induction xs as [|a xs IH]; [reflexivity|].
    simpl in Hnil |- *.
    destruct ((Api.week a * 1000 >=? now - 7776000000)%Z
              && (Api.total a >? 0)%Z)%bool eqn:E; [discriminate|].
    replace ((Api.week a * 1000 >=? now' - 7776000000)%Z
             && (Api.total a >? 0)%Z)%bool with false.
    + now apply IH.
    + symmetry. apply andb_false_iff. apply andb_false_iff in E. lia.
  - intros a Ha Hpos Hrecent. apply Z.eqb_neq.
    assert (Hin : In a (filter
                          (fun a => (Api.week a * 1000 >=? now - 7776000000)%Z
                                    && (Api.total a >? 0)%Z) xs)).
    { apply filter_In. split; [exact Ha|]. apply andb_true_iff. lia. }
    destruct (filter _ xs); [contradiction | simpl; lia].
Qed.

Lemma isInactive_over_time_witness :
  let series := [Api.mkCommitActivity 1700000000 3 []] in
  isInactive 1700000000000 series = false /\
  (isInactive 1800000000000 series = true ->
   isInactive 1900000000000 series = true).
Proof.
  cbv zeta. split.
  - destruct (isInactive_over_time 1700000000000 1700000000000
                [Api.mkCommitActivity 1700000000 3 []]) as [_ H].
    + apply Z.le_refl.
    + apply (H (Api.mkCommitActivity 1700000000 3 [])).
      * now left.
      * reflexivity.
      * discriminate.
  - destruct (isInactive_over_time 1800000000000 1900000000000
                [Api.mkCommitActivity 1700000000 3 []]) as [H _].
    + discriminate.
    + exact H.
Defined.

End ActivityMore.

(* ================================================================= *)
(** ** The stress score of a commit set *)

Section StressMore.

Import JS Stress.
Local Open Scope string_scope.
Local Open Scope Q_scope.

Lemma scoreCommit_sum (avgFiles : Q) (c : CommitData) :
  stressScore (scoreCommit avgFiles c)
  == (if hasMessageStress (toLowerCase (message c)) then 0.4 else 0)
     + (if isFileSpike avgFiles c then 0.35 else 0)
     + (if isNightAggressive avgFiles c then 0.25 else 0).
Proof.
  unfold scoreCommit. cbn [stressScore].
  destruct (hasMessageStress _), (isFileSpike _ _), (isNightAggressive _ _);
    reflexivity.
Qed.

Lemma calculateStressScore_length (commits : list CommitData) :
  List.length (calculateStressScore commits) = List.length commits.
Proof.
  unfold calculateStressScore. destruct commits; [reflexivity|].
  apply length_map.
Qed.

(** Every commit keeps its place and its data; its score is the sum of
    the weights of the indicators that fire (0.4 for a stress keyword,
    0.35 for a file spike, 0.25 for a large night commit), so the final
    [Math.min] with 1.0 never cuts anything off and the score lies
    between 0 and 1.  For a message of ASCII characters the keyword
    indicator is the search for a keyword in the message with A-Z
    lowered. *)
Theorem stressScore_is_indicator_sum
    (commits : list CommitData) (i : nat) (c : CommitData) :
  nth_error commits i = Some c ->
  List.length (calculateStressScore commits) = List.length commits /\
  exists (c' : CommitData) (keyword : bool),
    nth_error (calculateStressScore commits) i = Some c' /\
    (sha c' = sha c /\ message c' = message c /\ date c' = date c /\
     filesCount c' = filesCount c /\ additions c' = additions c /\
     deletions c' = deletions c /\ hour c' = hour c /\
     repo c' = repo c /\ url c' = url c) /\
    stressScore c'
    == (if keyword then 0.4 else 0)
       + (if isFileSpike (averageFiles commits) c then 0.35 else 0)
       + (if isNightAggressive (averageFiles commits) c then 0.25 else 0) /\
    (isAscii (message c) = true ->
     keyword = hasMessageStress (toLowerCase (message c))) /\
    0 <= stressScore c' <= 1.
Proof.
  intros Hnth. split; [apply calculateStressScore_length|].
  exists (scoreCommit (averageFiles commits) c),
         (hasMessageStress (toLowerCase (message c))).
  split; [now apply calculateStressScore_nth|].
  split; [repeat split|].
  pose proof (scoreCommit_sum (averageFiles commits) c) as E.
  split; [exact E|].
  split; [reflexivity|].
  rewrite E.
  destruct (hasMessageStress _), (isFileSpike _ _), (isNightAggressive _ _);
    split; lra.
Qed.

Lemma stressScore_is_indicator_sum_witness :
  let c := {| sha := "a1b2c3d"; message := "Quick fix"; date := "";
              filesCount := 9; additions := 0; deletions := 0; hour := 23;
              stressScore := 0; repo := "r"; url := "" |} in
  let d := {| sha := "e4f5a6b"; message := "Add docs"; date := "";
              filesCount := 1; additions := 0; deletions := 0; hour := 12;
              stressScore := 0; repo := "r"; url := "" |} in
  exists c' : CommitData,
    nth_error (calculateStressScore [c; d]) 0 = Some c' /\
    stressScore c' == 0.65 /\
    0 <= stressScore c' <= 1.
Proof.
  cbv zeta.
  pose proof (stressScore_is_indicator_sum
    [ {| sha := "a1b2c3d"; message := "Quick fix"; date := "";
         filesCount := 9; additions := 0; deletions := 0; hour := 23;
         stressScore := 0; repo := "r"; url := "" |};
      {| sha := "e4f5a6b"; message := "Add docs"; date := "";
         filesCount := 1; additions := 0; deletions := 0; hour := 12;
         stressScore := 0; repo := "r"; url := "" |} ] 0%nat _ eq_refl) as H.
  destruct H as (_ & c' & keyword & Hn & _ & Hs & Hk & Hr).
  exists c'. split; [exact Hn|]. split; [|exact Hr].
  pose proof (Hk ltac:(reflexivity)) as K.
  rewrite Hs, K. vm_compute. reflexivity.
Defined.

Lemma averageFiles_scored (avgFiles : Q) (commits : list CommitData) :
  averageFiles (map (scoreCommit avgFiles) commits) = averageFiles commits.
Proof.
  unfold averageFiles, len. rewrite sumZ_map, length_map. reflexivity.
Qed.

Lemma scoreCommit_scored (avgFiles avgFiles' : Q) (c : CommitData) :
  scoreCommit avgFiles (scoreCommit avgFiles' c) = scoreCommit avgFiles c.
Proof. reflexivity. Qed.

(** Scoring is idempotent: the score already stored on a commit is
    ignored and the mean file count is unchanged by scoring, so scoring
    a scored list again returns the same list. *)
Theorem calculateStressScore_idempotent (commits : list CommitData) :
  calculateStressScore (calculateStressScore commits)
  = calculateStressScore commits.
Proof.
  destruct commits as [|c cs]; [reflexivity|].
  unfold calculateStressScore at 2. cbv zeta.
  set (l := c :: cs). set (avg := averageFiles l).
  unfold calculateStressScore.
  change (map (scoreCommit avg) l)
    with (scoreCommit avg c :: map (scoreCommit avg) cs) at 1.
  cbv iota zeta.
  change (scoreCommit avg c :: map (scoreCommit avg) cs)
    with (map (scoreCommit avg) l).
  rewrite averageFiles_scored. fold avg.
  rewrite map_map. apply map_ext. intros a. apply scoreCommit_scored.
Qed.

Lemma sumZ_const {A} (f : A -> Z) (k : Z) (xs : list A) :
  Forall (fun x => f x = k) xs -> sumZ f xs = (len xs * k)%Z.
Proof.
  unfold len. induction 1 as [|x xs Hx _ IH]; [reflexivity|].
  rewrite sumZ_cons, IH, Hx. cbn [List.length]. lia.
Qed.

Lemma averageFiles_const (k : Z) (commits : list CommitData) :
  commits <> [] ->
  Forall (fun c => filesCount c = k) commits ->
  averageFiles commits == inject_Z k.
Proof.
  intros Hne Hall. unfold averageFiles. rewrite (sumZ_const _ k) by assumption.
  assert (0 < len commits)%Z by (destruct commits; [congruence | apply len_cons]).
  rewrite inject_Z_mult. field.
  intros E. unfold Qeq in E. simpl in E. lia.
Qed.

(** When every commit touches the same number of files (in particular
    when no file counts are known and all are 0), neither the file
    spike nor the night indicator can fire: a commit scores 0 or 0.4,
    whatever its hour; for a message of ASCII characters, 0.4 exactly
    when the message with A-Z lowered has a stress keyword. *)
Theorem stressScore_uniform_file_counts
    (commits : list CommitData) (k : Z) (c' : CommitData) :
  (0 <= k)%Z ->
  Forall (fun c => filesCount c = k) commits ->
  In c' (calculateStressScore commits) ->
  (stressScore c' == 0 \/ stressScore c' == 0.4) /\
  (isAscii (message c') = true ->
   stressScore c'
   == (if hasMessageStress (toLowerCase (message c')) then 0.4 else 0)).
Proof.
  intros Hk Hall Hin.
  destruct commits as [|c0 cs]; [destruct Hin|].
  set (l := c0 :: cs) in *.
  assert (Havg : averageFiles l == inject_Z k)
    by (apply averageFiles_const; [discriminate | assumption]).
  unfold calculateStressScore in Hin. fold l in Hin. cbv zeta in Hin.
  change (match l with [] => l | _ :: _ => map (scoreCommit (averageFiles l)) l end)
    with (map (scoreCommit (averageFiles l)) l) in Hin.
  apply in_map_iff in Hin. destruct Hin as (c & <- & Hc).
  rewrite scoreCommit_sum.
  change (message (scoreCommit (averageFiles l) c)) with (message c).
  assert (Hf : filesCount c = k)
    by (rewrite Forall_forall in Hall; now apply Hall).
  assert (Hk' : 0 <= inject_Z k)
    by (unfold Qle; simpl; lia).
  assert (S1 : isFileSpike (averageFiles l) c = false).
  { unfold isFileSpike. apply gt_false. rewrite Hf, Havg. lra. }
  assert (S2 : isNightAggressive (averageFiles l) c = false).
  { unfold isNightAggressive. apply andb_false_iff. right.
    apply gt_false. rewrite Hf, Havg. lra. }
  rewrite S1, S2.
  destruct (hasMessageStress _); (split; [|intros _; reflexivity]);
    [right | left]; reflexivity.
Qed.

Lemma stressScore_uniform_file_counts_witness :
  let c := {| sha := "a1b2c3d"; message := "Hotfix login"; date := "";
              filesCount := 0; additions := 0; deletions := 0; hour := 2;
              stressScore := 0; repo := "r"; url := "" |} in
  let d := {| sha := "e4f5a6b"; message := "Add docs"; date := "";
              filesCount := 0; additions := 0; deletions := 0; hour := 23;
              stressScore := 0; repo := "r"; url := "" |} in
  exists c' : CommitData,
    nth_error (calculateStressScore [c; d]) 0 = Some c' /\
    stressScore c' == 0.4.
Proof.
  intros c d. exists (scoreCommit (averageFiles [c; d]) c).
  split; [reflexivity|].
  refine (proj2 (stressScore_uniform_file_counts [c; d] 0%Z
                   (scoreCommit (averageFiles [c; d]) c) _ _ _) _);
    [lia | repeat constructor | left; reflexivity | reflexivity].
Defined.

End StressMore.

(* ================================================================= *)
(** ** The capped repository walker of the stress analyzer *)

Section CappedWalker.

Import Api StressFetch.
Local Open Scope Z_scope.
Local Open Scope list_scope.

Variable network : Url -> nat -> Response (list GitHubRepo).
Variable latency : Url -> nat -> Z.

Lemma capped_loop_step (left : nat) (username : string)
    (repos : list GitHubRepo) (page : Z) (w : World) :
  let response := network (reposUrl username page) (requestCount w) in
  let w1 := snd (fetch network latency (reposUrl username page) w) in
  fetchUserRepos_loop network latency (S left) username repos page w
  = if negb (ok response) then (repos, w1)
    else if Z.of_nat (List.length (json response)) =? 0 then (repos, w1)
    else fetchUserRepos_loop network latency left username
           (repos ++ json response) (page + 1) (setTimeout 500 w1).
Proof. reflexivity. Qed.

Lemma length_zero_iff {A} (xs : list A) :
  (Z.of_nat (List.length xs) =? 0) = true <-> xs = [].
Proof.
  destruct xs; cbn [List.length]; split; intros H;
    try reflexivity; discriminate.
Qed.

(** The walker asks for at most two pages, whatever the remote holds.
    A failed or empty first page gives no repositories after one
    request; a failed or empty second page gives the first page after
    two requests; otherwise the result is the first two pages and the
    walker stops, with a 500 ms pause after each page it kept. *)
Theorem capped_fetchUserRepos_two_pages (username : string) (w : World) :
  let u1 := reposUrl username 1 in
  let u2 := reposUrl username 2 in
  let r1 := network u1 (requestCount w) in
  let r2 := network u2 (S (requestCount w)) in
  let res := fetchUserRepos network latency username w in
  (requestCount (snd res) <= requestCount w + 2)%nat /\
  (ok r1 = false \/ json r1 = [] ->
   fst res = [] /\ trace (snd res) = trace w ++ [Fetch u1]) /\
  (ok r1 = true -> json r1 <> [] ->
   (ok r2 = false \/ json r2 = [] ->
    fst res = json r1 /\
    trace (snd res) = trace w ++ [Fetch u1; Sleep 500; Fetch u2]) /\
   (ok r2 = true -> json r2 <> [] ->
    fst res = json r1 ++ json r2 /\
    trace (snd res)
    = trace w ++ [Fetch u1; Sleep 500; Fetch u2; Sleep 500])).
Proof.
  cbv zeta. unfold fetchUserRepos.
  rewrite capped_loop_step. cbv zeta.
  set (u1 := reposUrl username 1). set (u2 := reposUrl username 2).
  set (r1 := network u1 (requestCount w)).
  set (w1 := snd (fetch network latency u1 w)).
  assert (C1 : requestCount w1 = S (requestCount w))
    by apply requestCount_fetch.
  assert (T1 : trace w1 = trace w ++ [Fetch u1]) by reflexivity.
  destruct (ok r1) eqn:O1; cbn [negb].
  2:{ cbn [fst snd]. split; [lia|]. split; [intros _; now split|].
      intros H; discriminate. }
  destruct (Z.of_nat (List.length (json r1)) =? 0) eqn:L1.
  { apply length_zero_iff in L1. cbn [fst snd].
    split; [lia|]. split; [intros _; now split|].
    intros _ H; contradiction. }
  assert (N1 : json r1 <> []).
  { intros E. apply length_zero_iff in E. congruence. }
  rewrite capped_loop_step. cbv zeta.
  change (1 + 1)%Z with 2%Z. fold u2.
  set (w2 := setTimeout 500 w1).
  assert (C2 : requestCount w2 = S (requestCount w))
    by (unfold w2; now rewrite requestCount_setTimeout).
  rewrite C2. set (r2 := network u2 (S (requestCount w))).
  set (w3 := snd (fetch network latency u2 w2)).
  assert (C3 : requestCount w3 = S (S (requestCount w)))
    by (unfold w3; now rewrite requestCount_fetch, C2).
  assert (T3 : trace w3 = trace w ++ [Fetch u1; Sleep 500; Fetch u2]).
  { unfold w3, w2. cbn [fetch snd trace setTimeout]. rewrite T1.
    now rewrite <- !app_assoc. }
  cbn [app].
  destruct (ok r2) eqn:O2; cbn [negb].
  2:{ cbn [fst snd]. split; [lia|]. split; [intros [H|H]; congruence|].
      intros _ _. split; [intros _; now split|]. intros H; discriminate. }
  destruct (Z.of_nat (List.length (json r2)) =? 0) eqn:L2.
  { apply length_zero_iff in L2. cbn [fst snd].
    split; [lia|]. split; [intros [H|H]; congruence|].
    intros _ _. split; [intros _; now split|]. intros _ H; contradiction. }
  assert (N2 : json r2 <> []).
  { intros E. apply length_zero_iff in E. congruence. }
  cbn [fetchUserRepos_loop fst snd].
  split; [rewrite requestCount_setTimeout; lia|].
  split; [intros [H|H]; congruence|].
  intros _ _. split; [intros [H|H]; congruence|].
  intros _ _. split; [reflexivity|].
  cbn [setTimeout trace]. rewrite T3. now rewrite <- app_assoc.
Qed.

End CappedWalker.

Section CappedWalkerWitness.

Import Api StressFetch.
Local Open Scope string_scope.

(** A remote with sixty-one repositories or more: every page is full. *)
Lemma capped_fetchUserRepos_two_pages_witness :
  let page := repeat {| full_name := "octocat/r"; name := "r";
                        private := false |} 30 in
  let network := fun (_ : Url) (_ : nat) =>
    {| status := 200; X_RateLimit_Remaining := None;
       X_RateLimit_Reset := None; json := page |} in
  let latency := fun (_ : Url) (_ : nat) => 0%Z in
  let w := {| now := 0; trace := [] |} in
  let res := fetchUserRepos network latency "octocat" w in
  fst res = (page ++ page)%list /\
  trace (snd res)
  = [Fetch (reposUrl "octocat" 1); Sleep 500;
     Fetch (reposUrl "octocat" 2); Sleep 500].
Proof.
  cbv zeta.
  pose proof (capped_fetchUserRepos_two_pages
    (fun (_ : Url) (_ : nat) =>
       {| status := 200; X_RateLimit_Remaining := None;
          X_RateLimit_Reset := None;
          json := repeat {| full_name := "octocat/r"; name := "r";
                            private := false |} 30 |})
    (fun (_ : Url) (_ : nat) => 0%Z)
    "octocat" {| now := 0; trace := [] |}) as H.
  cbv zeta in H. destruct H as (_ & _ & H).
  destruct (H eq_refl ltac:(discriminate)) as (_ & H2).
  exact (H2 eq_refl ltac:(discriminate)).
Defined.

End CappedWalkerWitness.

(* ================================================================= *)
(** ** The insight engine *)

Section InsightsMore.

Import JS Insights.
Local Open Scope string_scope.
Local Open Scope Q_scope.

(** More than half inactive and more than 70% active cannot both hold,
    also for a total of zero, where both quotients are infinite. *)
Lemma inactive_excludes_active (inactiveRepos totalRepos : Z) :
  (inactiveRepos >? 0)%Z = true ->
  mostlyInactive inactiveRepos totalRepos = true ->
  mostlyActive inactiveRepos totalRepos = true ->
  False.
Proof.
  unfold mostlyInactive, inactivePercentage, mostlyActive. cbv zeta.
  intros Hi Hp Ha. apply andb_prop in Ha. destruct Ha as [Ha1 Ha2].
  destruct (totalRepos =? 0)%Z eqn:Et.
  - apply Z.eqb_eq in Et. lia.
  - apply Z.eqb_neq in Et.
    assert (Ht : ~ inject_Z totalRepos == 0)
      by (intros E; unfold Qeq in E; simpl in E; lia).
    apply gt_true in Ha2.
    assert (E : inject_Z (totalRepos - inactiveRepos) / inject_Z totalRepos
                == 1 - inject_Z inactiveRepos / inject_Z totalRepos).
    { unfold Z.sub. rewrite inject_Z_plus, inject_Z_opp. now field. }
    rewrite E in Ha2.
    destruct (Math_round_near
                (inject_Z inactiveRepos / inject_Z totalRepos * 100))
      as [_ Hr].
    assert (Hp' : (51 <= Math_round
                     (inject_Z inactiveRepos / inject_Z totalRepos * 100))%Z)
      by lia.
    assert (Hq : inject_Z 51
                 <= inject_Z (Math_round
                     (inject_Z inactiveRepos / inject_Z totalRepos * 100)))
      by (rewrite <- Zle_Qle; exact Hp').
    change (inject_Z 51) with 51 in Hq.
    set (q := inject_Z inactiveRepos / inject_Z totalRepos) in *.
    set (p := inject_Z (Math_round (q * 100))) in *.
    clearbody p q. clear E Ht. lra.
Qed.

Ltac emoji_listed :=
  cbn [app]; repeat (apply Forall_cons || apply Forall_nil);
  cbn [In emoji]; auto 8.

(** Each block appends to the array: at most two insights for the bus
    factor, two for the health score, one for each activity block. *)
Lemma busFactorInsights_appends busFactors globalBusFactor insights :
  exists extra : list Insight,
    busFactorInsights busFactors globalBusFactor insights
    = (insights ++ extra)%list /\
    (List.length extra <= 2)%nat /\
    Forall (fun x => In (emoji x) ["⚠️"; "✅"]) extra.
Proof.
  unfold busFactorInsights, push. destruct globalBusFactor as [g|].
  - cbv zeta.
    destruct (len (filter _ busFactors) >? 0)%Z;
      destruct (BusFactor.Risk_eqb _ _ && _);
      rewrite <- ?app_assoc;
      eexists; (split; [try reflexivity; symmetry; apply app_nil_r|]);
      (split; [cbn [List.length app]; lia|]);
      emoji_listed.
  - exists []. rewrite app_nil_r. repeat split; [cbn [List.length app]; lia | constructor].
Qed.

Lemma healthScoreInsights_appends globalHealthScore insights :
  exists extra : list Insight,
    healthScoreInsights globalHealthScore insights
    = (insights ++ extra)%list /\
    (List.length extra <= 2)%nat /\
    Forall (fun x => In (emoji x) ["🚀"; "🔴"; "⚡"; "🐌"]) extra.
Proof.
  unfold healthScoreInsights, push. destruct globalHealthScore as [h|].
  - cbv zeta.
    destruct (HealthScore.grade h);
      destruct (gt _ 0 && lt _ 48);
      try destruct (gt _ 168);
      rewrite <- ?app_assoc;
      eexists; (split; [try reflexivity; symmetry; apply app_nil_r|]);
      (split; [cbn [List.length app]; lia|]);
      emoji_listed.
  - exists []. rewrite app_nil_r. repeat split; [cbn [List.length app]; lia | constructor].
Qed.

Lemma activityInsights_appends inactiveRepos totalRepos insights :
  exists extra : list Insight,
    activityInsights inactiveRepos totalRepos insights
    = (insights ++ extra)%list /\
    (List.length extra <= 1)%nat /\
    Forall (fun x => In (emoji x) ["💤"; "📊"]) extra /\
    (forall x, In x extra -> emoji x = "💤" ->
       (inactiveRepos >? 0)%Z = true /\
       mostlyInactive inactiveRepos totalRepos = true).
Proof.
  unfold activityInsights, push.
  destruct (inactiveRepos >? 0)%Z;
    [destruct (mostlyInactive inactiveRepos totalRepos)|];
    eexists; (split; [try reflexivity; symmetry; apply app_nil_r|]);
    (split; [cbn [List.length app]; lia|]);
    (split; [emoji_listed|]);
    intros x Hx Ex; cbn [In] in Hx;
    repeat match goal with
           | H : _ \/ _ |- _ => destruct H as [<- | H]
           | H : False |- _ => destruct H
           end;
    first [now split | discriminate Ex].
Qed.

Lemma overallActivityInsight_appends inactiveRepos totalRepos insights :
  exists extra : list Insight,
    overallActivityInsight inactiveRepos totalRepos insights
    = (insights ++ extra)%list /\
    (List.length extra <= 1)%nat /\
    Forall (fun x => In (emoji x) ["✨"]) extra /\
    (forall x, In x extra -> mostlyActive inactiveRepos totalRepos = true).
Proof.
  unfold overallActivityInsight, push.
  destruct (mostlyActive inactiveRepos totalRepos);
    eexists; (split; [try reflexivity; symmetry; apply app_nil_r|]);
    (split; [cbn [List.length app]; lia|]);
    (split; [emoji_listed|]);
    intros x Hx; cbn [In] in Hx; tauto.
Qed.

Lemma defaultInsight_cases (insights : list Insight) :
  (insights = [] /\
   defaultInsight insights
   = [{| type := info; emoji := "📈";
         message := "Analytics data loaded successfully" |}]) \/
  (insights <> [] /\ defaultInsight insights = insights).
Proof.
  destruct insights; [left | right]; split;
    first [reflexivity | discriminate].
Qed.

(** The array before the closing block, split by the block that pushed
    each insight. *)
Lemma generateInsights_blocks
    busFactors globalBusFactor healthScores globalHealthScore
    inactiveRepos totalRepos :
  exists e1 e2 e3 e4 : list Insight,
    generateInsights busFactors globalBusFactor healthScores
      globalHealthScore inactiveRepos totalRepos
    = defaultInsight (e1 ++ e2 ++ e3 ++ e4)%list /\
    (List.length e1 <= 2 /\ List.length e2 <= 2 /\
     List.length e3 <= 1 /\ List.length e4 <= 1)%nat /\
    Forall (fun x => In (emoji x) ["⚠️"; "✅"]) e1 /\
    Forall (fun x => In (emoji x) ["🚀"; "🔴"; "⚡"; "🐌"]) e2 /\
    Forall (fun x => In (emoji x) ["💤"; "📊"]) e3 /\
    Forall (fun x => In (emoji x) ["✨"]) e4 /\
    (forall x, In x e3 -> emoji x = "💤" ->
       (inactiveRepos >? 0)%Z = true /\
       mostlyInactive inactiveRepos totalRepos = true) /\
    (forall x, In x e4 -> mostlyActive inactiveRepos totalRepos = true).
Proof.
  unfold generateInsights. cbv zeta.
  destruct (busFactorInsights_appends busFactors globalBusFactor [])
    as (e1 & -> & L1 & F1).
  destruct (healthScoreInsights_appends globalHealthScore ([] ++ e1))
    as (e2 & -> & L2 & F2).
  destruct (activityInsights_appends inactiveRepos totalRepos
              (([] ++ e1) ++ e2))
    as (e3 & -> & L3 & F3 & C3).
  destruct (overallActivityInsight_appends inactiveRepos totalRepos
              ((([] ++ e1) ++ e2) ++ e3))
    as (e4 & -> & L4 & F4 & C4).
  exists e1, e2, e3, e4. cbn [app]. rewrite <- !app_assoc.
  split; [reflexivity|]. split; [repeat split; assumption|].
  repeat (split; [assumption|]). assumption.
Qed.

Ltac emoji_clash F x Hx E :=
  rewrite Forall_forall in F; specialize (F x Hx); rewrite E in F;
  cbn [In] in F;
  repeat match goal with
         | H : _ \/ _ |- _ => destruct H as [H | H]
         end;
  first [discriminate F | contradiction].

(** The engine always reports something and never more than six
    insights; the default insight ("Analytics data loaded
    successfully") is reported only when no rule fires, hence only
    alone. *)
Theorem generateInsights_never_empty
    (busFactors : list BusFactor.BusFactorResult)
    (globalBusFactor : option BusFactor.BusFactorResult)
    (healthScores : list HealthScore.HealthScoreResult)
    (globalHealthScore : option HealthScore.HealthScoreResult)
    (inactiveRepos totalRepos : Z) :
  let insights :=
    generateInsights busFactors globalBusFactor healthScores
      globalHealthScore inactiveRepos totalRepos in
  insights <> [] /\
  (List.length insights <= 6)%nat /\
  (forall x, In x insights -> emoji x = "📈" ->
     insights = [{| type := info; emoji := "📈";
                    message := "Analytics data loaded successfully" |}]).
Proof.
  cbv zeta.
  destruct (generateInsights_blocks busFactors globalBusFactor healthScores
              globalHealthScore inactiveRepos totalRepos)
    as (e1 & e2 & e3 & e4 & -> & (L1 & L2 & L3 & L4)
        & F1 & F2 & F3 & F4 & _ & _).
  destruct (defaultInsight_cases (e1 ++ e2 ++ e3 ++ e4)%list)
    as [[E ->] | [N ->]].
  - split; [discriminate|]. split; [cbn [List.length app]; lia|]. reflexivity.
  - split; [exact N|]. split; [rewrite !length_app; lia|].
    intros x Hx Ex. exfalso.
    apply in_app_or in Hx. destruct Hx as [Hx|Hx];
      [emoji_clash F1 x Hx Ex|].
    apply in_app_or in Hx. destruct Hx as [Hx|Hx];
      [emoji_clash F2 x Hx Ex|].
    apply in_app_or in Hx. destruct Hx as [Hx|Hx];
      [emoji_clash F3 x Hx Ex | emoji_clash F4 x Hx Ex].
Qed.

(** The two activity verdicts exclude each other: the warning that more
    than half of the repositories are inactive and the praise that most
    repositories show active development are never reported together,
    whatever the (integer) counts. *)
Theorem generateInsights_inactive_excludes_active
    (busFactors : list BusFactor.BusFactorResult)
    (globalBusFactor : option BusFactor.BusFactorResult)
    (healthScores : list HealthScore.HealthScoreResult)
    (globalHealthScore : option HealthScore.HealthScoreResult)
    (inactiveRepos totalRepos : Z) (x y : Insight) :
  let insights :=
    generateInsights busFactors globalBusFactor healthScores
      globalHealthScore inactiveRepos totalRepos in
  In x insights -> In y insights ->
  ~ (emoji x = "💤" /\ emoji y = "✨").
Proof.
  cbv zeta.
  destruct (generateInsights_blocks busFactors globalBusFactor healthScores
              globalHealthScore inactiveRepos totalRepos)
    as (e1 & e2 & e3 & e4 & -> & _ & F1 & F2 & F3 & F4 & C3 & C4).
  intros Hx Hy [Ex Ey].
  destruct (defaultInsight_cases (e1 ++ e2 ++ e3 ++ e4)%list)
    as [[_ E] | [_ E]]; rewrite E in Hx, Hy; clear E.
  { destruct Hx as [<- | []]. discriminate Ex. }
  assert (X3 : In x e3).
  { apply in_app_or in Hx. destruct Hx as [Hx|Hx];
      [emoji_clash F1 x Hx Ex|].
    apply in_app_or in Hx. destruct Hx as [Hx|Hx];
      [emoji_clash F2 x Hx Ex|].
    apply in_app_or in Hx. destruct Hx as [Hx|Hx];
      [exact Hx | emoji_clash F4 x Hx Ex]. }
  assert (Y4 : In y e4).
  { apply in_app_or in Hy. destruct Hy as [Hy|Hy];
      [emoji_clash F1 y Hy Ey|].
    apply in_app_or in Hy. destruct Hy as [Hy|Hy];
      [emoji_clash F2 y Hy Ey|].
    apply in_app_or in Hy. destruct Hy as [Hy|Hy];
      [emoji_clash F3 y Hy Ey | exact Hy]. }
  destruct (C3 x X3 Ex) as [Hi Hm].
  exact (inactive_excludes_active inactiveRepos totalRepos Hi Hm (C4 y Y4)).
Qed.

End InsightsMore.

Section InsightsWitness.

Import JS Insights.
Local Open Scope string_scope.

(** Six inactive repositories out of ten, and no analytics. *)
Lemma generateInsights_never_empty_witness :
  generateInsights [] None [] None 6 10
  = [{| type := warning; emoji := "💤";
        message :=
          "60% of repositories are inactive (no commits in last 3 months)"
     |}] /\
  generateInsights [] None [] None 0 0
  = [{| type := info; emoji := "📈";
        message := "Analytics data loaded successfully" |}].
Proof.
  split; [vm_compute; reflexivity|].
  pose proof (generateInsights_never_empty [] None [] None 0 0) as H.
  cbv zeta in H. destruct H as (_ & _ & H).
  apply (H {| type := info; emoji := "📈";
              message := "Analytics data loaded successfully" |});
    [vm_compute; left; reflexivity | reflexivity].
Defined.

Lemma generateInsights_inactive_excludes_active_witness :
  let x := {| type := warning; emoji := "💤";
              message :=
                "60% of repositories are inactive (no commits in last 3 months)"
           |} in
  In x (generateInsights [] None [] None 6 10) /\
  ~ (emoji x = "💤" /\ emoji x = "✨").
Proof.
  cbv zeta.
  assert (Hx : In {| type := warning; emoji := "💤";
                     message :=
                       "60% of repositories are inactive (no commits in last 3 months)"
                  |} (generateInsights [] None [] None 6 10))
    by (vm_compute; left; reflexivity).
  split; [exact Hx|].
  exact (generateInsights_inactive_excludes_active
           [] None [] None 6 10 _ _ Hx Hx).
Defined.

End InsightsWitness.
